(** * visual-qa-agent: check-matrix orchestration, issue detection and
      de-duplication, pixel comparison

    A shallow embedding of
      - class [IssueDetector]   ([src/core/issue-detector.js]),
      - class [VisualQAAgent]   (the agent core, which imports the
        detector: [getDevicesForProfile], [checkPage],
        [deduplicateIssues], [runChecks]),
      - class [PixelComparator] ([src/analyzers/pixel-comparator.js]),
      - [findDeviceById]        ([utils/helpers.js]),
    and the properties of the specification that concern them;
    further, of the same classes, [prioritizeIssues],
    [generateSummaryForAgent], [auditClickableElements],
    [captureScreenshot], [captureConsole], [saveBaseline], [urlToSlug],
    the constructor of the comparator, [analyzeResults],
    [compareDirectories], [copyImageRegion], [createSideBySide]; of the
    helpers [validateUrl] and [pluralize]; and of the callers the
    status of [visual_qa_check], the batch check, the exit code of the
    command line and the issues the HTML report attaches to a check.

    Conventions.  JavaScript strings are [string]; arrays are [list];
    a [Map] is an insertion-ordered association list; an object used as
    a dictionary is an association list in [Object.entries] order.  A
    call that may throw returns an [EvalResult].  The doubles of the
    contrast check, which the code compares against 1 and 4.5, are
    Rocq's primitive binary64 floats; the percentage of differing
    pixels is kept as the exact rational it rounds. *)

From Stdlib Require Import String Ascii List Bool Arith ZArith QArith Qround.
From Stdlib Require Import Lia Permutation Sorted Floats DecimalString.
Import ListNotations.

Local Close Scope Q_scope.
Local Open Scope string_scope.
Local Open Scope list_scope.

Set Implicit Arguments.

(* ================================================================== *)
(** * JavaScript preliminaries                                         *)
(* ================================================================== *)

Module JS.

(** Truthiness of a string: only the empty string is falsy. *)
Definition truthy (s : string) : bool :=
  match s with
  | EmptyString => false
  | String _ _ => true
  end.

(** [a || b] on strings. *)
Definition or_else (a b : string) : string :=
  if truthy a then a else b.

(** [Array.prototype.includes] on an array of strings. *)
Definition includes (x : string) (xs : list string) : bool :=
  existsb (String.eqb x) xs.

(** [Array.prototype.push] of one element. *)
Definition push {A} (xs : list A) (x : A) : list A := xs ++ [x].

(** [Array.prototype.slice(0, n)]. *)
Definition slice0 {A} (n : nat) (xs : list A) : list A := firstn n xs.

(** The outcome of an awaited call: it throws an [Error] with a
    message, or it returns. *)
Inductive EvalResult (A : Type) : Type :=
| Threw (message : string)
| Returned (value : A).
Arguments Threw {A} message.
Arguments Returned {A} value.

(** ** [Map] with string keys: insertion ordered. *)
Definition Map (V : Type) := list (string * V).

Fixpoint get {V} (k : string) (m : Map V) : option V :=
  match m with
  | [] => None
  | (k', v) :: rest => if String.eqb k' k then Some v else get k rest
  end.

Definition has {V} (k : string) (m : Map V) : bool :=
  match get k m with
  | Some _ => true
  | None => false
  end.

(** [m.set(k, v)]: a present key keeps its position, a new key goes
    last.  Mutating in place the object stored under [k] is the same
    as storing the mutated object again. *)
Fixpoint set {V} (k : string) (v : V) (m : Map V) : Map V :=
  match m with
  | [] => [(k, v)]
  | (k', v') :: rest =>
      if String.eqb k' k then (k', v) :: rest else (k', v') :: set k v rest
  end.

Definition values {V} (m : Map V) : list V := map snd m.
Definition keys {V} (m : Map V) : list string := map fst m.

End JS.

Import JS.

(* ================================================================== *)
(** * Data model                                                       *)
(* ================================================================== *)

(** The [type] of an issue; the source writes the string. *)
Inductive IssueType : Type :=
| Layout | Accessibility | Typography | Visual | Javascript | Network.

Definition typeName (t : IssueType) : string :=
  match t with
  | Layout => "layout"
  | Accessibility => "accessibility"
  | Typography => "typography"
  | Visual => "visual"
  | Javascript => "javascript"
  | Network => "network"
  end.

Definition IssueType_eqb (a b : IssueType) : bool :=
  match a, b with
  | Layout, Layout | Accessibility, Accessibility
  | Typography, Typography | Visual, Visual
  | Javascript, Javascript | Network, Network => true
  | _, _ => false
  end.

Inductive Severity : Type := Critical | Warning | Info.

Definition Severity_eqb (a b : Severity) : bool :=
  match a, b with
  | Critical, Critical | Warning, Warning | Info, Info => true
  | _, _ => false
  end.

(** The element descriptor an in-page script returns.  Only the fields
    the host code reads to build ids, titles and keys are kept; the
    measurements that go into descriptions are left out.  The
    descriptor of an image carries no tag, and none is read. *)
Record Element : Type := {
  tag : string;
  selector : string;
  text : string
}.

Inductive FixAction : Type := css_change | html_change.

Record Issue : Type := {
  id : string;
  type : IssueType;
  severity : Severity;
  title : string;
  device : string;            (* device.name *)
  element : option Element;   (* null when no element was found *)
  fix_action : FixAction;
  fix_target : string;
  wcag : option string;
  blocks_release : bool;
  colorScheme : option string (* set to 'dark' by checkPage *)
}.

(** An entry of the de-duplication map:
    [{ ...issue, affected_devices }]. *)
Record DedupedIssue : Type := {
  issue : Issue;
  affected_devices : option (list string)
}.

(* ================================================================== *)
(** * VisualQAAgent.deduplicateIssues                                  *)
(* ================================================================== *)

(** [issue.element?.selector || issue.title] *)
Definition selectorOrTitle (i : Issue) : string :=
  match element i with
  | Some e => or_else (selector e) (title i)
  | None => title i
  end.

(** [`${issue.type}-${issue.element?.selector || issue.title}`] *)
Definition dedupKey (i : Issue) : string :=
  typeName (type i) ++ "-" ++ selectorOrTitle i.

(** One iteration of the loop over [issues]. *)
Definition dedupStep (seen : Map DedupedIssue) (i : Issue) : Map DedupedIssue :=
  let key := dedupKey i in
  if has key seen then
    match get key seen with
    | Some existing =>
        let existing1 :=
          match affected_devices existing with
          | None =>
              {| issue := issue existing;
                 affected_devices := Some [device (issue existing)] |}
          | Some _ => existing
          end in
        let existing2 :=
          match affected_devices existing1 with
          | Some ds =>
              if negb (includes (device i) ds)
              then {| issue := issue existing1;
                      affected_devices := Some (push ds (device i)) |}
              else existing1
          | None => existing1
          end in
        set key existing2 seen
    | None => seen
    end
  else
    set key {| issue := i; affected_devices := Some [device i] |} seen.

Definition deduplicateIssues (issues : list Issue) : list DedupedIssue :=
  values (fold_left dedupStep issues []).

(** ** The key as the pair the specification names *)

(** Two issues share a key: same type, same selector-or-title. *)
Definition sameKey (i j : Issue) : bool :=
  IssueType_eqb (type i) (type j)
  && String.eqb (selectorOrTitle i) (selectorOrTitle j).

(** The elements that are the first of their class under [same], in
    input order: an element is kept when none of the earlier ones is
    [same] as it. *)
Section FirstBy.
Context {A : Type} (same : A -> A -> bool).

Fixpoint firstBy (earlier rest : list A) : list A :=
  match rest with
  | [] => []
  | x :: rest' =>
      if existsb (same x) earlier
      then firstBy (earlier ++ [x]) rest'
      else x :: firstBy (earlier ++ [x]) rest'
  end.
End FirstBy.

(** The issues that are the first of their key, in input order. *)
Definition firstOccurrences (issues : list Issue) : list Issue :=
  firstBy sameKey [] issues.

(** The issues of the input that share the key of [i]. *)
Definition keyGroup (i : Issue) (issues : list Issue) : list Issue :=
  filter (sameKey i) issues.

(** Device labels without repetition, in order of first appearance. *)
Definition distinctDevices (ds : list string) : list string :=
  firstBy String.eqb [] ds.

(** The record that stands for the key of [j] after de-duplication of
    [issues]: the fields of [j] and the distinct devices of its group. *)
Definition canonical (issues : list Issue) (j : Issue) : DedupedIssue :=
  {| issue := j;
     affected_devices :=
       Some (distinctDevices (map device (keyGroup j issues))) |}.

(** The invariant of the loop of [deduplicateIssues] after the issues
    [l]: the keys of the map are distinct, the entry of a key is the
    canonical record of the first issue with that key, and the entries
    stand in the order of first occurrence. *)
Record dedupInvariant (l : list Issue) (seen : Map DedupedIssue) : Prop := {
  inv_keys : NoDup (keys seen);
  inv_get : forall k,
    get k seen =
    option_map (canonical l) (find (fun j => String.eqb (dedupKey j) k) l);
  inv_order : map (fun e => issue (snd e)) seen = firstOccurrences l
}.

(* ================================================================== *)
(** * Devices and test profiles ([config/devices.json])                *)
(* ================================================================== *)

Record Viewport : Type := { width : nat; height : nat }.

(** The value stored under a device id in a category. *)
Record DeviceSpec : Type := {
  spec_name : string;
  spec_viewport : Viewport;
  spec_is_mobile : bool;
  spec_has_touch : bool
}.

(** [{ id, ...device }] *)
Module Device.
Record t : Type := {
  id : string;
  name : string;
  viewport : Viewport;
  is_mobile : bool;
  has_touch : bool
}.
End Device.
Abbreviation Device := Device.t.

Definition withId (id : string) (d : DeviceSpec) : Device :=
  {| Device.id := id;
     Device.name := spec_name d;
     Device.viewport := spec_viewport d;
     Device.is_mobile := spec_is_mobile d;
     Device.has_touch := spec_has_touch d |}.

(** An object used as a dictionary, in [Object.entries] order. *)
Definition Dict (V : Type) := list (string * V).

(** [dict[key]]; [None] is [undefined]. *)
Fixpoint lookup {V} (key : string) (dict : Dict V) : option V :=
  match dict with
  | [] => None
  | (k, v) :: rest => if String.eqb k key then Some v else lookup key rest
  end.

(** [profile.devices]: the sentinel ['all'] or an array of ids. *)
Inductive ProfileDevices : Type :=
| AllDevices
| DeviceIds (ids : list string).

Record TestProfile : Type := {
  devices : ProfileDevices;
  browsers : list string
}.

Record DevicesConfig : Type := {
  device_profiles : Dict (Dict DeviceSpec);  (* category -> id -> device *)
  test_profiles : Dict TestProfile
}.

(* ================================================================== *)
(** * VisualQAAgent.getDevicesForProfile                               *)
(* ================================================================== *)

Definition dquote : string := String "034"%char EmptyString.

(** The inner loop over the categories for one explicit id: the first
    category that has the id pushes the device and breaks; when no
    category has it the list is left as it was. *)
Fixpoint pushFirstMatch (devicesList : list Device) (deviceId : string)
         (categories : list (Dict DeviceSpec)) : list Device :=
  match categories with
  | [] => devicesList
  | category :: rest =>
      match lookup deviceId category with
      | Some d => push devicesList (withId deviceId d)
      | None => pushFirstMatch devicesList deviceId rest
      end
  end.

(** The loops of the ['all'] branch. *)
Definition pushAll (devicesList : list Device)
           (categories : list (Dict DeviceSpec)) : list Device :=
  fold_left
    (fun acc category =>
       fold_left (fun acc' entry => push acc' (withId (fst entry) (snd entry)))
                 category acc)
    categories devicesList.

Definition getDevicesForProfile (cfg : DevicesConfig) (profileName : string)
  : EvalResult (list Device * list string) :=
  match lookup profileName (test_profiles cfg) with
  | None =>
      Threw ("Профиль " ++ dquote ++ profileName ++ dquote ++ " не найден")
  | Some profile =>
      let deviceProfiles := device_profiles cfg in
      let devicesList :=
        match devices profile with
        | AllDevices => pushAll [] (values deviceProfiles)
        | DeviceIds ids =>
            fold_left
              (fun acc deviceId =>
                 pushFirstMatch acc deviceId (values deviceProfiles))
              ids []
        end in
      Returned (devicesList, browsers profile)
  end.

(** [findDeviceById] of [utils/helpers.js], the single-device lookup
    whose callers raise an error on [null]. *)
Fixpoint findDeviceById (categories : list (Dict DeviceSpec))
         (deviceId : string) : option Device :=
  match categories with
  | [] => None
  | category :: rest =>
      match lookup deviceId category with
      | Some d => Some (withId deviceId d)
      | None => findDeviceById rest deviceId
      end
  end.

(* ================================================================== *)
(** * IssueDetector                                                    *)
(* ================================================================== *)

(** What the host code cannot compute itself: the regular-expression
    match of [parseColor] and [Math.pow] belong to the JavaScript
    engine of the page. *)
Record RGB : Type := { r : float; g : float; b : float }.

Class Engine : Type := {
  (** [Math.pow(x, y)] *)
  Math_pow : float -> float -> float;
  (** [parseColor(color)]: the three numbers matched by
      [/rgba?\((\d+),\s*(\d+),\s*(\d+)/], or [null]. *)
  parseColor : string -> option RGB
}.

(** A text element as the contrast script sees it. *)
Record TextElement : Type := {
  described : Element;             (* tag, selector, text *)
  style_color : string;            (* getComputedStyle(el).color *)
  style_backgroundColor : string
}.

(** A page that is open in the browser, as far as the detector looks at
    it: what each [page.evaluate] call gives.  The contrast script is
    modelled itself, so for it the page gives the elements matched by
    its [querySelectorAll]; the other scripts are given by their results. *)
Record Page : Type := {
  hasHorizontalScroll : EvalResult bool;
  overflowingElement : EvalResult (option Element);
  overflowingElements : EvalResult (list Element);
  smallTargets : EvalResult (list Element);
  textElements : EvalResult (list TextElement);
  smallTextElements : EvalResult (list Element);
  imagesWithoutAlt : EvalResult (list Element)
}.

Section ContrastScript.
Context `{Engine}.
Local Open Scope float_scope.
Local Set Warnings "-inexact-float".

(** [Math.max] and [Math.min] of two numbers. *)
Definition Math_max (x y : float) : float :=
  if is_nan x || is_nan y then nan
  else if x <? y then y
  else if y <? x then x
  else if is_zero x then x + y
  else x.

Definition Math_min (x y : float) : float :=
  if is_nan x || is_nan y then nan
  else if x <? y then x
  else if y <? x then y
  else if is_zero x then - (- x + - y)
  else x.

(** The body of the [map] in [getLuminance]. *)
Definition linearize (c : float) : float :=
  let c := c / 255 in
  if c <=? 0.03928 then c / 12.92 else Math_pow ((c + 0.055) / 1.055) 2.4.

Definition getLuminance (r g b : float) : float :=
  let rs := linearize r in
  let gs := linearize g in
  let bs := linearize b in
  0.2126 * rs + 0.7152 * gs + 0.0722 * bs.

Definition getContrastRatio (l1 l2 : float) : float :=
  let lighter := Math_max l1 l2 in
  let darker := Math_min l1 l2 in
  (lighter + 0.05) / (darker + 0.05).

(** The body of [textElements.forEach]: [results] after one element. *)
Definition contrastVisit (results : list (Element * float))
           (el : TextElement) : list (Element * float) :=
  let color := parseColor (style_color el) in
  let bgColor := parseColor (style_backgroundColor el) in
  match color, bgColor with
  | Some color, Some bgColor =>
      if 0 <? r bgColor + g bgColor + b bgColor then
        let textLum := getLuminance (r color) (g color) (b color) in
        let bgLum := getLuminance (r bgColor) (g bgColor) (b bgColor) in
        let ratio := getContrastRatio textLum bgLum in
        if (ratio <? 4.5) && (1 <? ratio)
        then push results (described el, ratio)
        else results
      else results
  | _, _ => results
  end.

(** The script of [checkContrast]: the descriptors with their ratio. *)
Definition lowContrastScript (els : list TextElement)
  : list (Element * float) :=
  slice0 5 (fold_left contrastVisit els []).
End ContrastScript.

Section Detector.
Context `{Engine}.
Variable dev : Device.

Definition checkHorizontalScroll (page : Page) : option Issue :=
  match hasHorizontalScroll page with
  | Returned true =>
      match overflowingElement page with
      | Returned overflowing =>
          Some {| id := "horizontal-scroll-" ++ Device.id dev;
                  type := Layout;
                  severity := Critical;
                  title := "Горизонтальный скролл на странице";
                  device := Device.name dev;
                  element := overflowing;
                  fix_action := css_change;
                  fix_target :=
                    match overflowing with
                    | Some e => or_else (selector e) "body"
                    | None => "body"
                    end;
                  wcag := None;
                  blocks_release := true;
                  colorScheme := None |}
      | Threw _ => None
      end
  | Returned false => None
  | Threw _ => None
  end.

Definition overflowIssue (el : Element) : Issue :=
  {| id := "overflow-" ++ tag el ++ "-" ++ Device.id dev;
     type := Layout;
     severity := Critical;
     title := "Элемент " ++ tag el ++ " выходит за границы экрана";
     device := Device.name dev;
     element := Some el;
     fix_action := css_change;
     fix_target := selector el;
     wcag := None;
     blocks_release := true;
     colorScheme := None |}.

Definition checkOverflow (page : Page) : list Issue :=
  match overflowingElements page with
  | Returned els => map overflowIssue els
  | Threw _ => []
  end.

Definition touchTargetIssue (el : Element) : Issue :=
  {| id := "touch-target-" ++ selector el ++ "-" ++ Device.id dev;
     type := Accessibility;
     severity := Warning;
     title := "Touch target слишком маленький: " ++ or_else (text el) (tag el);
     device := Device.name dev;
     element := Some el;
     fix_action := css_change;
     fix_target := selector el;
     wcag := Some "2.5.5";
     blocks_release := false;
     colorScheme := None |}.

Definition checkTouchTargets (page : Page) : list Issue :=
  match smallTargets page with
  | Returned els => map touchTargetIssue els
  | Threw _ => []
  end.

Definition contrastIssue (el : Element) : Issue :=
  {| id := "contrast-" ++ selector el ++ "-" ++ Device.id dev;
     type := Accessibility;
     severity := Warning;
     title := "Низкий контраст текста: " ++ dquote ++ text el ++ dquote;
     device := Device.name dev;
     element := Some el;
     fix_action := css_change;
     fix_target := selector el;
     wcag := Some "1.4.3";
     blocks_release := false;
     colorScheme := None |}.

Definition checkContrast (page : Page) : list Issue :=
  match textElements page with
  | Returned els => map (fun found => contrastIssue (fst found))
                        (lowContrastScript els)
  | Threw _ => []
  end.

Definition fontSizeIssue (el : Element) : Issue :=
  {| id := "font-size-" ++ selector el ++ "-" ++ Device.id dev;
     type := Typography;
     severity := Warning;
     title := "Слишком мелкий текст: " ++ dquote ++ text el ++ dquote;
     device := Device.name dev;
     element := Some el;
     fix_action := css_change;
     fix_target := selector el;
     wcag := Some "1.4.4";
     blocks_release := false;
     colorScheme := None |}.

Definition checkFontSize (page : Page) : list Issue :=
  match smallTextElements page with
  | Returned els => map fontSizeIssue els
  | Threw _ => []
  end.

Definition imageAltIssue (img : Element) : Issue :=
  {| id := "img-alt-" ++ Device.id dev;
     type := Accessibility;
     severity := Critical;
     title := "Изображение без alt-текста";
     device := Device.name dev;
     element := Some img;
     fix_action := html_change;
     fix_target := selector img;
     wcag := Some "1.1.1";
     blocks_release := true;
     colorScheme := None |}.

Definition checkImageAlt (page : Page) : list Issue :=
  match imagesWithoutAlt page with
  | Returned imgs => map imageAltIssue imgs
  | Threw _ => []
  end.

Definition checkOverlap (page : Page) : list Issue := [].
End Detector.

(** ** [prioritizeIssues] *)

Definition severityOrder (s : Severity) : Z :=
  match s with
  | Critical => 0
  | Warning => 1
  | Info => 2
  end%Z.

Definition isAccessibility (i : Issue) : bool :=
  IssueType_eqb (type i) Accessibility.

(** The comparator handed to [issues.sort]. *)
Definition compareIssues (a b : Issue) : Z :=
  let severityDiff := (severityOrder (severity a) - severityOrder (severity b))%Z in
  if negb (severityDiff =? 0)%Z then severityDiff
  else if isAccessibility a && negb (isAccessibility b) then (-1)%Z
  else if isAccessibility b && negb (isAccessibility a) then 1%Z
  else 0%Z.

(** [Array.prototype.sort] is stable: an element goes in front of the
    first one it does not compare greater than. *)
Fixpoint insertSorted {A} (cmp : A -> A -> Z) (x : A) (sorted : list A)
  : list A :=
  match sorted with
  | [] => [x]
  | y :: rest =>
      if (cmp x y <=? 0)%Z then x :: y :: rest
      else y :: insertSorted cmp x rest
  end.

Definition sort {A} (cmp : A -> A -> Z) (xs : list A) : list A :=
  fold_right (insertSorted cmp) [] xs.

Definition prioritizeIssues (issues : list Issue) : list Issue :=
  sort compareIssues issues.

(** ** [detectIssues] *)

Definition detectIssues `{Engine} (page : Page) (device : Device)
  : list Issue :=
  let issues := [] in
  let issues :=
    match checkHorizontalScroll device page with
    | Some horizontalScrollIssue => push issues horizontalScrollIssue
    | None => issues
    end in
  let issues := issues ++ checkOverflow device page in
  let issues :=
    if Device.is_mobile device || Device.has_touch device
    then issues ++ checkTouchTargets device page
    else issues in
  let issues := issues ++ checkContrast device page in
  let issues := issues ++ checkFontSize device page in
  let issues := issues ++ checkImageAlt device page in
  let issues := issues ++ checkOverlap page in
  prioritizeIssues issues.

(* ================================================================== *)
(** * VisualQAAgent.checkPage                                          *)
(* ================================================================== *)

Definition showNat (n : nat) : string :=
  NilZero.string_of_uint (Nat.to_uint n).

Inductive Status : Type :=
| StatusPassed | StatusFailed | StatusWarning | StatusError.

Definition Status_eqb (a b : Status) : bool :=
  match a, b with
  | StatusPassed, StatusPassed | StatusFailed, StatusFailed
  | StatusWarning, StatusWarning | StatusError, StatusError => true
  | _, _ => false
  end.

(** [{ type, severity, message }], what [checkLayout] and
    [basicVisualCheck] report. *)
Record BasicIssue : Type := {
  basic_type : IssueType;
  basic_severity : Severity;
  basic_message : string
}.

(** The metadata [captureScreenshot] collects (time stamp and page
    title left out). *)
Record Metadata : Type := {
  meta_url : string;
  meta_device : string;
  meta_browser : string;
  meta_viewport : Viewport
}.

(** [checkLayout(metadata, device)]: [{ issues, hasCritical }]. *)
Definition checkLayout (metadata : Metadata) (device : Device)
  : list BasicIssue * bool :=
  let hasCritical := false in
  let issues :=
    if negb (Nat.eqb (width (meta_viewport metadata))
                      (width (Device.viewport device)))
    then [ {| basic_type := Layout;
              basic_severity := Warning;
              basic_message :=
                "Ширина viewport не соответствует: ожидалось "
                ++ showNat (width (Device.viewport device)) ++ "px, получено "
                ++ showNat (width (meta_viewport metadata)) ++ "px" |} ]
    else [] in
  (issues, hasCritical).

(** [basicVisualCheck(screenshot, metadata)]; of the screenshot buffer
    only the length is read. *)
Definition basicVisualCheck (screenshot_length : nat) : list BasicIssue :=
  if Nat.ltb screenshot_length 1000
  then [ {| basic_type := Visual;
            basic_severity := Critical;
            basic_message :=
              "Скриншот слишком маленький - возможно страница не загрузилась" |} ]
  else [].

(** [runChecks(screenshot, metadata, device)]:
    [{ status, issues, metrics }]. *)
Record CheckResults : Type := {
  run_status : Status;
  run_issues : list BasicIssue;
  screenshotSize : nat
}.

Definition runChecks (screenshot_length : nat) (metadata : Metadata)
           (device : Device) : CheckResults :=
  let issues := [] in
  let status := StatusPassed in
  let layoutCheck := checkLayout metadata device in
  let '(issues, status) :=
    if Nat.ltb 0 (length (fst layoutCheck))
    then (issues ++ fst layoutCheck,
          if snd layoutCheck then StatusFailed
          else if negb (Status_eqb status StatusFailed) then StatusWarning
          else status)
    else (issues, status) in
  let visualCheck := basicVisualCheck screenshot_length in
  let issues :=
    if Nat.ltb 0 (length visualCheck) then issues ++ visualCheck else issues in
  {| run_status := status;
     run_issues := issues;
     screenshotSize := screenshot_length |}.

(** An element of [results.checks]. *)
Module Check.
Record t : Type := {
  device : string;                 (* the device label *)
  device_id : string;
  browser : string;
  viewport : option Viewport;
  is_mobile : option bool;
  colorScheme : string;
  screenshot : option string;
  status : Status;
  issues_count : option nat;
  issues : list BasicIssue;        (* of runChecks, through the spread *)
  metrics : option nat;
  error : option string
}.
End Check.

Module Summary.
Record t : Type := {
  total : nat;
  passed : nat;
  failed : nat;
  warnings : nat;
  blocks_release : bool
}.
End Summary.

(** [generateSummaryForAgent(issues)] *)
Record ActionSummary : Type := {
  total_issues : nat;
  action_blocks_release : bool;
  by_severity : nat * nat * nat;    (* critical, warning, info *)
  by_type : nat * nat * nat;        (* layout, accessibility, typography *)
  action_required : string
}.

Definition countIf {A} (p : A -> bool) (xs : list A) : nat :=
  length (filter p xs).

Definition generateSummaryForAgent (issues : list DedupedIssue)
  : ActionSummary :=
  let hasSeverity s (i : DedupedIssue) := Severity_eqb (severity (issue i)) s in
  let hasType t (i : DedupedIssue) := IssueType_eqb (type (issue i)) t in
  let critical := filter (hasSeverity Critical) issues in
  let warnings := filter (hasSeverity Warning) issues in
  let info := filter (hasSeverity Info) issues in
  {| total_issues := length issues;
     action_blocks_release := Nat.ltb 0 (length critical);
     by_severity := (length critical, length warnings, length info);
     by_type := (countIf (hasType Layout) issues,
                 countIf (hasType Accessibility) issues,
                 countIf (hasType Typography) issues);
     action_required :=
       if Nat.ltb 0 (length critical)
       then "БЛОКЕР: Исправьте " ++ showNat (length critical)
            ++ " критических проблем перед релизом"
       else if Nat.ltb 0 (length warnings)
       then "Рекомендуется исправить " ++ showNat (length warnings)
            ++ " предупреждений"
       else "Все проверки пройдены" |}.

(** The object [results] that [checkPage] fills and returns (time
    stamp left out). *)
Record CheckResult : Type := {
  url : string;
  profile : string;
  checks : list Check.t;
  issues : list DedupedIssue;
  summary : Summary.t;
  action_summary : option ActionSummary
}.

(** ** The outside world during one tuple *)

(** What [captureScreenshot(url, device, browserType, true, colorScheme)]
    resolves to: the screenshot buffer (its length) and the page that
    stays open. *)
Record Capture : Type := {
  screenshot_length : nat;
  page : Page
}.

Record TupleRun : Type := {
  (** [captureScreenshot]: URL validation, browser launch, navigation
      (30 s timeout), screenshot.  When it throws, [browser] in
      [checkPage] is still [null]. *)
  capture : EvalResult Capture;
  (** [Date.now()] as it is printed into the file name. *)
  now : string;
  (** [fs.ensureDir] and [fs.writeFile] of the screenshot. *)
  saveScreenshot : EvalResult unit;
  (** An exception that leaves the awaited [detectIssues] call.  The
      checks catch what their own [page.evaluate] calls throw, so this
      is what else the runtime may raise there. *)
  detectorException : option string;
  (** [browser.close()] in the [finally] block. *)
  close : EvalResult unit
}.

(** The world gives the run of the [n]-th tuple visited. *)
Definition World := nat -> TupleRun.

(** The mutable state of the loops: [results], [allIssues], and how
    many tuples were visited. *)
Record LoopState : Type := {
  results : CheckResult;
  allIssues : list Issue;
  visited : nat
}.

Definition pushCheck (c : Check.t) (bump : Summary.t -> Summary.t)
           (res : CheckResult) : CheckResult :=
  {| url := url res;
     profile := profile res;
     checks := push (checks res) c;
     issues := issues res;
     summary := bump (summary res);
     action_summary := action_summary res |}.

Definition deviceLabel (colorScheme : string) (device : Device) : string :=
  if String.eqb colorScheme "dark"
  then Device.name device ++ " (Dark)"
  else Device.name device.

(** The [catch] block. *)
Definition catchError (colorScheme browserType : string) (device : Device)
           (message : string) (st : LoopState) : LoopState :=
  let record :=
    {| Check.device := deviceLabel colorScheme device;
       Check.device_id := Device.id device;
       Check.browser := browserType;
       Check.viewport := None;
       Check.is_mobile := None;
       Check.colorScheme := colorScheme;
       Check.screenshot := None;
       Check.status := StatusError;
       Check.issues_count := None;
       Check.issues := [];
       Check.metrics := None;
       Check.error := Some message |} in
  let failedPlusPlus (s : Summary.t) :=
    {| Summary.total := Summary.total s;
       Summary.passed := Summary.passed s;
       Summary.failed := S (Summary.failed s);
       Summary.warnings := Summary.warnings s;
       Summary.blocks_release := Summary.blocks_release s |} in
  {| results := pushCheck record failedPlusPlus (results st);
     allIssues := allIssues st;
     visited := visited st |}.

(** The [forEach] that tags the issues found in dark mode. *)
Definition tagDarkMode (i : Issue) : Issue :=
  {| id := id i;
     type := type i;
     severity := severity i;
     title := "[Dark Mode] " ++ title i;
     device := device i;
     element := element i;
     fix_action := fix_action i;
     fix_target := fix_target i;
     wcag := wcag i;
     blocks_release := blocks_release i;
     colorScheme := Some "dark" |}.

(** The [try] block from the detection on, for a captured page whose
    screenshot was saved. *)
Definition analyseTuple `{Engine} (reportsPath url colorScheme browserType : string)
           (device : Device) (run : TupleRun) (cap : Capture)
           (st : LoopState) : LoopState :=
  let metadata :=
    {| meta_url := url;
       meta_device := Device.id device;
       meta_browser := browserType;
       meta_viewport := Device.viewport device |} in
  let schemeSuffix := if String.eqb colorScheme "dark" then "_dark" else "" in
  let checkId := (Device.id device ++ "_" ++ browserType ++ schemeSuffix)%string in
  let screenshotPath :=
    (reportsPath ++ "/screenshots/" ++ checkId ++ "_" ++ now run ++ ".png")%string in
  let detectedIssues := detectIssues (page cap) device in
  let detectedIssues :=
    if String.eqb colorScheme "dark"
    then map tagDarkMode detectedIssues
    else detectedIssues in
  let allIssues' := (allIssues st ++ detectedIssues)%list in
  let checkResults := runChecks (screenshot_length cap) metadata device in
  let hasCritical :=
    existsb (fun i => Severity_eqb (severity i) Critical) detectedIssues in
  let hasWarnings :=
    existsb (fun i => Severity_eqb (severity i) Warning) detectedIssues in
  let status :=
    if hasCritical then StatusFailed
    else if hasWarnings then StatusWarning
    else StatusPassed in
  let record :=
    {| Check.device := deviceLabel colorScheme device;
       Check.device_id := Device.id device;
       Check.browser := browserType;
       Check.viewport := Some (Device.viewport device);
       Check.is_mobile := Some (Device.is_mobile device);
       Check.colorScheme := colorScheme;
       Check.screenshot := Some screenshotPath;
       (* [status] is written first and [...checkResults] after it:
          the spread's [status] is the one that stays *)
       Check.status := run_status checkResults;
       Check.issues_count := Some (length detectedIssues);
       Check.issues := run_issues checkResults;
       Check.metrics := Some (screenshotSize checkResults);
       Check.error := None |} in
  let count (s : Summary.t) :=
    {| Summary.total := S (Summary.total s);
       Summary.passed :=
         if Status_eqb status StatusPassed
         then S (Summary.passed s) else Summary.passed s;
       Summary.failed :=
         if Status_eqb status StatusPassed then Summary.failed s
         else if Status_eqb status StatusFailed
         then S (Summary.failed s) else Summary.failed s;
       Summary.warnings :=
         if Status_eqb status StatusPassed then Summary.warnings s
         else if Status_eqb status StatusFailed then Summary.warnings s
         else S (Summary.warnings s);
       Summary.blocks_release := Summary.blocks_release s |} in
  {| results := pushCheck record count (results st);
     allIssues := allIssues';
     visited := visited st |}.

(** The body of the innermost loop: [try], [catch] and [finally]. *)
Definition processTuple `{Engine} (world : World) (reportsPath url : string)
           (colorScheme browserType : string) (device : Device)
           (st : LoopState) : EvalResult LoopState :=
  let run := world (visited st) in
  let st := {| results := results st;
               allIssues := allIssues st;
               visited := S (visited st) |} in
  match capture run with
  | Threw message =>
      (* [browser] is null: nothing is closed *)
      Returned (catchError colorScheme browserType device message st)
  | Returned cap =>
      let st' :=
        match saveScreenshot run with
        | Threw message => catchError colorScheme browserType device message st
        | Returned _ =>
            match detectorException run with
            | Some message =>
                catchError colorScheme browserType device message st
            | None =>
                analyseTuple reportsPath url colorScheme browserType device
                             run cap st
            end
        end in
      match close run with
      | Threw message => Threw message     (* leaves [checkPage] *)
      | Returned _ => Returned st'
      end
  end.

(** [for (const x of xs) body], where the body may throw. *)
Definition forOf {S X : Type} (xs : list X) (body : X -> S -> EvalResult S)
           (s : S) : EvalResult S :=
  fold_left
    (fun acc x =>
       match acc with
       | Returned s' => body x s'
       | Threw message => Threw message
       end)
    xs (Returned s).

(** What [checkPage] does after the loops: de-duplication, the
    blocking verdict and the summary for the agent. *)
Definition finishResults (res : CheckResult) (all : list Issue) : CheckResult :=
  let deduplicated := deduplicateIssues all in
  let s := summary res in
  {| url := url res;
     profile := profile res;
     checks := checks res;
     issues := deduplicated;
     summary :=
       {| Summary.total := Summary.total s;
          Summary.passed := Summary.passed s;
          Summary.failed := Summary.failed s;
          Summary.warnings := Summary.warnings s;
          Summary.blocks_release :=
            existsb (fun i => blocks_release (issue i)) deduplicated |};
     action_summary := Some (generateSummaryForAgent deduplicated) |}.

(** The agent after [init()]: the loaded device catalogue and the
    report directory. *)
Record VisualQAAgent : Type := {
  agent_devices : DevicesConfig;
  reportsPath : string
}.

(** The object [results] before the loops. *)
Definition newResults (url profile : string) : CheckResult :=
  {| url := url;
     profile := profile;
     checks := [];
     issues := [];
     summary := {| Summary.total := 0;
                   Summary.passed := 0;
                   Summary.failed := 0;
                   Summary.warnings := 0;
                   Summary.blocks_release := false |};
     action_summary := None |}.

Definition checkPage `{Engine} (this : VisualQAAgent) (world : World)
           (url profile : string) (checkDarkMode : bool)
  : EvalResult CheckResult :=
  match getDevicesForProfile (agent_devices this) profile with
  | Threw message => Threw message
  | Returned (devices, browsers) =>
      let colorSchemes := if checkDarkMode then ["light"; "dark"] else ["light"] in
      let start :=
        {| results := newResults url profile;
           allIssues := [];
           visited := 0 |} in
      match
        forOf colorSchemes
          (fun colorScheme =>
             forOf browsers
               (fun browserType =>
                  forOf devices
                    (processTuple world (reportsPath this) url
                                  colorScheme browserType)))
          start
      with
      | Threw message => Threw message
      | Returned st => Returned (finishResults (results st) (allIssues st))
      end
  end.

(** The tuples of the matrix in the order the loops visit them. *)
Definition matrix (colorSchemes browsers : list string) (devices : list Device)
  : list (string * string * Device) :=
  flat_map
    (fun colorScheme =>
       flat_map
         (fun browserType =>
            map (fun device => (colorScheme, browserType, device)) devices)
         browsers)
    colorSchemes.

(* ================================================================== *)
(** * PixelComparator                                                  *)
(* ================================================================== *)

(** A decoded PNG ([pngjs]): its size and its RGBA bytes. *)
Module Png.
Record t : Type := {
  width : nat;
  height : nat;
  data : list N
}.
End Png.

(** [{ width, height }] *)
Module Dimensions.
Record t : Type := { width : nat; height : nat }.
End Dimensions.

(** The comparator object: the fields its constructor sets. *)
Record PixelComparator : Type := {
  threshold : float;
  includeAA : bool;
  alpha : float;
  diffColor : list nat;
  aaColor : list nat
}.

(** The [options] of the constructor; [None] is an absent field. *)
Record ComparatorOptions : Type := {
  opt_threshold : option float;
  opt_includeAA : option bool;
  opt_alpha : option float;
  opt_diffColor : option (list nat);
  opt_aaColor : option (list nat)
}.

Section Constructor.
Local Open Scope float_scope.
Local Set Warnings "-inexact-float".

(** [x || fallback] on an optional number: [0] and [NaN] are falsy. *)
Definition number_or (x : option float) (fallback : float) : float :=
  match x with
  | Some v => if is_zero v || is_nan v then fallback else v
  | None => fallback
  end.

Definition newPixelComparator (options : ComparatorOptions)
  : PixelComparator :=
  {| threshold := number_or (opt_threshold options) 0.1;
     includeAA := match opt_includeAA options with
                  | Some v => v
                  | None => true
                  end;
     alpha := number_or (opt_alpha options) 0.1;
     diffColor := match opt_diffColor options with
                  | Some c => c
                  | None => [255; 0; 0]%nat
                  end;
     aaColor := match opt_aaColor options with
                | Some c => c
                | None => [255; 255; 0]%nat
                end |}.
End Constructor.

(** The [pixelmatch] package: given the two buffers, the size and the
    options it returns the number of differing pixels and the bytes it
    wrote into the diff buffer. *)
Class PixelMatch : Type := {
  pixelmatch :
    list N -> list N -> nat -> nat -> PixelComparator -> nat * list N
}.

(** The files the comparator reads and writes. *)
Record FileSystem : Type := {
  (** [loadPNG(filePath)]: the decoded image, or [null] when the PNG
      parser reports an error.  The function is asked only about files
      that [fs.createReadStream] can open. *)
  loadPNG : string -> option Png.t;
  (** [fs.ensureDir] followed by [savePNG(png, filePath)]. *)
  savePNG : Png.t -> string -> EvalResult unit
}.

(** What [compare] returns.  The three objects have different fields,
    so each is a constructor of its own. *)
Inductive Comparison : Type :=
| LoadFailed (error : string)
    (* { error, success: false } *)
| SizeMismatch (image1 image2 : Dimensions.t) (message : string)
    (* { success: false, sizeMismatch: true, image1, image2, message } *)
| Compared (match_ : bool) (diffPixels totalPixels : nat)
           (diffPercent : option Q) (dimensions : Dimensions.t)
           (diffImagePath : option string).
    (* { success: true, match, diffPixels, totalPixels, diffPercent,
         dimensions, diffImagePath } *)

(** [parseFloat(x.toFixed(4))] on the exact value: the nearest multiple
    of 1/10000, the larger one on a tie. *)
Definition toFixed4 (x : Q) : Q :=
  Qmake (Qfloor (x * 10000 + (1 # 2))%Q) 10000.

(** [(diffPixels / totalPixels) * 100], read over the rationals; the
    division by zero pixels gives no number ([None]). *)
Definition percentOf (diffPixels totalPixels : nat) : option Q :=
  if Nat.eqb totalPixels 0 then None
  else Some (inject_Z (Z.of_nat diffPixels) / inject_Z (Z.of_nat totalPixels)
             * 100)%Q.

(** [compare(image1Path, image2Path, outputDiffPath)]: the result and
    the files written. *)
Definition compare `{PixelMatch} (this : PixelComparator) (fs : FileSystem)
           (image1Path image2Path : string) (outputDiffPath : option string)
  : EvalResult (Comparison * list (string * Png.t)) :=
  let img1 := loadPNG fs image1Path in
  let img2 := loadPNG fs image2Path in
  match img1, img2 with
  | Some img1, Some img2 =>
      if negb (Nat.eqb (Png.width img1) (Png.width img2))
         || negb (Nat.eqb (Png.height img1) (Png.height img2))
      then
        Returned
          (SizeMismatch
             {| Dimensions.width := Png.width img1;
                Dimensions.height := Png.height img1 |}
             {| Dimensions.width := Png.width img2;
                Dimensions.height := Png.height img2 |}
             ("Размеры изображений различаются: "
              ++ showNat (Png.width img1) ++ "x" ++ showNat (Png.height img1)
              ++ " vs "
              ++ showNat (Png.width img2) ++ "x" ++ showNat (Png.height img2)),
           [])
      else
        let width := Png.width img1 in
        let height := Png.height img1 in
        let '(diffPixels, diffData) :=
          pixelmatch (Png.data img1) (Png.data img2) width height this in
        let diff := {| Png.width := width;
                       Png.height := height;
                       Png.data := diffData |} in
        let totalPixels := width * height in
        let diffPercent := percentOf diffPixels totalPixels in
        let result :=
          Compared (Nat.eqb diffPixels 0) diffPixels totalPixels
                   (option_map toFixed4 diffPercent)
                   {| Dimensions.width := width; Dimensions.height := height |}
                   (if Nat.ltb 0 diffPixels then outputDiffPath else None) in
        match outputDiffPath with
        | Some path =>
            if truthy path && Nat.ltb 0 diffPixels
            then match savePNG fs diff path with
                 | Returned _ => Returned (result, [(path, diff)])
                 | Threw message => Threw message
                 end
            else Returned (result, [])
        | None => Returned (result, [])
        end
  | _, _ => Returned (LoadFailed "Не удалось загрузить изображения", [])
  end.

(* ================================================================== *)
(** * Notions the properties are stated with                           *)
(* ================================================================== *)

(** The exception, if any, that the [try] block of a tuple raises. *)
Definition tupleThrows (run : TupleRun) : option string :=
  match capture run with
  | Threw message => Some message
  | Returned _ =>
      match saveScreenshot run with
      | Threw message => Some message
      | Returned _ => detectorException run
      end
  end.

(** The check record [c] is the record of the tuple [t], visited as
    the [n]-th one. *)
Definition recorded (world : World) (n : nat)
           (t : string * string * Device) (c : Check.t) : Prop :=
  let '(colorScheme, browserType, device) := t in
  Check.colorScheme c = colorScheme /\
  Check.browser c = browserType /\
  Check.device_id c = Device.id device /\
  Check.device c = deviceLabel colorScheme device /\
  match tupleThrows (world n) with
  | Some message =>
      Check.status c = StatusError /\ Check.error c = Some message
  | None =>
      Check.status c <> StatusError /\ Check.error c = None
  end.

(** An issue blocks the release exactly when it is critical. *)
Definition verdictConsistent (i : Issue) : Prop :=
  blocks_release i = Severity_eqb (severity i) Critical.

Definition isError (c : Check.t) : bool :=
  Status_eqb (Check.status c) StatusError.

(** The body of the loops of [checkPage] on a tuple of the matrix. *)
Definition tupleBody `{Engine} (world : World) (dir address : string)
           (t : string * string * Device) : LoopState -> EvalResult LoopState :=
  processTuple world dir address (fst (fst t)) (snd (fst t)) (snd t).

(** The counters of [results.summary] against the check records: how
    the loop of [checkPage] keeps them. *)
Definition summaryCounts (res : CheckResult) : Prop :=
  let s := summary res in
  let errors := countIf isError (checks res) in
  Summary.total s = countIf (fun c => negb (isError c)) (checks res) /\
  Summary.passed s + Summary.failed s + Summary.warnings s
    = Summary.total s + errors /\
  errors <= Summary.failed s.

Section ContrastNotions.
Context `{Engine}.
Local Open Scope float_scope.

(** The contrast ratio of a text element whose two colours parse and
    whose background has [r + g + b > 0]. *)
Definition contrastRatioOf (el : TextElement) : option float :=
  match parseColor (style_color el),
        parseColor (style_backgroundColor el) with
  | Some color, Some bgColor =>
      if 0 <? r bgColor + g bgColor + b bgColor
      then Some (getContrastRatio
                   (getLuminance (r color) (g color) (b color))
                   (getLuminance (r bgColor) (g bgColor) (b bgColor)))
      else None
  | _, _ => None
  end.

(** [1 < ratio < 4.5] *)
Definition lowContrast (el : TextElement) : bool :=
  match contrastRatioOf el with
  | Some ratio => (1 <? ratio) && (ratio <? 4.5)
  | None => false
  end.
End ContrastNotions.

(* ================================================================== *)
(** * Concrete inputs                                                  *)
(* ================================================================== *)

Module Examples.

(** An engine for the examples.  Their colours have channels of at
    most 10, which stay in the linear branch of [linearize], so the
    stand-in for [Math.pow] is never called. *)
Definition rgb (x : float) : RGB := {| r := x; g := x; b := x |}.

#[local] Instance engine : Engine :=
  {| Math_pow := fun x _ => x;
     parseColor := fun color =>
       if String.eqb color "rgb(0, 0, 0)" then Some (rgb 0%float)
       else if String.eqb color "rgb(1, 1, 1)" then Some (rgb 1%float)
       else if String.eqb color "rgb(10, 10, 10)" then Some (rgb 10%float)
       else None |}.

Definition iphone : Device :=
  {| Device.id := "iphone_14_pro";
     Device.name := "iPhone 14 Pro";
     Device.viewport := {| width := 393; height := 852 |};
     Device.is_mobile := true;
     Device.has_touch := true |}.

Definition desktop : Device :=
  {| Device.id := "desktop_1080p";
     Device.name := "Desktop 1080p";
     Device.viewport := {| width := 1920; height := 1080 |};
     Device.is_mobile := false;
     Device.has_touch := false |}.

Definition specOf (d : Device) : DeviceSpec :=
  {| spec_name := Device.name d;
     spec_viewport := Device.viewport d;
     spec_is_mobile := Device.is_mobile d;
     spec_has_touch := Device.has_touch d |}.

Definition config : DevicesConfig :=
  {| device_profiles :=
       [ ("mobile", [ ("iphone_14_pro", specOf iphone) ]);
         ("desktop", [ ("desktop_1080p", specOf desktop) ]) ];
     test_profiles :=
       [ ("standard",
          {| devices := DeviceIds ["iphone_14_pro"; "desktop_1080p"];
             browsers := ["chromium"] |});
         ("mobile_only",
          {| devices := DeviceIds ["iphone_14_pro"];
             browsers := ["chromium"] |});
         ("with_unknown_id",
          {| devices := DeviceIds ["iphone_14_pro"; "pixel_99"];
             browsers := ["chromium"] |}) ] |}.

Definition agent : VisualQAAgent :=
  {| agent_devices := config; reportsPath := "reports" |}.

(** A page on which every script finds nothing. *)
Definition cleanPage : Page :=
  {| hasHorizontalScroll := Returned false;
     overflowingElement := Returned None;
     overflowingElements := Returned [];
     smallTargets := Returned [];
     textElements := Returned [];
     smallTextElements := Returned [];
     imagesWithoutAlt := Returned [] |}.

Definition hero : Element :=
  {| tag := ""; selector := "#hero"; text := "" |}.
Definition logo : Element :=
  {| tag := ""; selector := "#logo"; text := "" |}.
Definition menuLink : Element :=
  {| tag := "a"; selector := ".menu"; text := "Menu" |}.

(** Two images without [alt], one small link. *)
Definition galleryPage : Page :=
  {| hasHorizontalScroll := Returned false;
     overflowingElement := Returned None;
     overflowingElements := Returned [];
     smallTargets := Returned [menuLink];
     textElements := Returned [];
     smallTextElements := Returned [];
     imagesWithoutAlt := Returned [hero; logo] |}.

Definition grey (name : string) (color background : string) : TextElement :=
  {| described := {| tag := "p"; selector := name; text := "" |};
     style_color := color;
     style_backgroundColor := background |}.

(** Seven paragraphs: six of low contrast, one on a background whose
    channels add up to zero. *)
Definition paragraphs : list TextElement :=
  [ grey "#p1" "rgb(10, 10, 10)" "rgb(1, 1, 1)";
    grey "#p2" "rgb(10, 10, 10)" "rgb(0, 0, 0)";
    grey "#p3" "rgb(10, 10, 10)" "rgb(1, 1, 1)";
    grey "#p4" "rgb(1, 1, 1)" "rgb(10, 10, 10)";
    grey "#p5" "rgb(10, 10, 10)" "rgb(1, 1, 1)";
    grey "#p6" "rgb(10, 10, 10)" "rgb(1, 1, 1)";
    grey "#p7" "rgb(10, 10, 10)" "rgb(1, 1, 1)" ].

Definition textPage : Page :=
  {| hasHorizontalScroll := Returned false;
     overflowingElement := Returned None;
     overflowingElements := Returned [];
     smallTargets := Returned [];
     textElements := Returned paragraphs;
     smallTextElements := Returned [];
     imagesWithoutAlt := Returned [] |}.

Definition captured (p : Page) : TupleRun :=
  {| capture := Returned {| screenshot_length := 2048; page := p |};
     now := "1700000000000";
     saveScreenshot := Returned tt;
     detectorException := None;
     close := Returned tt |}.

Definition timedOut : TupleRun :=
  {| capture := Threw "page.goto: Timeout 30000ms exceeded.";
     now := "1700000000000";
     saveScreenshot := Returned tt;
     detectorException := None;
     close := Returned tt |}.

(** The first tuple shows the gallery, the second one times out, all
    later ones show a clean page. *)
Definition world : World :=
  fun n =>
    match n with
    | 0 => captured galleryPage
    | 1 => timedOut
    | _ => captured cleanPage
    end.

(** What [checkPage] returns in this world for the profile
    ["standard"], dark mode included. *)
Definition report : CheckResult :=
  Eval vm_compute in
    match checkPage agent world "https://example.org" "standard" true with
    | Returned res => res
    | Threw _ => newResults "" ""
    end.

(** A pixel matcher for the examples: it counts the pixels (groups of
    four bytes) in which the two buffers differ and marks them. *)
Fixpoint countDiff (img1 img2 : list N) : nat * list N :=
  match img1, img2 with
  | r1 :: g1 :: b1 :: a1 :: rest1, r2 :: g2 :: b2 :: a2 :: rest2 =>
      let '(n, out) := countDiff rest1 rest2 in
      if (N.eqb r1 r2 && N.eqb g1 g2 && N.eqb b1 b2 && N.eqb a1 a2)%bool
      then (n, 255 :: 255 :: 255 :: 255 :: out)%N
      else (S n, 255 :: 0 :: 0 :: 255 :: out)%N
  | _, _ => (0, [])
  end.

#[local] Instance matcher : PixelMatch :=
  {| pixelmatch := fun img1 img2 _ _ _ => countDiff img1 img2 |}.

Definition redPixel : list N := [255; 0; 0; 255]%N.
Definition bluePixel : list N := [0; 0; 255; 255]%N.

Definition small : Png.t :=
  {| Png.width := 2; Png.height := 1; Png.data := redPixel ++ bluePixel |}.
Definition tall : Png.t :=
  {| Png.width := 1; Png.height := 2; Png.data := redPixel ++ bluePixel |}.

Definition files : FileSystem :=
  {| loadPNG := fun filePath =>
       if String.eqb filePath "baseline/a.png" then Some small
       else if String.eqb filePath "current/a.png" then Some tall
       else None;
     savePNG := fun _ _ => Returned tt |}.

Definition comparator : PixelComparator :=
  newPixelComparator
    {| opt_threshold := None; opt_includeAA := None; opt_alpha := None;
       opt_diffColor := None; opt_aaColor := None |}.

(** Issues for the de-duplication examples. *)
Definition overflowOn (deviceName selectorName : string) : Issue :=
  {| id := "overflow-img-x";
     type := Layout;
     severity := Critical;
     title := "t";
     device := deviceName;
     element := Some {| tag := "img"; selector := selectorName; text := "" |};
     fix_action := css_change;
     fix_target := selectorName;
     wcag := None;
     blocks_release := true;
     colorScheme := None |}.

Definition sightings : list Issue :=
  [ overflowOn "iPhone 14 Pro" "#hero";
    overflowOn "Desktop 1080p" "#logo";
    overflowOn "Desktop 1080p" "#hero";
    overflowOn "iPhone 14 Pro" "#hero";
    overflowOn "iPad" "#hero" ].

End Examples.

(* ================================================================== *)
(** * More of IssueDetector                                            *)
(* ================================================================== *)

(** The rank [compareIssues] sorts by: the severity first, and within
    a severity the accessibility issues before the others. *)
Definition priority (i : Issue) : nat :=
  2 * Z.to_nat (severityOrder (severity i))
  + (if isAccessibility i then 0 else 1).

(** The page on which every script that threw has found nothing
    instead. *)
Definition quiet (page : Page) : Page :=
  let orNothing {A} (outcome : EvalResult (list A)) : EvalResult (list A) :=
    match outcome with
    | Returned found => Returned found
    | Threw _ => Returned []
    end in
  {| hasHorizontalScroll :=
       match hasHorizontalScroll page, overflowingElement page with
       | Returned true, Returned _ => Returned true
       | _, _ => Returned false
       end;
     overflowingElement :=
       match overflowingElement page with
       | Returned found => Returned found
       | Threw _ => Returned None
       end;
     overflowingElements := orNothing (overflowingElements page);
     smallTargets := orNothing (smallTargets page);
     textElements := orNothing (textElements page);
     smallTextElements := orNothing (smallTextElements page);
     imagesWithoutAlt := orNothing (imagesWithoutAlt page) |}.

(** No [page.evaluate] of the page throws. *)
Definition neverThrows (page : Page) : Prop :=
  (exists v, hasHorizontalScroll page = Returned v) /\
  (exists v, overflowingElement page = Returned v) /\
  (exists v, overflowingElements page = Returned v) /\
  (exists v, smallTargets page = Returned v) /\
  (exists v, textElements page = Returned v) /\
  (exists v, smallTextElements page = Returned v) /\
  (exists v, imagesWithoutAlt page = Returned v).

(* ================================================================== *)
(** * More of VisualQAAgent                                            *)
(* ================================================================== *)

(** ** [urlToSlug]

    Strings are read as UTF-8.  A character outside [a-zA-Z0-9] is one
    UTF-16 code unit for JavaScript, two when it lies outside the basic
    plane, and each code unit becomes one underscore. *)

Definition isAlnum (c : ascii) : bool :=
  let n := nat_of_ascii c in
  (Nat.leb 48 n && Nat.leb n 57)
  || (Nat.leb 65 n && Nat.leb n 90)
  || (Nat.leb 97 n && Nat.leb n 122).

(** [.replace(/^https?:\/\//, '')] *)
Definition stripScheme (url : string) : string :=
  match url with
  | String "h" (String "t" (String "t" (String "p"
      (String ":" (String "/" (String "/" rest)))))) => rest
  | String "h" (String "t" (String "t" (String "p" (String "s"
      (String ":" (String "/" (String "/" rest))))))) => rest
  | _ => url
  end.

(** [.replace(/[^a-zA-Z0-9]/g, '_')] *)
Fixpoint replaceNonAlnum (s : string) : string :=
  match s with
  | EmptyString => EmptyString
  | String c rest =>
      let n := nat_of_ascii c in
      if isAlnum c then String c (replaceNonAlnum rest)
      else if Nat.ltb n 128 then String "_" (replaceNonAlnum rest)
      else if Nat.ltb n 192 then replaceNonAlnum rest
      else if Nat.ltb n 240 then String "_" (replaceNonAlnum rest)
      else String "_" (String "_" (replaceNonAlnum rest))
  end.

Definition urlToSlug (url : string) : string :=
  substring 0 100 (replaceNonAlnum (stripScheme url)).

(** The characters of a slug: [a-zA-Z0-9] and the underscore. *)
Definition isSlugChar (c : ascii) : bool :=
  isAlnum c || Ascii.eqb c "_".

(** ** [validateUrl] ([utils/helpers.js]) *)

(** [hay.includes(needle)] on strings. *)
Fixpoint includesString (needle hay : string) : bool :=
  if prefix needle hay then true
  else match hay with
       | EmptyString => false
       | String _ rest => includesString needle rest
       end.

(** [parseProtocol] stands for [new URL(url).protocol]: the constructor
    of the runtime throws on what it cannot parse. *)
Definition validateUrl (parseProtocol : string -> EvalResult string)
           (url : string) : EvalResult bool :=
  if negb (truthy url) then Threw "URL не может быть пустым"
  else
    let attempt :=
      match parseProtocol url with
      | Returned protocol =>
          if String.eqb protocol "http:" || String.eqb protocol "https:"
          then Returned true
          else Threw ("Недопустимый протокол: " ++ protocol
                      ++ ". Разрешены только http и https")
      | Threw message => Threw message
      end in
    match attempt with
    | Returned v => Returned v
    | Threw message =>
        if includesString "Недопустимый протокол" message
        then Threw message
        else Threw ("Невалидный URL: " ++ url)
    end.

(** ** [captureScreenshot] *)

(** The calls [captureScreenshot] makes on the browser library. *)
Inductive BrowserCall : Type :=
| CallLaunch | CallNewContext | CallNewPage | CallGoto
| CallWaitForTimeout | CallScreenshot | CallTitle | CallClose.

(** How each of these calls ends during one capture. *)
Record BrowserSession : Type := {
  on_launch : EvalResult unit;
  on_newContext : EvalResult unit;
  on_newPage : EvalResult unit;
  on_goto : EvalResult unit;
  on_waitForTimeout : EvalResult unit;
  on_screenshot : EvalResult nat;      (* the length of the buffer *)
  on_title : EvalResult string;
  on_close : EvalResult unit;
  openPage : Page
}.

(** [{ screenshot, metadata, page, browser }] *)
Record CaptureResult : Type := {
  result_screenshot : nat;
  result_metadata : Metadata;
  result_page : option Page;           (* null unless keepOpen *)
  result_browser : bool                (* whether [browser] is not null *)
}.

(** The [try] block of [captureScreenshot]: its outcome and its calls. *)
Definition captureBody (session : BrowserSession) (url : string)
           (device : Device) (browserType : string) (keepOpen : bool)
  : EvalResult CaptureResult * list BrowserCall :=
  match on_goto session with
  | Threw message => (Threw message, [CallGoto])
  | Returned _ =>
  match on_waitForTimeout session with
  | Threw message => (Threw message, [CallGoto; CallWaitForTimeout])
  | Returned _ =>
  match on_screenshot session with
  | Threw message =>
      (Threw message, [CallGoto; CallWaitForTimeout; CallScreenshot])
  | Returned screenshot =>
  match on_title session with
  | Threw message =>
      (Threw message,
       [CallGoto; CallWaitForTimeout; CallScreenshot; CallTitle])
  | Returned _ =>
      (Returned
         {| result_screenshot := screenshot;
            result_metadata :=
              {| meta_url := url;
                 meta_device := Device.id device;
                 meta_browser := browserType;
                 meta_viewport := Device.viewport device |};
            result_page := if keepOpen then Some (openPage session) else None;
            result_browser := keepOpen |},
       [CallGoto; CallWaitForTimeout; CallScreenshot; CallTitle])
  end end end end.

(** [captureScreenshot(url, device, browserType, keepOpen, colorScheme)]:
    what it resolves to and the calls it made, in order. *)
Definition captureScreenshot (parseProtocol : string -> EvalResult string)
           (session : BrowserSession) (url : string) (device : Device)
           (browserType : string) (keepOpen : bool)
  : EvalResult CaptureResult * list BrowserCall :=
  match validateUrl parseProtocol url with
  | Threw message => (Threw message, [])
  | Returned _ =>
  match on_launch session with
  | Threw message => (Threw message, [CallLaunch])
  | Returned _ =>
  match on_newContext session with
  | Threw message => (Threw message, [CallLaunch; CallNewContext])
  | Returned _ =>
  match on_newPage session with
  | Threw message => (Threw message, [CallLaunch; CallNewContext; CallNewPage])
  | Returned _ =>
      let '(outcome, calls) :=
        captureBody session url device browserType keepOpen in
      let calls := [CallLaunch; CallNewContext; CallNewPage] ++ calls in
      (* finally *)
      if negb keepOpen then
        match on_close session with
        | Threw message => (Threw message, calls ++ [CallClose])
        | Returned _ => (outcome, calls ++ [CallClose])
        end
      else (outcome, calls)
  end end end end.

(** ** [saveBaseline] *)

(** A loop whose body may throw, with the state as the throw left it. *)
Fixpoint forOfKeeping {S X : Type} (xs : list X)
         (body : X -> S -> S * option string) (s : S) : S * option string :=
  match xs with
  | [] => (s, None)
  | x :: rest =>
      match body x s with
      | (s', None) => forOfKeeping rest body s'
      | (s', Some message) => (s', Some message)
      end
  end.

(** What happens around one tuple of [saveBaseline]. *)
Record BaselineRun : Type := {
  (** [captureScreenshot(url, device, browserType)] *)
  shot : EvalResult nat;
  (** [fs.writeFile] of the screenshot *)
  writePng : EvalResult unit;
  (** [fs.writeJSON] of the metadata *)
  writeMeta : EvalResult unit
}.

(** The state of the loops of [saveBaseline]: the names of the files
    written into the baseline directory, and the tuples visited. *)
Definition baselineTuple (world : nat -> BaselineRun) (browserType : string)
           (device : Device) (st : list string * nat)
  : (list string * nat) * option string :=
  let '(written, seen) := st in
  let run := world seen in
  match shot run with
  | Threw message => ((written, S seen), Some message)
  | Returned _ =>
      let filename := (Device.id device ++ "_" ++ browserType ++ ".png")%string in
      match writePng run with
      | Threw message => ((written, S seen), Some message)
      | Returned _ =>
          let written := push written filename in
          let metaFilename :=
            (Device.id device ++ "_" ++ browserType ++ ".json")%string in
          match writeMeta run with
          | Threw message => ((written, S seen), Some message)
          | Returned _ => ((push written metaFilename, S seen), None)
          end
      end
  end.

(** [saveBaseline(url, { profile })]: the files written into the
    baseline directory, and the path it returns or the error it throws. *)
Definition saveBaseline (cfg : DevicesConfig) (baselinesPath : string)
           (pathJoin : string -> string -> string)
           (ensureDir : EvalResult unit) (world : nat -> BaselineRun)
           (url profileName : string) : list string * EvalResult string :=
  match getDevicesForProfile cfg profileName with
  | Threw message => ([], Threw message)
  | Returned (devs, browserTypes) =>
      let urlSlug := urlToSlug url in
      let baselinePath := pathJoin baselinesPath urlSlug in
      match ensureDir with
      | Threw message => ([], Threw message)
      | Returned _ =>
          match
            forOfKeeping browserTypes
              (fun browserType =>
                 forOfKeeping devs (baselineTuple world browserType))
              ([], 0)
          with
          | ((written, _), None) => (written, Returned baselinePath)
          | ((written, _), Some message) => (written, Threw message)
          end
      end
  end.

(** The file names a complete baseline consists of, in the order of
    writing. *)
Definition baselineFiles (browserTypes : list string) (devs : list Device)
  : list string :=
  flat_map
    (fun browserType =>
       flat_map
         (fun device =>
            [ (Device.id device ++ "_" ++ browserType ++ ".png")%string;
              (Device.id device ++ "_" ++ browserType ++ ".json")%string ])
         devs)
    browserTypes.

(* ================================================================== *)
(** * More of PixelComparator                                          *)
(* ================================================================== *)

(** ** [analyzeResults] *)

Inductive AnalysisSeverity : Type :=
| SeverityNone | SeverityWarning | SeverityCritical.

(** The [thresholds] argument; [None] is an absent field, which takes
    the default. *)
Record Thresholds : Type := {
  acceptablePercent : option Q;
  warningPercent : option Q
}.

Record Analysis : Type := {
  analysis_status : Status;
  analysis_severity : AnalysisSeverity;
  analysis_message : string;
  requiresReview : bool                (* absent when false *)
}.

(** [x < y] on numbers. *)
Definition Qltb (x y : Q) : bool := negb (Qle_bool y x).

(** [showNumber] is the conversion of a number to a string inside a
    template literal.  A [diffPercent] that is no rational ([None]) is
    what the division by zero pixels gave: [NaN] for [0 / 0], and
    [Infinity] otherwise; neither is below a threshold. *)
Definition analyzeResults (showNumber : Q -> string) (comparison : Comparison)
           (thresholds : Thresholds) : Analysis :=
  let acceptable :=
    match acceptablePercent thresholds with
    | Some v => v
    | None => (1 # 10)%Q
    end in
  let warning :=
    match warningPercent thresholds with
    | Some v => v
    | None => 1%Q
    end in
  let failure (error : option string) :=
    {| analysis_status := StatusError;
       analysis_severity := SeverityCritical;
       analysis_message :=
         match error with
         | Some e => or_else e "Ошибка сравнения"
         | None => "Ошибка сравнения"
         end;
       requiresReview := false |} in
  match comparison with
  | LoadFailed error => failure (Some error)
  | SizeMismatch _ _ _ => failure None
  | Compared true _ _ _ _ _ =>
      {| analysis_status := StatusPassed;
         analysis_severity := SeverityNone;
         analysis_message := "Изображения идентичны";
         requiresReview := false |}
  | Compared false diffPixels _ diffPercent _ _ =>
      let shown :=
        match diffPercent with
        | Some d => showNumber d
        | None => if Nat.eqb diffPixels 0 then "NaN" else "Infinity"
        end in
      let below (limit : Q) :=
        match diffPercent with
        | Some d => Qltb d limit
        | None => false
        end in
      if below acceptable then
        {| analysis_status := StatusPassed;
           analysis_severity := SeverityNone;
           analysis_message :=
             "Минимальные различия: " ++ shown ++ "% (допустимо < "
             ++ showNumber acceptable ++ "%)";
           requiresReview := false |}
      else if below warning then
        {| analysis_status := StatusWarning;
           analysis_severity := SeverityWarning;
           analysis_message := "Незначительные различия: " ++ shown ++ "%";
           requiresReview := true |}
      else
        {| analysis_status := StatusFailed;
           analysis_severity := SeverityCritical;
           analysis_message := "Значительные различия: " ++ shown ++ "%";
           requiresReview := true |}
  end.

(** How bad a status is, for comparing two of them. *)
Definition badness (s : Status) : nat :=
  match s with
  | StatusPassed => 0
  | StatusWarning => 1
  | StatusFailed => 2
  | StatusError => 3
  end.

(** ** [compareDirectories] *)

Definition toLowerAscii (c : ascii) : ascii :=
  let n := nat_of_ascii c in
  if Nat.leb 65 n && Nat.leb n 90 then ascii_of_nat (n + 32) else c.

(** [f.toLowerCase().endsWith('.png')] *)
Definition endsWithPng (f : string) : bool :=
  match rev (list_ascii_of_string f) with
  | c4 :: c3 :: c2 :: c1 :: _ =>
      Ascii.eqb c1 "."
      && Ascii.eqb (toLowerAscii c2) "p"
      && Ascii.eqb (toLowerAscii c3) "n"
      && Ascii.eqb (toLowerAscii c4) "g"
  | _ => false
  end.

(** The directories the comparator walks: [fs.readdir],
    [fs.pathExists], [path.join], whether [fs.createReadStream] can
    open a path, and the images. *)
Record Directories : Type := {
  readdir : string -> EvalResult (list string);
  pathExists : string -> bool;
  readable : string -> bool;
  path_join : string -> string -> string;
  images : FileSystem
}.

(** How a call of [compareDirectories] ends.  [loadPNG] listens for
    ['error'] on the PNG parser only.  When [fs.createReadStream]
    cannot open the file, the ['error'] event of the read stream has no
    listener: Node throws it, the promise of [loadPNG] never settles and
    the process ends. *)
Inductive Outcome (A : Type) : Type :=
| Dies : Outcome A
| Settles : EvalResult A -> Outcome A.
Arguments Dies {A}.

(** [for (const x of xs) body], where the body may throw or end the
    process. *)
Fixpoint forOfSettling {S X : Type} (xs : list X) (body : X -> S -> Outcome S)
         (s : S) : Outcome S :=
  match xs with
  | [] => Settles (Returned s)
  | x :: rest =>
      match body x s with
      | Settles (Returned s') => forOfSettling rest body s'
      | Settles (Threw message) => Settles (Threw message)
      | Dies => Dies
      end
  end.

(** [getPNGFiles(dir)] *)
Definition getPNGFiles (dirs : Directories) (dir : string) : list string :=
  match readdir dirs dir with
  | Returned files => filter endsWithPng files
  | Threw _ => []
  end.

Inductive FileStatus : Type :=
| FileNew | FileMissing | FileMatched | FileDifferent | FileError.

Definition FileStatus_eqb (a b : FileStatus) : bool :=
  match a, b with
  | FileNew, FileNew | FileMissing, FileMissing | FileMatched, FileMatched
  | FileDifferent, FileDifferent | FileError, FileError => true
  | _, _ => false
  end.

(** An element of [results.comparisons] (the fixed message texts of the
    new and missing entries left out). *)
Record FileComparison : Type := {
  file : string;
  file_status : FileStatus;
  file_diffPercent : option (option Q);  (* absent, or the number *)
  file_diffPixels : option nat;
  file_diffImage : option string;
  file_error : option string
}.

Module DirSummary.
Record t : Type := {
  total : nat;
  matched : nat;
  different : nat;
  missing : nat;
  new : nat
}.
End DirSummary.

(** [results] of [compareDirectories], with the diff files written. *)
Record DirectoryResults : Type := {
  comparisons : list FileComparison;
  dir_summary : DirSummary.t;
  diffsWritten : list (string * Png.t)
}.

Definition entry (f : string) (s : FileStatus) : FileComparison :=
  {| file := f; file_status := s; file_diffPercent := None;
     file_diffPixels := None; file_diffImage := None; file_error := None |}.

(** The body of the loop over [allFiles]. *)
Definition compareFile `{PixelMatch} (this : PixelComparator)
           (dirs : Directories) (baselineDir currentDir outputDir : string)
           (f : string) (res : DirectoryResults) : Outcome DirectoryResults :=
  let baselinePath := path_join dirs baselineDir f in
  let currentPath := path_join dirs currentDir f in
  let diffPath := path_join dirs outputDir ("diff_" ++ f) in
  let s := dir_summary res in
  let counted (matched different missing new : nat) :=
    {| DirSummary.total := S (DirSummary.total s);
       DirSummary.matched := matched + DirSummary.matched s;
       DirSummary.different := different + DirSummary.different s;
       DirSummary.missing := missing + DirSummary.missing s;
       DirSummary.new := new + DirSummary.new s |} in
  let hasBaseline := pathExists dirs baselinePath in
  let hasCurrent := pathExists dirs currentPath in
  if negb hasBaseline && hasCurrent then
    Settles
      (Returned {| comparisons := push (comparisons res) (entry f FileNew);
                   dir_summary := counted 0 0 0 1;
                   diffsWritten := diffsWritten res |})
  else if hasBaseline && negb hasCurrent then
    Settles
      (Returned {| comparisons := push (comparisons res) (entry f FileMissing);
                   dir_summary := counted 0 0 1 0;
                   diffsWritten := diffsWritten res |})
  else if negb (readable dirs baselinePath) then Dies   (* loadPNG(image1Path) *)
  else if negb (readable dirs currentPath) then Dies    (* loadPNG(image2Path) *)
  else
    Settles
    match compare this (images dirs) baselinePath currentPath (Some diffPath) with
    | Threw message => Threw message
    | Returned (comparison, written) =>
        let written := (diffsWritten res ++ written)%list in
        match comparison with
        | Compared true _ _ _ _ _ =>
            Returned
              {| comparisons :=
                   push (comparisons res)
                        {| file := f; file_status := FileMatched;
                           file_diffPercent := Some (Some 0%Q);
                           file_diffPixels := None;
                           file_diffImage := None; file_error := None |};
                 dir_summary := counted 1 0 0 0;
                 diffsWritten := written |}
        | Compared false diffPixels _ diffPercent _ _ =>
            Returned
              {| comparisons :=
                   push (comparisons res)
                        {| file := f; file_status := FileDifferent;
                           file_diffPercent := Some diffPercent;
                           file_diffPixels := Some diffPixels;
                           file_diffImage := Some diffPath;
                           file_error := None |};
                 dir_summary := counted 0 1 0 0;
                 diffsWritten := written |}
        | LoadFailed error =>
            Returned
              {| comparisons :=
                   push (comparisons res)
                        {| file := f; file_status := FileError;
                           file_diffPercent := None; file_diffPixels := None;
                           file_diffImage := None;
                           file_error :=
                             if truthy error then Some error else None |};
                 dir_summary := counted 0 0 0 0;
                 diffsWritten := written |}
        | SizeMismatch _ _ message =>
            Returned
              {| comparisons :=
                   push (comparisons res)
                        {| file := f; file_status := FileError;
                           file_diffPercent := None; file_diffPixels := None;
                           file_diffImage := None;
                           file_error := Some message |};
                 dir_summary := counted 0 0 0 0;
                 diffsWritten := written |}
        end
    end.

(** [new Set([...baselineFiles, ...currentFiles])], in iteration order. *)
Definition allFiles (dirs : Directories) (baselineDir currentDir : string)
  : list string :=
  firstBy String.eqb []
          (getPNGFiles dirs baselineDir ++ getPNGFiles dirs currentDir).

Definition compareDirectories `{PixelMatch} (this : PixelComparator)
           (dirs : Directories) (baselineDir currentDir outputDir : string)
  : Outcome DirectoryResults :=
  forOfSettling (allFiles dirs baselineDir currentDir)
                (compareFile this dirs baselineDir currentDir outputDir)
        {| comparisons := [];
           dir_summary := {| DirSummary.total := 0; DirSummary.matched := 0;
                             DirSummary.different := 0; DirSummary.missing := 0;
                             DirSummary.new := 0 |};
           diffsWritten := [] |}.

(* ================================================================== *)
(** * The callers of [checkPage]                                       *)
(* ================================================================== *)

(** The [status] of the machine-readable response of the
    [visual_qa_check] tool. *)
Definition machineStatus (s : Summary.t) : string :=
  if Summary.blocks_release s then "blocked"
  else if Nat.ltb 0 (Summary.failed s) then "failed"
  else if Nat.ltb 0 (Summary.warnings s) then "warning"
  else "passed".

(** The exit code of the [check] command of the CLI, when no step
    throws: [results.summary.failed > 0 ? 1 : 0]. *)
Definition exitCode (s : Summary.t) : nat :=
  if Nat.ltb 0 (Summary.failed s) then 1 else 0.

(** [HTMLReporter.generate]: the issues attached to a check record,
    [check.detectedIssues]. *)
Definition detectedIssuesOf (res : CheckResult) (check : Check.t)
  : list DedupedIssue :=
  filter
    (fun i =>
       match affected_devices i with
       | Some ds => includes (Check.device check) ds
       | None => false
       end
       || String.eqb (device (issue i)) (Check.device check))
    (issues res).

(** ** The batch check ([visual_qa_check_batch]) *)

Inductive PageResult : Type :=
| PageSuccess (pageUrl : string) (result : CheckResult)
| PageError (pageUrl : string) (error : string).

Definition isSuccess (p : PageResult) : bool :=
  match p with
  | PageSuccess _ _ => true
  | PageError _ _ => false
  end.

Record BatchSummary : Type := {
  total_checks : nat;
  batch_passed : nat;
  batch_failed : nat;
  batch_warnings : nat;
  batch_total_issues : nat;
  batch_blocks_release : bool
}.

Record Aggregated : Type := {
  total_urls : nat;
  successful : nat;
  failedUrls : nat;
  batch_summary : BatchSummary;
  pages : list PageResult
}.

(** The loop that sums the statistics of the pages. *)
Definition addPage (acc : BatchSummary) (p : PageResult) : BatchSummary :=
  match p with
  | PageSuccess _ result =>
      let s := summary result in
      {| total_checks := total_checks acc + Summary.total s;
         batch_passed := batch_passed acc + Summary.passed s;
         batch_failed := batch_failed acc + Summary.failed s;
         batch_warnings := batch_warnings acc + Summary.warnings s;
         batch_total_issues := batch_total_issues acc + length (issues result);
         batch_blocks_release :=
           if Summary.blocks_release s then true else batch_blocks_release acc |}
  | PageError _ _ => acc
  end.

Definition aggregate (batchResults : list PageResult) : Aggregated :=
  {| total_urls := length batchResults;
     successful := countIf isSuccess batchResults;
     failedUrls := countIf (fun p => negb (isSuccess p)) batchResults;
     batch_summary :=
       fold_left addPage batchResults
         {| total_checks := 0; batch_passed := 0; batch_failed := 0;
            batch_warnings := 0; batch_total_issues := 0;
            batch_blocks_release := false |};
     pages := batchResults |}.

(** [urlsToCheck.map((url, index) => ...)], each call with the world it
    runs in; the calls share nothing but the agent, which they only
    read, so the limit on how many run at once does not show in the
    results. *)
Fixpoint checkEach `{Engine} (this : VisualQAAgent) (worlds : nat -> World)
         (profileName : string) (checkDarkMode : bool) (index : nat)
         (urls : list string) : list PageResult :=
  match urls with
  | [] => []
  | u :: rest =>
      match checkPage this (worlds index) u profileName checkDarkMode with
      | Returned result => PageSuccess u result
      | Threw message => PageError u message
      end :: checkEach this worlds profileName checkDarkMode (S index) rest
  end.

Definition checkBatch `{Engine} (this : VisualQAAgent) (worlds : nat -> World)
           (urls : list string) (profileName : string) (checkDarkMode : bool)
  : Aggregated :=
  let urlsToCheck := slice0 10 urls in
  aggregate (checkEach this worlds profileName checkDarkMode 0 urlsToCheck).

(** ** [pluralize] ([utils/helpers.js], [HTMLReporter]) *)

(** [n % m] of JavaScript on integers: the sign of the dividend. *)
Definition pluralize {A} (n : Z) (one few many : A) : A :=
  let mod10 := Z.rem n 10 in
  let mod100 := Z.rem n 100 in
  if (mod10 =? 1)%Z && negb (mod100 =? 11)%Z then one
  else if (2 <=? mod10)%Z && (mod10 <=? 4)%Z
          && ((mod100 <? 10)%Z || (20 <=? mod100)%Z) then few
  else many.

(** ** Notions for the properties of [checkPage] *)

(** The browser of the tuple was launched and closing it threw. *)
Definition closeFails (run : TupleRun) : bool :=
  match capture run, close run with
  | Returned _, Threw _ => true
  | _, _ => false
  end.

(** What an issue found on the device [dev] carries. *)
Definition foundOn (dev : Device) (i : Issue) : Prop :=
  device i = Device.name dev /\
  severity i <> Info /\
  blocks_release i = Severity_eqb (severity i) Critical /\
  (type i = Layout \/ type i = Accessibility \/ type i = Typography).

Definition isCritical (i : Issue) : bool :=
  Severity_eqb (severity i) Critical.

(** [issues_count || 0] *)
Definition issuesCounted (c : Check.t) : nat :=
  match Check.issues_count c with
  | Some n => n
  | None => 0
  end.

(** The two shapes of a check record: of a tuple that was analysed,
    and of a tuple whose processing threw. *)
Definition recordShape (c : Check.t) : Prop :=
  (Check.status c = StatusPassed /\ Check.error c = None /\
   Check.issues_count c <> None)
  \/ (Check.status c = StatusError /\ Check.screenshot c = None /\
      Check.issues_count c = None).

(** What the loops of [checkPage] keep true of their state, for the
    devices [devs] of the profile. *)
Definition loopFacts (devs : list Device) (st : LoopState) : Prop :=
  Forall recordShape (checks (results st)) /\
  Forall (fun c => exists d, In d devs /\
                             Check.device c = deviceLabel (Check.colorScheme c) d)
         (checks (results st)) /\
  list_sum (map issuesCounted (checks (results st))) = length (allIssues st) /\
  Forall (fun i => exists d, In d devs /\ foundOn d i) (allIssues st) /\
  (existsb isCritical (allIssues st) = true ->
   0 < Summary.failed (summary (results st))) /\
  (allIssues st <> [] ->
   0 < Summary.failed (summary (results st))
       + Summary.warnings (summary (results st))).

(** A record of a tuple that was analysed and on which nothing was
    detected: [issues_count] is present and 0. *)
Definition cleanRecord (c : Check.t) : bool :=
  match Check.issues_count c with
  | Some 0 => true
  | _ => false
  end.

(** The two files [saveBaseline] writes for one tuple. *)
Definition tupleFiles (browserType : string) (device : Device) : list string :=
  [ (Device.id device ++ "_" ++ browserType ++ ".png")%string;
    (Device.id device ++ "_" ++ browserType ++ ".json")%string ].

(** ** More examples *)

Module MoreExamples.

Definition twoReds : Png.t :=
  {| Png.width := 2; Png.height := 1;
     Png.data := Examples.redPixel ++ Examples.redPixel |}.

(** A baseline directory with [a.png], [b.png] and [old.png], a
    current one with [a.png] (changed), [b.png] (of another size) and
    [fresh.PNG]; [notes.txt] is no image. *)
Definition pngs : FileSystem :=
  {| loadPNG := fun filePath =>
       if String.eqb filePath "baseline/a.png" then Some Examples.small
       else if String.eqb filePath "current/a.png" then Some twoReds
       else if String.eqb filePath "baseline/b.png" then Some Examples.small
       else if String.eqb filePath "current/b.png" then Some Examples.tall
       else None;
     savePNG := fun _ _ => Returned tt |}.

Definition dirs : Directories :=
  {| readdir := fun dir =>
       if String.eqb dir "baseline"
       then Returned ["a.png"; "b.png"; "notes.txt"; "old.png"]
       else if String.eqb dir "current"
       then Returned ["fresh.PNG"; "a.png"; "b.png"]
       else Threw "ENOENT";
     pathExists := fun p =>
       existsb (String.eqb p)
               ["baseline/a.png"; "baseline/b.png"; "baseline/old.png";
                "current/a.png"; "current/b.png"; "current/fresh.PNG"];
     readable := fun p =>
       existsb (String.eqb p)
               ["baseline/a.png"; "baseline/b.png"; "baseline/old.png";
                "current/a.png"; "current/b.png"; "current/fresh.PNG"];
     path_join := fun a b => (a ++ "/" ++ b)%string;
     images := pngs |}.

(** The same directories, where [baseline/b.png] exists and cannot be
    opened (no read permission). *)
Definition locked : Directories :=
  {| readdir := readdir dirs;
     pathExists := pathExists dirs;
     readable := fun p => negb (String.eqb p "baseline/b.png") && readable dirs p;
     path_join := path_join dirs;
     images := pngs |}.

(** What [compare] returns for the changed [a.png], and the diff image
    it writes. *)
Definition changed : Comparison :=
  Compared false 1 2 (Some (toFixed4 (inject_Z 1 / inject_Z 2 * 100)%Q))
           {| Dimensions.width := 2; Dimensions.height := 1 |}
           (Some "diff/a.png").

Definition changedDiff : list (string * Png.t) :=
  [("diff/a.png",
    {| Png.width := 2; Png.height := 1;
       Png.data := [255; 255; 255; 255; 255; 0; 0; 255]%N |})].

Definition shown : Q -> string := fun _ => "50".

Definition defaults : Thresholds :=
  {| acceptablePercent := None; warningPercent := None |}.

Definition join (a b : string) : string := (a ++ "/" ++ b)%string.

(** A disk that is full when the metadata of the second tuple is
    written. *)
Definition fullDisk : nat -> BaselineRun :=
  fun n =>
    {| shot := Returned 2048;
       writePng := Returned tt;
       writeMeta := if Nat.eqb n 1 then Threw "ENOSPC" else Returned tt |}.

End MoreExamples.

(** ** Notions for the properties of [compareDirectories] *)

Definition hasStatus (s : FileStatus) (c : FileComparison) : bool :=
  FileStatus_eqb (file_status c) s.

(** The diff images the entries of [comparisons] point to. *)
Definition diffImages (cs : list FileComparison) : list string :=
  flat_map (fun c => match file_diffImage c with
                     | Some p => [p]
                     | None => []
                     end) cs.

(** What the loop of [compareDirectories] keeps true of [results]. *)
Definition directoryCounts (res : DirectoryResults) : Prop :=
  let s := dir_summary res in
  let cs := comparisons res in
  DirSummary.total s = length cs /\
  DirSummary.matched s = countIf (hasStatus FileMatched) cs /\
  DirSummary.different s = countIf (hasStatus FileDifferent) cs /\
  DirSummary.missing s = countIf (hasStatus FileMissing) cs /\
  DirSummary.new s = countIf (hasStatus FileNew) cs /\
  DirSummary.total s
    = DirSummary.matched s + DirSummary.different s + DirSummary.missing s
      + DirSummary.new s + countIf (hasStatus FileError) cs /\
  map fst (diffsWritten res) = diffImages cs.

(** ** Notions for the properties of the batch check *)

Definition pageUrl (p : PageResult) : string :=
  match p with
  | PageSuccess u _ => u
  | PageError u _ => u
  end.

(** What a page adds to a counter of the batch: the counter of its
    summary when the page was checked, nothing when the check threw. *)
Definition pageCount (counter : CheckResult -> nat) (p : PageResult) : nat :=
  match p with
  | PageSuccess _ result => counter result
  | PageError _ _ => 0
  end.

Definition pageBlocks (p : PageResult) : bool :=
  match p with
  | PageSuccess _ result => Summary.blocks_release (summary result)
  | PageError _ _ => false
  end.

(** The entry of the batch for one address. *)
Definition pageOf `{Engine} (this : VisualQAAgent) (world : World)
           (profileName : string) (checkDarkMode : bool) (u : string)
  : PageResult :=
  match checkPage this world u profileName checkDarkMode with
  | Returned result => PageSuccess u result
  | Threw message => PageError u message
  end.

(** ** [copyImageRegion] and [createSideBySide]

    The [data] of an image is a [Buffer] of four bytes per pixel, row
    by row. *)

(** The conversion of a number to a signed 32-bit integer, as the bit
    operators of JavaScript do it. *)
Definition toInt32 (z : Z) : Z :=
  ((z + 2147483648) mod 4294967296 - 2147483648)%Z.
(** [z << 2] *)
Definition shl2 (z : Z) : Z := toInt32 (z * 4).

(** The list with its [i]-th element replaced; unchanged when there is
    no such element. *)
Fixpoint setNth (i : nat) (v : N) (l : list N) : list N :=
  match l, i with
  | [], _ => []
  | _ :: rest, 0 => v :: rest
  | b :: rest, S i' => b :: setNth i' v rest
  end.

(** [idx] is an index of the buffer. *)
Definition inBuffer (idx : Z) (data : list N) : bool :=
  ((0 <=? idx) && (idx <? Z.of_nat (length data)))%Z.

(** [data[idx] = v] on a [Buffer]: the value is stored modulo 256, and a
    write outside the buffer does nothing. *)
Definition writeByte (idx : Z) (v : N) (data : list N) : list N :=
  if inBuffer idx data then setNth (Z.to_nat idx) (v mod 256)%N data else data.

(** [data[idx]] on a [Buffer], as a value to store into another one:
    outside the buffer it is [undefined], which is stored as 0. *)
Definition readByte (idx : Z) (data : list N) : N :=
  if inBuffer idx data then nth (Z.to_nat idx) data 0%N else 0%N.

(** The body of the loops of [copyImageRegion]. *)
Definition copyPixel (src dest : Png.t) (destX destY y x : nat)
           (data : list N) : list N :=
  let srcIdx := shl2 (Z.of_nat (Png.width src * y + x)) in
  let destIdx := shl2 (Z.of_nat (Png.width dest * (destY + y) + (destX + x))) in
  let data := writeByte destIdx (readByte srcIdx (Png.data src)) data in
  let data := writeByte (destIdx + 1) (readByte (srcIdx + 1) (Png.data src)) data in
  let data := writeByte (destIdx + 2) (readByte (srcIdx + 2) (Png.data src)) data in
  writeByte (destIdx + 3) (readByte (srcIdx + 3) (Png.data src)) data.

(** [copyImageRegion(src, dest, destX, destY)]: the image [dest] after
    the call. *)
Definition copyImageRegion (src dest : Png.t) (destX destY : nat) : Png.t :=
  {| Png.width := Png.width dest;
     Png.height := Png.height dest;
     Png.data :=
       fold_left
         (fun data y =>
            fold_left (fun data x => copyPixel src dest destX destY y x data)
                      (seq 0 (Png.width src)) data)
         (seq 0 (Png.height src)) (Png.data dest) |}.

(** The channel [c] (0 to 3: red, green, blue, alpha) of the pixel in
    column [x] and row [y]. *)
Definition channel (img : Png.t) (x y c : nat) : N :=
  readByte (Z.of_nat (4 * (Png.width img * y + x) + c)) (Png.data img).


(** The body of the loops that fill the background. *)
Definition greyPixel (totalWidth y x : nat) (data : list N) : list N :=
  let idx := shl2 (Z.of_nat (totalWidth * y + x)) in
  let data := writeByte idx 128 data in
  let data := writeByte (idx + 1) 128 data in
  let data := writeByte (idx + 2) 128 data in
  writeByte (idx + 3) 255 data.

(** The two loops of [createSideBySide] that fill [combined] with grey. *)
Definition fillGrey (totalWidth height : nat) (img : Png.t) : Png.t :=
  {| Png.width := Png.width img;
     Png.height := Png.height img;
     Png.data :=
       fold_left
         (fun data y =>
            fold_left (fun data x => greyPixel totalWidth y x data)
                      (seq 0 totalWidth) data)
         (seq 0 height) (Png.data img) |}.

(** [diffImg]: the diff image, when a path is given, the file exists
    and it can be loaded. *)
Definition diffPanel (fs : FileSystem) (fileExists : string -> bool)
           (diffPath : option string) : option Png.t :=
  match diffPath with
  | Some p => if truthy p && fileExists p then loadPNG fs p else None
  | None => None
  end.

(** [createSideBySide(image1Path, image2Path, diffPath, outputPath)]:
    what it resolves to and the file it writes.  [newPNG] is
    [new PNG({ width, height })] of the [pngjs] package, [writePNG] is
    [savePNG]. *)
Definition createSideBySide (newPNG : nat -> nat -> Png.t) (fs : FileSystem)
           (fileExists : string -> bool)
           (writePNG : Png.t -> string -> EvalResult unit)
           (image1Path image2Path : string) (diffPath : option string)
           (outputPath : string)
  : EvalResult (option string) * list (string * Png.t) :=
  match loadPNG fs image1Path, loadPNG fs image2Path with
  | Some img1, Some img2 =>
      let diffImg := diffPanel fs fileExists diffPath in
      let panelCount := match diffImg with Some _ => 3 | None => 2 end in
      let width := Png.width img1 in
      let height := Png.height img1 in
      let gap := 10 in
      let totalWidth := width * panelCount + gap * (panelCount - 1) in
      let combined := newPNG totalWidth height in
      let combined := fillGrey totalWidth height combined in
      let combined := copyImageRegion img1 combined 0 0 in
      let combined := copyImageRegion img2 combined (width + gap) 0 in
      let combined :=
        match diffImg with
        | Some d => copyImageRegion d combined ((width + gap) * 2) 0
        | None => combined
        end in
      match writePNG combined outputPath with
      | Returned _ => (Returned (Some outputPath), [(outputPath, combined)])
      | Threw message => (Threw message, [])
      end
  | _, _ => (Returned None, [])
  end.

(** The background colour: [128, 128, 128, 255]. *)
Definition greyChannel (c : nat) : N := if Nat.eqb c 3 then 255%N else 128%N.

(** An image as the decoder gives it: four bytes for each pixel. *)
Definition wellFormed (img : Png.t) : Prop :=
  length (Png.data img) = 4 * (Png.width img * Png.height img) /\
  Forall (fun b => (b < 256)%N) (Png.data img).

(** The writes of [greyPixel], as pairs of index and value. *)
Definition greyWrites (totalWidth y x : nat) : list (Z * N) :=
  let idx := shl2 (Z.of_nat (totalWidth * y + x)) in
  [ (idx, 128%N); ((idx + 1)%Z, 128%N); ((idx + 2)%Z, 128%N);
    ((idx + 3)%Z, 255%N) ].

(** The writes of [fillGrey], in order. *)
Definition fillWrites (totalWidth height : nat) : list (Z * N) :=
  flat_map (fun y => flat_map (greyWrites totalWidth y) (seq 0 totalWidth))
           (seq 0 height).


(** A sequence of writes into a buffer. *)
Definition writeAll (ws : list (Z * N)) (data : list N) : list N :=
  fold_left (fun d w => writeByte (fst w) (snd w) d) ws data.


(** The writes of [copyPixel]. *)
Definition pixelWrites (src dest : Png.t) (destX destY y x : nat) : list (Z * N) :=
  let srcIdx := shl2 (Z.of_nat (Png.width src * y + x)) in
  let destIdx := shl2 (Z.of_nat (Png.width dest * (destY + y) + (destX + x))) in
  [ (destIdx, readByte srcIdx (Png.data src));
    ((destIdx + 1)%Z, readByte (srcIdx + 1) (Png.data src));
    ((destIdx + 2)%Z, readByte (srcIdx + 2) (Png.data src));
    ((destIdx + 3)%Z, readByte (srcIdx + 3) (Png.data src)) ].

(** The writes of [copyImageRegion], in order. *)
Definition regionWrites (src dest : Png.t) (destX destY : nat) : list (Z * N) :=
  flat_map (fun y => flat_map (pixelWrites src dest destX destY y)
                              (seq 0 (Png.width src)))
           (seq 0 (Png.height src)).

(** ** Examples of images to combine *)

Module PanelExamples.

Definition bluePixel : Png.t :=
  {| Png.width := 1; Png.height := 1; Png.data := Examples.bluePixel |}.

(** [new PNG({ width, height })]: a buffer of zeros. *)
Definition newPNG (width height : nat) : Png.t :=
  {| Png.width := width; Png.height := height;
     Png.data := repeat 0%N (4 * (width * height)) |}.

Definition files : FileSystem :=
  {| loadPNG := fun filePath =>
       if String.eqb filePath "a.png" then Some Examples.small
       else if String.eqb filePath "b.png" then Some MoreExamples.twoReds
       else None;
     savePNG := fun _ _ => Returned tt |}.

End PanelExamples.

(** ** [captureConsole]

    The handlers registered with [page.on] and [context.on] run for
    the events of the page as these arrive, while [captureConsole]
    waits.  The arrays they push into are the arrays of the result, so
    what arrives after a number was computed is in the arrays and not
    in the number. *)

(** A console message: [msg.type()], [msg.text()], [msg.location()]. *)
Record ConsoleMessage : Type := {
  msg_type : string;
  msg_text : string;
  msg_url : option string;
  msg_line : option nat;
  msg_column : option nat
}.

(** The events of a page, each with the [new Date().toISOString()] of
    its handler; a console message is handled twice, by the handler of
    the page and by the one of the context. *)
Inductive PageEvent : Type :=
| ConsoleEvent (msg : ConsoleMessage) (pageTime contextTime : string)
| PageErrorEvent (message stack : string) (time : string)
| RequestFailedEvent (requestUrl method : string) (errorText : option string)
                     (resourceType : string) (time : string)
| ResponseEvent (responseUrl : string) (status : nat)
                (statusText resourceType : string) (time : string).

Record ConsoleLog : Type := {
  log_type : string;
  log_text : string;
  log_url : string;
  log_line : option nat;
  log_column : option nat;
  log_timestamp : string
}.

Record JsError : Type := {
  js_message : string;
  js_stack : string;
  js_timestamp : string
}.

Inductive NetworkError : Type :=
| FailedRequest (requestUrl method failure resourceType timestamp : string)
| ErrorResponse (responseUrl : string) (status : nat)
                (statusText resourceType timestamp : string).

Record SecurityWarning : Type := {
  warning_message : string;
  warning_timestamp : string
}.

(** The four arrays the handlers push into. *)
Record Collected : Type := {
  consoleLogs : list ConsoleLog;
  jsErrors : list JsError;
  networkErrors : list NetworkError;
  securityWarnings : list SecurityWarning
}.

(** [s.toLowerCase()], as far as the three words searched for are
    concerned: no character outside [A-Z] becomes one of their
    letters. *)
Definition toLowerCase (s : string) : string :=
  string_of_list_ascii (map toLowerAscii (list_ascii_of_string s)).

Definition mentionsSecurity (text : string) : bool :=
  includesString "security" (toLowerCase text)
  || includesString "mixed content" (toLowerCase text)
  || includesString "insecure" (toLowerCase text).

(** The handlers, run on one event. *)
Definition handleEvent (includeNetwork : bool) (st : Collected) (e : PageEvent)
  : Collected :=
  match e with
  | ConsoleEvent msg pageTime contextTime =>
      {| consoleLogs :=
           push (consoleLogs st)
                {| log_type := msg_type msg;
                   log_text := msg_text msg;
                   log_url := match msg_url msg with
                              | Some u => or_else u ""
                              | None => ""
                              end;
                   log_line := msg_line msg;
                   log_column := msg_column msg;
                   log_timestamp := pageTime |};
         jsErrors := jsErrors st;
         networkErrors := networkErrors st;
         securityWarnings :=
           if mentionsSecurity (msg_text msg)
           then push (securityWarnings st)
                     {| warning_message := msg_text msg;
                        warning_timestamp := contextTime |}
           else securityWarnings st |}
  | PageErrorEvent message stack time =>
      {| consoleLogs := consoleLogs st;
         jsErrors := push (jsErrors st)
                          {| js_message := message; js_stack := stack;
                             js_timestamp := time |};
         networkErrors := networkErrors st;
         securityWarnings := securityWarnings st |}
  | RequestFailedEvent u method errorText resourceType time =>
      if includeNetwork then
        {| consoleLogs := consoleLogs st;
           jsErrors := jsErrors st;
           networkErrors :=
             push (networkErrors st)
                  (FailedRequest u method
                     match errorText with
                     | Some t => or_else t "Unknown error"
                     | None => "Unknown error"
                     end
                     resourceType time);
           securityWarnings := securityWarnings st |}
      else st
  | ResponseEvent u status statusText resourceType time =>
      if includeNetwork && Nat.leb 400 status then
        {| consoleLogs := consoleLogs st;
           jsErrors := jsErrors st;
           networkErrors :=
             push (networkErrors st)
                  (ErrorResponse u status statusText resourceType time);
           securityWarnings := securityWarnings st |}
      else st
  end.

Definition handleEvents (includeNetwork : bool) (events : list PageEvent)
           (st : Collected) : Collected :=
  fold_left (handleEvent includeNetwork) events st.

(** [classify(logs)] *)
Record Classified : Type := {
  class_errors : list ConsoleLog;
  class_warnings : list ConsoleLog;
  class_info : list ConsoleLog;
  class_debug : list ConsoleLog;
  class_other : list ConsoleLog
}.

Definition classify (logs : list ConsoleLog) : Classified :=
  {| class_errors := filter (fun l => String.eqb (log_type l) "error") logs;
     class_warnings := filter (fun l => String.eqb (log_type l) "warning") logs;
     class_info := filter (fun l => String.eqb (log_type l) "info"
                                    || String.eqb (log_type l) "log") logs;
     class_debug := filter (fun l => String.eqb (log_type l) "debug") logs;
     class_other :=
       filter (fun l => negb (includes (log_type l)
                                       ["error"; "warning"; "info"; "log"; "debug"]))
              logs |}.

Record ConsoleSummary : Type := {
  total_logs : nat;
  summary_errors : nat;
  summary_warnings : nat;
  network_errors : nat;
  has_critical : bool
}.

(** [e.status >= 500]: a failed request has no status. *)
Definition isServerError (e : NetworkError) : bool :=
  match e with
  | FailedRequest _ _ _ _ _ => false
  | ErrorResponse _ status _ _ _ => Nat.leb 500 status
  end.

(** The result; [M] is the type of the performance metrics, which the
    function passes on as the page computed them. *)
Record ConsoleResult (M : Type) : Type := {
  console_url : string;
  console_browserType : string;
  console_timestamp : string;
  pageInfo_title : string;
  pageInfo_status : option nat;
  pageInfo_ok : option bool;
  console_summary : ConsoleSummary;
  console_all : list ConsoleLog;
  console_classified : Classified;
  result_jsErrors : list JsError;
  result_networkErrors : list NetworkError;
  result_securityWarnings : list SecurityWarning;
  deprecationWarnings : list string;
  performance : M
}.

(** How the calls of one [captureConsole] end, and the events that
    arrive: before the logs are classified, while the title is read,
    and while the browser is closed. *)
Record ConsoleSession (M : Type) : Type := {
  console_launch : EvalResult unit;
  console_newContext : EvalResult unit;
  console_newPage : EvalResult unit;
  (** [page.goto]: the response (its status and [ok()]) or [null] *)
  console_goto : EvalResult (option (nat * bool));
  console_waitForTimeout : EvalResult unit;
  console_performance : EvalResult M;
  console_deprecations : EvalResult (list string);
  console_now : string;
  console_title : EvalResult string;
  console_close : EvalResult unit;
  eventsBefore : list PageEvent;
  eventsDuringTitle : list PageEvent;
  eventsDuringClose : list PageEvent
}.

(** [captureConsole(url, { waitTime, includeNetwork, browserType })] *)
Definition captureConsole {M : Type}
           (parseProtocol : string -> EvalResult string)
           (session : ConsoleSession M) (url : string)
           (includeNetwork : bool) (browserType : string)
  : EvalResult (ConsoleResult M) :=
  match validateUrl parseProtocol url with
  | Threw message => Threw message
  | Returned _ =>
  match console_launch session with
  | Threw message => Threw message
  | Returned _ =>
  match console_newContext session with
  | Threw message => Threw message
  | Returned _ =>
  match console_newPage session with
  | Threw message => Threw message
  | Returned _ =>
      let empty := {| consoleLogs := []; jsErrors := []; networkErrors := [];
                      securityWarnings := [] |} in
      let attempt :=
        match console_goto session with
        | Threw message => Threw message
        | Returned response =>
        match console_waitForTimeout session with
        | Threw message => Threw message
        | Returned _ =>
        match console_performance session with
        | Threw message => Threw message
        | Returned performanceMetrics =>
        match console_deprecations session with
        | Threw message => Threw message
        | Returned deprecations =>
            let before :=
              handleEvents includeNetwork (eventsBefore session) empty in
            let classified := classify (consoleLogs before) in
            match console_title session with
            | Threw message => Threw message
            | Returned title =>
                let seen :=
                  handleEvents includeNetwork (eventsDuringTitle session)
                               before in
                let summary :=
                  {| total_logs := length (consoleLogs seen);
                     summary_errors :=
                       length (class_errors classified)
                       + length (jsErrors seen);
                     summary_warnings :=
                       length (class_warnings classified)
                       + length (securityWarnings seen);
                     network_errors := length (networkErrors seen);
                     has_critical :=
                       Nat.ltb 0 (length (jsErrors seen))
                       || existsb isServerError (networkErrors seen) |} in
                Returned (response, performanceMetrics, deprecations,
                          classified, title, summary, seen)
            end
        end end end end in
      (* finally *)
      match console_close session with
      | Threw message => Threw message
      | Returned _ =>
          match attempt with
          | Threw message => Threw message
          | Returned (response, performanceMetrics, deprecations,
                      classified, title, summary, seen) =>
              (* the arrays of the result, as the caller finds them *)
              let final :=
                handleEvents includeNetwork (eventsDuringClose session) seen in
              Returned
                {| console_url := url;
                   console_browserType := browserType;
                   console_timestamp := console_now session;
                   pageInfo_title := title;
                   pageInfo_status := option_map fst response;
                   pageInfo_ok := option_map snd response;
                   console_summary := summary;
                   console_all := consoleLogs final;
                   console_classified := classified;
                   result_jsErrors := jsErrors final;
                   result_networkErrors := networkErrors final;
                   result_securityWarnings := securityWarnings final;
                   deprecationWarnings := deprecations;
                   performance := performanceMetrics |}
          end
      end
  end end end end.

(** ** Notions for the properties of [captureConsole] *)

Definition consoleMessages (events : list PageEvent) : list ConsoleMessage :=
  flat_map (fun e => match e with
                     | ConsoleEvent msg _ _ => [msg]
                     | _ => []
                     end) events.

Definition isPageError (e : PageEvent) : bool :=
  match e with
  | PageErrorEvent _ _ _ => true
  | _ => false
  end.

(** A failed request, or a response with a status from 400 on. *)
Definition isNetworkFailure (e : PageEvent) : bool :=
  match e with
  | RequestFailedEvent _ _ _ _ _ => true
  | ResponseEvent _ status _ _ _ => Nat.leb 400 status
  | _ => false
  end.

Definition isServerFailure (e : PageEvent) : bool :=
  match e with
  | ResponseEvent _ status _ _ _ => Nat.leb 500 status
  | _ => false
  end.

Definition hasType (t : string) (msg : ConsoleMessage) : bool :=
  String.eqb (msg_type msg) t.

(** ** Examples of console events *)

Module ConsoleExamples.

Definition message (type text : string) : ConsoleMessage :=
  {| msg_type := type; msg_text := text; msg_url := None;
     msg_line := None; msg_column := None |}.

(** A warning about mixed content and a failing script before the
    logs are classified, a late log while the title is read, and a
    request that fails when the browser is closed. *)
Definition session : ConsoleSession unit :=
  {| console_launch := Returned tt;
     console_newContext := Returned tt;
     console_newPage := Returned tt;
     console_goto := Returned (Some (200, true));
     console_waitForTimeout := Returned tt;
     console_performance := Returned tt;
     console_deprecations := Returned [];
     console_now := "2024-01-01T00:00:00.000Z";
     console_title := Returned "Example";
     console_close := Returned tt;
     eventsBefore :=
       [ ConsoleEvent (message "warning" "Mixed Content: insecure image") "t1" "t1";
         PageErrorEvent "x is not defined" "" "t2";
         ResponseEvent "https://example.org/api" 503 "Unavailable" "fetch" "t3" ];
     eventsDuringTitle := [ ConsoleEvent (message "log" "ready") "t4" "t4" ];
     eventsDuringClose :=
       [ RequestFailedEvent "https://example.org/poll" "GET" None "fetch" "t5" ] |}.

Definition parseProtocol : string -> EvalResult string :=
  fun _ => Returned "https:".

Definition emptyResult : ConsoleResult unit :=
  {| console_url := ""; console_browserType := ""; console_timestamp := "";
     pageInfo_title := ""; pageInfo_status := None; pageInfo_ok := None;
     console_summary := {| total_logs := 0; summary_errors := 0;
                           summary_warnings := 0; network_errors := 0;
                           has_critical := false |};
     console_all := []; console_classified := classify [];
     result_jsErrors := []; result_networkErrors := [];
     result_securityWarnings := []; deprecationWarnings := [];
     performance := tt |}.

Definition result : ConsoleResult unit :=
  Eval vm_compute in
    match captureConsole parseProtocol session "https://example.org" true
                         "chromium" with
    | Returned r => r
    | Threw _ => emptyResult
    end.

End ConsoleExamples.

(** ** [auditClickableElements]

    The script runs in the page.  What it reads from the document is
    given: for each element that the selector matches, in document
    order, its tag, attributes, accessible name, rectangle and
    computed style, and which elements contain which.  A document on
    which the script throws (an accessible name that is no string,
    say) is a [page.evaluate] that throws. *)

(** What the script takes from the runtime: [Math.round], the
    conversion of a number to a string in a template literal,
    [String.prototype.toLowerCase] and [s.substring(0, 50)]. *)
Class ScriptRuntime : Type := {
  Math_round : float -> float;
  numberToString : float -> string;
  lowerCase : string -> string;
  substring_0_50 : string -> string
}.

(** [el.getBoundingClientRect()] *)
Record DOMRect : Type := {
  rect_x : float;
  rect_y : float;
  rect_width : float;
  rect_height : float;
  rect_left : float;
  rect_right : float;
  rect_top : float;
  rect_bottom : float
}.

Record Clickable : Type := {
  el_tagName : string;
  el_type : string;                 (* [''] when there is none *)
  el_id : string;
  el_className : option string;     (* when it is a string *)
  el_name : string;                 (* [''] when there is none *)
  accessibleName : string;          (* [getAccessibleName(el)] *)
  el_rect : DOMRect;
  style_display : string;
  style_visibility : string;
  style_opacity : string
}.

Inductive AuditIssueType : Type :=
| TooSmall | NoLabel | Hidden | OutsideViewport | Overlapping.

Definition AuditIssueType_eqb (a b : AuditIssueType) : bool :=
  match a, b with
  | TooSmall, TooSmall | NoLabel, NoLabel | Hidden, Hidden
  | OutsideViewport, OutsideViewport | Overlapping, Overlapping => true
  | _, _ => false
  end.

Record AuditIssue : Type := {
  audit_type : AuditIssueType;
  audit_message : string;
  audit_severity : Severity
}.

Record RoundedRect : Type := {
  rounded_x : float;
  rounded_y : float;
  rounded_width : float;
  rounded_height : float
}.

Record ElementInfo : Type := {
  info_index : nat;
  info_tag : string;
  info_type : option string;
  info_selector : string;
  info_name : string;
  info_rect : RoundedRect;
  info_visible : bool;
  info_size : float;
  info_issues : list AuditIssue
}.

Record AuditSummary : Type := {
  too_small : nat;
  no_label : nat;
  hidden : nat;
  overlapping : nat;
  outside_viewport : nat
}.

Record AuditResults : Type := {
  audit_total : nat;
  audit_valid : list ElementInfo;
  audit_issues : list ElementInfo;
  audit_summary : AuditSummary
}.

(** What [auditClickableElements] returns: the results of the script,
    or [{ error, total: 0, valid: [], issues: [], summary: {} }]. *)
Inductive Audit : Type :=
| AuditDone (results : AuditResults)
| AuditFailed (error : string).

(** An entry of [rects]: the rectangle, the selector and the element
    (its index among the clickable elements). *)
Record Placed : Type := {
  placed_rect : DOMRect;
  placed_selector : string;
  placed_el : nat
}.

Record AuditState : Type := {
  audit_results : AuditResults;
  rects : list Placed
}.

(** [s.split(' ')] *)
Fixpoint splitSpaces (current : string) (s : string) : list string :=
  match s with
  | EmptyString => [current]
  | String c rest =>
      if Ascii.eqb c " " then current :: splitSpaces EmptyString rest
      else splitSpaces (current ++ String c EmptyString) rest
  end.

Section AuditScript.
Context `{ScriptRuntime}.
Local Open Scope float_scope.
Local Set Warnings "-inexact-float".

Variable minTouchSize : float.
Variable isMobile : bool.
Variable viewportWidth : float.
(** [el.contains(other)], on the indices of the two elements *)
Variable contains : nat -> nat -> bool.

Definition isVisible (el : Clickable) : bool :=
  negb (String.eqb (style_display el) "none")
  && negb (String.eqb (style_visibility el) "hidden")
  && negb (String.eqb (style_opacity el) "0")
  && (0 <? rect_width (el_rect el))
  && (0 <? rect_height (el_rect el)).

Definition getSelector (el : Clickable) : string :=
  if truthy (el_id el) then ("#" ++ el_id el)%string
  else
    let classes :=
      match el_className el with
      | Some className =>
          if truthy className
          then filter (fun c => truthy c && negb (includesString ":" c))
                      (splitSpaces EmptyString className)
          else []
      | None => []
      end in
    match classes with
    | first :: _ => ("." ++ first)%string
    | [] =>
        let selector := lowerCase (el_tagName el) in
        let selector :=
          if truthy (el_type el)
          then (selector ++ "[type=" ++ dquote ++ el_type el ++ dquote ++ "]")%string
          else selector in
        if truthy (el_name el)
        then (selector ++ "[name=" ++ dquote ++ el_name el ++ dquote ++ "]")%string
        else selector
    end.

(** [!(rect.right < other.left || rect.left > other.right ||
       rect.bottom < other.top || rect.top > other.bottom)] *)
Definition overlap (rect other : DOMRect) : bool :=
  negb ((rect_right rect <? rect_left other)
        || (rect_right other <? rect_left rect)
        || (rect_bottom rect <? rect_top other)
        || (rect_bottom other <? rect_top rect)).

(** The first entry of [rects] that makes check 5 report. *)
Definition overlapped (index : nat) (rect : DOMRect) (selector : string)
           (earlier : list Placed) : option Placed :=
  find (fun other =>
          overlap rect (placed_rect other)
          && negb (String.eqb (placed_selector other) selector)
          && negb (contains index (placed_el other)
                   || contains (placed_el other) index))
       earlier.

(** What the five checks find on one element. *)
Record Findings : Type := {
  found_small : bool;
  found_unnamed : bool;
  found_collapsed : bool;
  found_outside : bool;
  found_crossing : option Placed
}.

Definition findings (earlier : list Placed) (index : nat) (el : Clickable)
  : Findings :=
  let rect := el_rect el in
  let visible := isVisible el in
  let name := accessibleName el in
  let selector := getSelector el in
  let minDimension := Math_min (rect_width rect) (rect_height rect) in
  {| (* 1: too small for touch *)
     found_small :=
       isMobile && visible && (0 <? minDimension)
       && (minDimension <? minTouchSize);
     (* 2: no accessible name *)
     found_unnamed :=
       visible && negb (truthy name)
       && negb (String.eqb (el_tagName el) "INPUT");
     (* 3: hidden *)
     found_collapsed :=
       negb visible && (rect_width rect =? 0) && (rect_height rect =? 0);
     (* 4: outside of the viewport *)
     found_outside :=
       visible && ((viewportWidth + 10 <? rect_right rect)
                   || (rect_left rect <? -10));
     (* 5: overlapping another clickable element *)
     found_crossing :=
       if visible && (0 <? rect_width rect)
       then overlapped index rect selector earlier
       else None |}.

(** [elementInfo], with the issues the checks have pushed, in the
    order of the checks. *)
Definition elementInfoOf (index : nat) (el : Clickable) (f : Findings)
  : ElementInfo :=
  let rect := el_rect el in
  let minDimension := Math_min (rect_width rect) (rect_height rect) in
  let issues : list AuditIssue := [] in
  let issues :=
    if found_small f
    then push issues
              {| audit_type := TooSmall;
                 audit_message :=
                   ("Размер " ++ numberToString (Math_round minDimension)
                    ++ "px < " ++ numberToString minTouchSize ++ "px")%string;
                 audit_severity := Warning |}
    else issues in
  let issues :=
    if found_unnamed f
    then push issues
              {| audit_type := NoLabel;
                 audit_message := "Нет текста или aria-label";
                 audit_severity := Warning |}
    else issues in
  let issues :=
    if found_collapsed f
    then push issues
              {| audit_type := Hidden;
                 audit_message := "Элемент скрыт (размер 0)";
                 audit_severity := Info |}
    else issues in
  let issues :=
    if found_outside f
    then push issues
              {| audit_type := OutsideViewport;
                 audit_message :=
                   ("Выходит за пределы экрана (right: "
                    ++ numberToString (Math_round (rect_right rect)) ++ "px)")%string;
                 audit_severity := Critical |}
    else issues in
  let issues :=
    match found_crossing f with
    | Some other =>
        push issues
             {| audit_type := Overlapping;
                audit_message := ("Пересекается с " ++ placed_selector other)%string;
                audit_severity := Warning |}
    | None => issues
    end in
  {| info_index := index;
     info_tag := lowerCase (el_tagName el);
     info_type := if truthy (el_type el) then Some (el_type el) else None;
     info_selector := getSelector el;
     info_name := substring_0_50 (accessibleName el);
     info_rect := {| rounded_x := Math_round (rect_x rect);
                     rounded_y := Math_round (rect_y rect);
                     rounded_width := Math_round (rect_width rect);
                     rounded_height := Math_round (rect_height rect) |};
     info_visible := isVisible el;
     info_size := Math_round minDimension;
     info_issues := issues |}.

(** The callback of [clickables.forEach]: the counters of the summary
    go up where a check reports, the element goes to [issues] or to
    [valid], and a visible element is added to [rects]. *)
Definition auditElement (st : AuditState) (indexed : nat * Clickable)
  : AuditState :=
  let '(index, el) := indexed in
  let results := audit_results st in
  let summary := audit_summary results in
  let f := findings (rects st) index el in
  let elementInfo := elementInfoOf index el f in
  let bump (b : bool) (n : nat) : nat := if b then S n else n in
  {| audit_results :=
       {| audit_total := S (audit_total results);
          audit_valid :=
            match info_issues elementInfo with
            | [] => if isVisible el then push (audit_valid results) elementInfo
                    else audit_valid results
            | _ :: _ => audit_valid results
            end;
          audit_issues :=
            match info_issues elementInfo with
            | [] => audit_issues results
            | _ :: _ => push (audit_issues results) elementInfo
            end;
          audit_summary :=
            {| too_small := bump (found_small f) (too_small summary);
               no_label := bump (found_unnamed f) (no_label summary);
               hidden := bump (found_collapsed f) (hidden summary);
               overlapping :=
                 bump (match found_crossing f with
                       | Some _ => true
                       | None => false
                       end)
                      (overlapping summary);
               outside_viewport :=
                 bump (found_outside f) (outside_viewport summary) |} |};
     rects :=
       if isVisible el && (0 <? rect_width (el_rect el))
       then push (rects st)
                 {| placed_rect := el_rect el;
                    placed_selector := getSelector el;
                    placed_el := index |}
       else rects st |}.

(** The script: [clickables.forEach((el, index) => ...)] from the empty
    results. *)
Definition auditScript (clickables : list Clickable) : AuditResults :=
  audit_results
    (fold_left auditElement
       (combine (seq 0 (length clickables)) clickables)
       {| audit_results :=
            {| audit_total := 0; audit_valid := []; audit_issues := [];
               audit_summary := {| too_small := 0; no_label := 0; hidden := 0;
                                   overlapping := 0; outside_viewport := 0 |} |};
          rects := [] |}).

End AuditScript.

(** [device.viewport.width] as a number of the script. *)
Definition floatOfNat (n : nat) : float :=
  PrimFloat.of_uint63 (Uint63.of_Z (Z.of_nat n)).

(** [auditClickableElements(page, device)]; [min_size_px] is
    [standards?.responsiveness?.touch_targets?.min_size_px], and
    [evaluated] is what the document gives to the script, or the error
    [page.evaluate] throws. *)
Definition auditClickableElements `{ScriptRuntime} (min_size_px : option float)
           (device : Device) (contains : nat -> nat -> bool)
           (evaluated : EvalResult (list Clickable)) : Audit :=
  let minTouchSize := number_or min_size_px 44%float in
  let isMobile := Device.is_mobile device || Device.has_touch device in
  match evaluated with
  | Returned clickables =>
      AuditDone
        (auditScript minTouchSize isMobile
                     (floatOfNat (width (Device.viewport device)))
                     contains clickables)
  | Threw message => AuditFailed message
  end.

(** ** Notions for the properties of the audit *)

(** How many entries of the type [t] the issues of the elements hold. *)
Definition countType (t : AuditIssueType) (infos : list ElementInfo) : nat :=
  list_sum
    (map (fun i => countIf (fun e => AuditIssueType_eqb (audit_type e) t)
                           (info_issues i))
         infos).

Definition severityOf (t : AuditIssueType) : Severity :=
  match t with
  | TooSmall | NoLabel | Overlapping => Warning
  | Hidden => Info
  | OutsideViewport => Critical
  end.

(** What the issues of one audited element look like. *)
Definition wellShaped (isMobile : bool) (i : ElementInfo) : Prop :=
  NoDup (map audit_type (info_issues i)) /\
  Forall (fun e => audit_severity e = severityOf (audit_type e))
         (info_issues i) /\
  (info_visible i = false ->
   info_issues i = [] \/ map audit_type (info_issues i) = [Hidden]) /\
  (info_visible i = true -> ~ In Hidden (map audit_type (info_issues i))) /\
  (isMobile = false -> ~ In TooSmall (map audit_type (info_issues i))).

(** What the loop of the script keeps true of its results. *)
Definition auditCounts (isMobile : bool) (r : AuditResults) : Prop :=
  too_small (audit_summary r) = countType TooSmall (audit_issues r) /\
  no_label (audit_summary r) = countType NoLabel (audit_issues r) /\
  hidden (audit_summary r) = countType Hidden (audit_issues r) /\
  overlapping (audit_summary r) = countType Overlapping (audit_issues r) /\
  outside_viewport (audit_summary r)
    = countType OutsideViewport (audit_issues r) /\
  Forall (fun i => info_issues i <> [] /\ wellShaped isMobile i)
         (audit_issues r) /\
  Forall (fun i => info_visible i = true /\ info_issues i = [])
         (audit_valid r) /\
  length (audit_valid r) + length (audit_issues r) <= audit_total r.

(** An entry of [rects] stands for a visible element of the page. *)
Definition placedIn `{ScriptRuntime} (clickables : list Clickable) (p : Placed)
  : Prop :=
  exists other,
    nth_error clickables (placed_el p) = Some other /\
    isVisible other = true /\
    placed_rect p = el_rect other /\
    placed_selector p = getSelector other.

(** Every overlap reported on the element of the record [i] names an
    element that comes before it in the document, is visible like it,
    has another selector, has a rectangle that meets its own, and
    neither contains it nor is contained in it. *)
Definition crossingExplained `{ScriptRuntime} (contains : nat -> nat -> bool)
           (clickables : list Clickable) (i : ElementInfo) : Prop :=
  exists el,
    nth_error clickables (info_index i) = Some el /\
    info_selector i = getSelector el /\
    info_visible i = isVisible el /\
    forall e,
      In e (info_issues i) -> audit_type e = Overlapping ->
      exists j other,
        j < info_index i /\
        nth_error clickables j = Some other /\
        isVisible el = true /\ isVisible other = true /\
        overlap (el_rect el) (el_rect other) = true /\
        getSelector other <> getSelector el /\
        contains (info_index i) j = false /\
        contains j (info_index i) = false /\
        audit_message e = ("Пересекается с " ++ getSelector other)%string.

(* ================================================================== *)
(** * A browser that does not close                                    *)
(* ================================================================== *)

Module ClosingExamples.

(** The page is captured and checked, and [browser.close()] in the
    [finally] block rejects. *)
Definition stuck : TupleRun :=
  {| capture := Returned {| screenshot_length := 2048;
                            page := Examples.cleanPage |};
     now := "1700000000000";
     saveScreenshot := Returned tt;
     detectorException := None;
     close := Threw "browser.close: Connection closed" |}.

(** The browser of the first tuple does not close; all the others do. *)
Definition world : World :=
  fun n =>
    match n with
    | 0 => stuck
    | _ => Examples.captured Examples.cleanPage
    end.

End ClosingExamples.

(* ================================================================== *)
(** * Theorems                                                         *)
(* ================================================================== *)

(** ** Association-list maps *)

Lemma get_set_same {V} (k : string) (v : V) (m : Map V) :
  get k (set k v m) = Some v.
Proof.
  induction m as [|[k' v'] m IH]; simpl.
  - now rewrite String.eqb_refl.
  - destruct (String.eqb k' k) eqn:E; simpl; rewrite E; auto.
Qed.

Lemma get_set_other {V} (k k' : string) (v : V) (m : Map V) :
  k <> k' -> get k' (set k v m) = get k' m.
Proof.
  intros Hne. induction m as [|[k0 v0] m IH]; simpl.
  - destruct (String.eqb k k') eqn:E; auto.
    apply String.eqb_eq in E. contradiction.
  - destruct (String.eqb k0 k) eqn:E; simpl.
    + apply String.eqb_eq in E. subst k0.
      destruct (String.eqb k k') eqn:E'; auto.
      apply String.eqb_eq in E'. contradiction.
    + now rewrite IH.
Qed.

Lemma set_absent {V} (k : string) (v : V) (m : Map V) :
  get k m = None -> set k v m = m ++ [(k, v)].
Proof.
  induction m as [|[k' v'] m IH]; simpl; auto.
  destruct (String.eqb k' k); [discriminate|].
  intros H. now rewrite IH.
Qed.

Lemma keys_set_present {V} (k : string) (v o : V) (m : Map V) :
  get k m = Some o -> keys (set k v m) = keys m.
Proof.
  induction m as [|[k' v'] m IH]; simpl; [discriminate|].
  destruct (String.eqb k' k); simpl; auto.
  intros H. f_equal. now apply IH.
Qed.

Lemma get_None_not_key {V} (k : string) (m : Map V) :
  get k m = None -> ~ In k (keys m).
Proof.
  induction m as [|[k' v'] m IH]; simpl; auto.
  destruct (String.eqb k' k) eqn:E; [discriminate|].
  apply String.eqb_neq in E. intros H [H1|H1]; [contradiction|].
  now apply IH.
Qed.

Lemma get_of_entry {V} (k : string) (o : V) (m : Map V) :
  NoDup (keys m) -> In (k, o) m -> get k m = Some o.
Proof.
  induction m as [|[k' v'] m IH]; simpl; [tauto|].
  intros Hnd [Heq|Hin].
  - inversion Heq; subst. now rewrite String.eqb_refl.
  - inversion Hnd as [|? ? Hnot Hnd']; subst.
    destruct (String.eqb k' k) eqn:E.
    + apply String.eqb_eq in E. subst k'.
      exfalso. apply Hnot. unfold keys. now apply (in_map fst) in Hin.
    + now apply IH.
Qed.

(** ** Lists *)

Lemma find_snoc {A} (p : A -> bool) (l : list A) (x : A) :
  find p (l ++ [x]) =
  match find p l with
  | Some y => Some y
  | None => if p x then Some x else None
  end.
Proof.
  induction l as [|a l IH]; simpl; auto.
  destruct (p a); auto.
Qed.

Lemma find_None_filter {A} (p : A -> bool) (l : list A) :
  find p l = None -> filter p l = [].
Proof.
  induction l as [|a l IH]; simpl; auto.
  destruct (p a); [discriminate | auto].
Qed.

Lemma find_None_existsb {A} (p : A -> bool) (l : list A) :
  find p l = None <-> existsb p l = false.
Proof.
  induction l as [|a l IH]; simpl; [tauto|].
  destruct (p a); simpl; [split; discriminate | auto].
Qed.

(** ** First occurrences *)

Section FirstByFacts.
Context {A : Type} (same : A -> A -> bool).
Hypothesis same_sym : forall x y, same x y = same y x.
Hypothesis same_trans :
  forall x y z, same x y = true -> same y z = true -> same x z = true.

Lemma firstBy_snoc (earlier l : list A) (x : A) :
  firstBy same earlier (l ++ [x]) =
  firstBy same earlier l ++
    (if existsb (same x) (earlier ++ l) then [] else [x]).
Proof.
  revert earlier. induction l as [|a l IH]; intros earlier; simpl.
  - rewrite app_nil_r. destruct (existsb (same x) earlier); reflexivity.
  - rewrite IH. rewrite <- app_assoc. simpl.
    destruct (existsb (same a) earlier); reflexivity.
Qed.

Lemma firstBy_incl (earlier l : list A) (x : A) :
  In x (firstBy same earlier l) -> In x l.
Proof.
  revert earlier. induction l as [|a l IH]; intros earlier; simpl; auto.
  destruct (existsb (same a) earlier); simpl; intros H.
  - right. eapply IH; eauto.
  - destruct H; [now left | right; eapply IH; eauto].
Qed.

Lemma existsb_firstBy (x : A) (l : list A) :
  existsb (same x) (firstBy same [] l) = existsb (same x) l.
Proof.
  induction l as [|y l IH] using rev_ind; [reflexivity|].
  rewrite firstBy_snoc. simpl. rewrite !existsb_app, IH. simpl.
  destruct (existsb (same y) l) eqn:Ey; simpl.
  - rewrite !orb_false_r.
    destruct (same x y) eqn:Exy; [|now rewrite orb_false_r].
    rewrite orb_true_r.
    apply existsb_exists in Ey. destruct Ey as [z [Hz Hyz]].
    apply existsb_exists. exists z. split; auto.
    eapply same_trans; eauto.
  - reflexivity.
Qed.

(** Of each class exactly its first member survives. *)
Lemma filter_firstBy (i : A) (earlier l : list A) :
  filter (same i) (firstBy same earlier l) =
  match find (same i) l with
  | Some j => if existsb (same i) earlier then [] else [j]
  | None => []
  end.
Proof.
  revert earlier. induction l as [|x l IH]; intros earlier; simpl; auto.
  destruct (same i x) eqn:Eix.
  - destruct (existsb (same x) earlier) eqn:Ex.
    + rewrite IH, existsb_app. simpl. rewrite Eix, orb_true_r.
      assert (existsb (same i) earlier = true) as ->.
      { apply existsb_exists in Ex. destruct Ex as [z [Hz Hxz]].
        apply existsb_exists. exists z. split; eauto. }
      destruct (find (same i) l); reflexivity.
    + simpl. rewrite Eix, IH, existsb_app. simpl.
      rewrite Eix, orb_true_r.
      assert (existsb (same i) earlier = false) as ->.
      { destruct (existsb (same i) earlier) eqn:Ei; auto.
        apply existsb_exists in Ei. destruct Ei as [z [Hz Hiz]].
        assert (existsb (same x) earlier = true); [|congruence].
        apply existsb_exists. exists z. split; auto.
        apply same_trans with i; auto. now rewrite same_sym. }
      destruct (find (same i) l); reflexivity.
  - assert (forall rest,
      filter (same i) (firstBy same (earlier ++ [x]) l) = rest ->
      filter (same i)
        (if existsb (same x) earlier
         then firstBy same (earlier ++ [x]) l
         else x :: firstBy same (earlier ++ [x]) l) = rest) as Hdrop.
    { intros rest <-. destruct (existsb (same x) earlier); simpl; auto.
      now rewrite Eix. }
    apply Hdrop. rewrite IH, existsb_app. simpl.
    now rewrite Eix, !orb_false_r.
Qed.
End FirstByFacts.

Lemma distinctDevices_snoc (ds : list string) (d : string) :
  distinctDevices (ds ++ [d]) =
  if includes d (distinctDevices ds)
  then distinctDevices ds
  else push (distinctDevices ds) d.
Proof.
  unfold distinctDevices, includes, push.
  rewrite firstBy_snoc. simpl.
  rewrite existsb_firstBy.
  - destruct (existsb (String.eqb d) ds); auto using app_nil_r.
  - intros x y z Hxy Hyz.
    apply String.eqb_eq in Hxy. now subst.
Qed.

Lemma distinctDevices_In (ds : list string) (d : string) :
  In d (distinctDevices ds) <-> In d ds.
Proof.
  revert d. induction ds as [|x ds IH] using rev_ind; intros d; [reflexivity|].
  rewrite distinctDevices_snoc. unfold includes, push.
  destruct (existsb (String.eqb x) (distinctDevices ds)) eqn:E.
  - rewrite in_app_iff, IH. simpl.
    apply existsb_exists in E. destruct E as [z [Hz Hxz]].
    apply String.eqb_eq in Hxz. subst z. apply IH in Hz.
    intuition (subst; auto).
  - rewrite !in_app_iff, IH. reflexivity.
Qed.

Lemma distinctDevices_NoDup (ds : list string) :
  NoDup (distinctDevices ds).
Proof.
  induction ds as [|x ds IH] using rev_ind; [constructor|].
  rewrite distinctDevices_snoc. unfold includes, push.
  destruct (existsb (String.eqb x) (distinctDevices ds)) eqn:E; auto.
  assert (~ In x (distinctDevices ds)) as Hnot.
  { intros Hin.
    assert (existsb (String.eqb x) (distinctDevices ds) = true); [|congruence].
    apply existsb_exists. exists x. split; auto. apply String.eqb_refl. }
  clear E. induction (distinctDevices ds) as [|a l IHl]; simpl.
  - constructor; [tauto | constructor].
  - inversion IH; subst. constructor.
    + rewrite in_app_iff. simpl. intros [H|[H|[]]]; [auto|].
      subst. apply Hnot. now left.
    + apply IHl; auto. intros H. apply Hnot. now right.
Qed.

Lemma distinctDevices_of_NoDup (ds : list string) :
  NoDup ds -> distinctDevices ds = ds.
Proof.
  induction ds as [|x ds IH] using rev_ind; [reflexivity|].
  intros Hnd. rewrite distinctDevices_snoc.
  assert (NoDup ds /\ ~ In x ds) as [Hnd' Hnot].
  { apply NoDup_remove in Hnd. rewrite app_nil_r in Hnd. exact Hnd. }
  rewrite IH by assumption. unfold includes, push.
  destruct (existsb (String.eqb x) ds) eqn:E; auto.
  apply existsb_exists in E. destruct E as [z [Hz Hxz]].
  apply String.eqb_eq in Hxz. subst z. contradiction.
Qed.

(** ** The de-duplication key *)

Lemma sameKey_iff (i j : Issue) :
  sameKey i j = true <-> dedupKey i = dedupKey j.
Proof.
  unfold sameKey, dedupKey.
  destruct (type i), (type j); cbn;
    try (split; intros H; [discriminate | inversion H]; fail);
    rewrite String.eqb_eq;
    (split; intros H; [now rewrite H | now inversion H]).
Qed.

Lemma sameKey_eqb (i j : Issue) :
  sameKey i j = String.eqb (dedupKey j) (dedupKey i).
Proof.
  destruct (sameKey i j) eqn:E.
  - apply sameKey_iff in E. rewrite E. symmetry. apply String.eqb_refl.
  - symmetry. apply String.eqb_neq. intros H.
    assert (sameKey i j = true) by (apply sameKey_iff; auto). congruence.
Qed.

Lemma sameKey_refl (i : Issue) : sameKey i i = true.
Proof. now apply sameKey_iff. Qed.

Lemma sameKey_sym (i j : Issue) : sameKey i j = sameKey j i.
Proof. rewrite !sameKey_eqb. apply String.eqb_sym. Qed.

Lemma sameKey_trans (i j k : Issue) :
  sameKey i j = true -> sameKey j k = true -> sameKey i k = true.
Proof. rewrite !sameKey_iff. congruence. Qed.

Lemma find_sameKey (i : Issue) (l : list Issue) :
  find (sameKey i) l = find (fun j => String.eqb (dedupKey j) (dedupKey i)) l.
Proof.
  induction l as [|a l IH]; simpl; auto.
  now rewrite sameKey_eqb, IH.
Qed.

Lemma keyGroup_snoc (j x : Issue) (l : list Issue) :
  keyGroup j (l ++ [x]) =
  keyGroup j l ++ (if sameKey j x then [x] else []).
Proof. unfold keyGroup. rewrite filter_app. reflexivity. Qed.

Lemma canonical_snoc_other (j x : Issue) (l : list Issue) :
  sameKey j x = false -> canonical (l ++ [x]) j = canonical l j.
Proof.
  intros H. unfold canonical. now rewrite keyGroup_snoc, H, app_nil_r.
Qed.

Lemma firstOccurrences_snoc (l : list Issue) (x : Issue) :
  firstOccurrences (l ++ [x]) =
  firstOccurrences l ++ (if existsb (sameKey x) l then [] else [x]).
Proof. unfold firstOccurrences. now rewrite firstBy_snoc. Qed.

(** ** The loop invariant of [deduplicateIssues] *)

Lemma NoDup_snoc {A} (l : list A) (a : A) :
  NoDup l -> ~ In a l -> NoDup (l ++ [a]).
Proof.
  induction l as [|b l IH]; simpl; intros Hnd Hnot.
  - constructor; [tauto | constructor].
  - inversion Hnd; subst. constructor.
    + rewrite in_app_iff. simpl. intuition.
    + apply IH; auto.
Qed.

Lemma issues_of_set (k : string) (v o : DedupedIssue) (m : Map DedupedIssue) :
  get k m = Some o -> issue v = issue o ->
  map (fun e => issue (snd e)) (set k v m) = map (fun e => issue (snd e)) m.
Proof.
  induction m as [|[k' v'] m IH]; simpl; [discriminate|].
  destruct (String.eqb k' k); simpl; intros Hget Hv.
  - inversion Hget; subst. now rewrite Hv.
  - f_equal. now apply IH.
Qed.

Lemma dedupStep_present (l : list Issue) (seen : Map DedupedIssue)
      (x j0 : Issue) :
  dedupInvariant l seen ->
  find (fun j => String.eqb (dedupKey j) (dedupKey x)) l = Some j0 ->
  dedupStep seen x = set (dedupKey x) (canonical (l ++ [x]) j0) seen.
Proof.
  intros Inv Hfind. unfold dedupStep, has.
  rewrite (inv_get Inv), Hfind. simpl.
  f_equal. unfold canonical at 2.
  apply find_some in Hfind. destruct Hfind as [_ Hk].
  apply String.eqb_eq in Hk.
  assert (sameKey j0 x = true) as Hs by (apply sameKey_iff; auto).
  rewrite keyGroup_snoc, Hs, map_app. simpl.
  rewrite distinctDevices_snoc.
  destruct (includes (device x)
              (distinctDevices (map device (keyGroup j0 l)))); reflexivity.
Qed.

Lemma dedupStep_absent (l : list Issue) (seen : Map DedupedIssue) (x : Issue) :
  dedupInvariant l seen ->
  find (fun j => String.eqb (dedupKey j) (dedupKey x)) l = None ->
  dedupStep seen x = seen ++ [(dedupKey x, canonical (l ++ [x]) x)].
Proof.
  intros Inv Hfind. unfold dedupStep, has.
  pose proof (inv_get Inv (dedupKey x)) as Hget.
  rewrite Hfind in Hget. simpl in Hget. rewrite Hget.
  rewrite set_absent by assumption.
  do 3 f_equal. unfold canonical.
  rewrite keyGroup_snoc, sameKey_refl.
  unfold keyGroup. rewrite find_None_filter.
  - reflexivity.
  - now rewrite find_sameKey.
Qed.

Lemma dedupInvariant_step (l : list Issue) (seen : Map DedupedIssue) (x : Issue) :
  dedupInvariant l seen -> dedupInvariant (l ++ [x]) (dedupStep seen x).
Proof.
  intros Inv.
  assert (forall k, k <> dedupKey x ->
            option_map (canonical (l ++ [x]))
              (find (fun j => String.eqb (dedupKey j) k) (l ++ [x])) =
            option_map (canonical l)
              (find (fun j => String.eqb (dedupKey j) k) l)) as Hother.
  { intros k Hk. rewrite find_snoc.
    destruct (find (fun j => String.eqb (dedupKey j) k) l) as [j|] eqn:Ej.
    - simpl. f_equal. apply canonical_snoc_other.
      apply find_some in Ej. destruct Ej as [_ Ej].
      apply String.eqb_eq in Ej.
      rewrite sameKey_eqb. apply String.eqb_neq. congruence.
    - destruct (String.eqb (dedupKey x) k) eqn:E; auto.
      apply String.eqb_eq in E. congruence. }
  destruct (find (fun j => String.eqb (dedupKey j) (dedupKey x)) l)
    as [j0|] eqn:Hfind.
  - rewrite (dedupStep_present x Inv Hfind).
    assert (get (dedupKey x) seen = Some (canonical l j0)) as Hget.
    { rewrite (inv_get Inv), Hfind. reflexivity. }
    constructor.
    + rewrite (keys_set_present _ _ _ Hget). apply (inv_keys Inv).
    + intros k. destruct (string_dec (dedupKey x) k) as [<-|Hne].
      * rewrite get_set_same, find_snoc, Hfind. reflexivity.
      * rewrite get_set_other by assumption.
        rewrite Hother by congruence. apply (inv_get Inv).
    + rewrite (issues_of_set _ _ _ Hget) by reflexivity.
      rewrite (inv_order Inv), firstOccurrences_snoc.
      assert (existsb (sameKey x) l = true) as ->.
      { apply find_some in Hfind. destruct Hfind as [Hin Hk].
        apply existsb_exists. exists j0. split; auto.
        now rewrite sameKey_eqb. }
      now rewrite app_nil_r.
  - rewrite (dedupStep_absent x Inv Hfind).
    assert (get (dedupKey x) seen = None) as Hget.
    { rewrite (inv_get Inv), Hfind. reflexivity. }
    constructor.
    + unfold keys. rewrite map_app. simpl.
      apply NoDup_snoc; [apply (inv_keys Inv)|].
      now apply get_None_not_key.
    + intros k. rewrite <- (set_absent _ _ _ Hget).
      destruct (string_dec (dedupKey x) k) as [<-|Hne].
      * rewrite get_set_same, find_snoc, Hfind, String.eqb_refl. reflexivity.
      * rewrite get_set_other by assumption.
        rewrite Hother by congruence. apply (inv_get Inv).
    + rewrite map_app, (inv_order Inv), firstOccurrences_snoc. simpl.
      assert (existsb (sameKey x) l = false) as ->; [|reflexivity].
      apply find_None_existsb. now rewrite find_sameKey.
Qed.

Lemma dedupInvariant_fold (l : list Issue) :
  dedupInvariant l (fold_left dedupStep l []).
Proof.
  induction l as [|x l IH] using rev_ind.
  - constructor; simpl; auto. constructor.
  - rewrite fold_left_app. simpl. now apply dedupInvariant_step.
Qed.

(** [deduplicateIssues] in closed form: the first occurrence of every
    key, in input order, each with the distinct devices of its group. *)
Lemma deduplicateIssues_closed_form (issues : list Issue) :
  deduplicateIssues issues =
  map (canonical issues) (firstOccurrences issues).
Proof.
  unfold deduplicateIssues, values.
  pose proof (dedupInvariant_fold issues) as Inv.
  rewrite <- (inv_order Inv), map_map.
  apply map_ext_in. intros [k o] Hin. simpl.
  pose proof (get_of_entry _ _ _ (inv_keys Inv) Hin) as Hget.
  rewrite (inv_get Inv) in Hget.
  destruct (find (fun j => String.eqb (dedupKey j) k) issues); simpl in Hget;
    [|discriminate].
  inversion Hget. reflexivity.
Qed.

Lemma filter_map_swap {A B} (p : B -> bool) (f : A -> B) (l : list A) :
  filter p (map f l) = map f (filter (fun x => p (f x)) l).
Proof.
  induction l as [|a l IH]; simpl; auto.
  destruct (p (f a)); simpl; now rewrite IH.
Qed.

Lemma firstOccurrences_find (l : list Issue) (j : Issue) :
  In j (firstOccurrences l) -> find (sameKey j) l = Some j.
Proof.
  intros Hin.
  assert (In j (filter (sameKey j) (firstOccurrences l))) as Hf.
  { apply filter_In. split; auto. apply sameKey_refl. }
  unfold firstOccurrences in Hf.
  rewrite (filter_firstBy sameKey sameKey_sym sameKey_trans) in Hf.
  destruct (find (sameKey j) l) as [j0|]; simpl in Hf; [|contradiction].
  destruct Hf as [->|[]]. reflexivity.
Qed.

Lemma keyGroup_same (i j : Issue) (l : list Issue) :
  sameKey i j = true -> keyGroup j l = keyGroup i l.
Proof.
  intros H. unfold keyGroup. apply filter_ext. intros x.
  rewrite !sameKey_eqb. apply sameKey_iff in H. now rewrite H.
Qed.

(* ================================================================== *)
(** * De-duplication: the claims                                       *)
(* ================================================================== *)

(** C1.  [deduplicateIssues] groups the issues by the key (type,
    selector if present, otherwise title).  For every issue [i] of the
    input, the output holds exactly one issue with the key of [i]; its
    fields are those of the first input issue with that key; its
    [affected_devices] has no repeated label and holds exactly the
    devices of the issues with that key, so its length is the number
    of distinct devices among them: [k] when [k] issues come from [k]
    distinct devices, also when a device shows up twice. *)
Theorem deduplicateIssues_one_issue_per_key (issues : list Issue) (i : Issue) :
  In i issues ->
  exists first ds,
    find (sameKey i) issues = Some first /\
    filter (fun o => sameKey i (issue o)) (deduplicateIssues issues) =
      [ {| issue := first; affected_devices := Some ds |} ] /\
    NoDup ds /\
    (forall d, In d ds <-> In d (map device (keyGroup i issues))) /\
    length ds = length (nodup string_dec (map device (keyGroup i issues))) /\
    (NoDup (map device (keyGroup i issues)) ->
     length ds = length (keyGroup i issues)).
Proof.
  intros Hin.
  destruct (find (sameKey i) issues) as [first|] eqn:Hfind.
  2:{ apply find_None_existsb in Hfind.
      assert (existsb (sameKey i) issues = true); [|congruence].
      apply existsb_exists. exists i. split; auto. apply sameKey_refl. }
  pose proof (find_some _ _ Hfind) as [_ Hsame].
  exists first, (distinctDevices (map device (keyGroup i issues))).
  split; [reflexivity|]. split; [|split; [|split; [|split]]].
  - rewrite deduplicateIssues_closed_form, filter_map_swap. simpl.
    unfold firstOccurrences.
    rewrite (filter_firstBy sameKey sameKey_sym sameKey_trans), Hfind. simpl.
    unfold canonical. now rewrite (keyGroup_same i first).
  - apply distinctDevices_NoDup.
  - apply distinctDevices_In.
  - apply Permutation_length, NoDup_Permutation.
    + apply distinctDevices_NoDup.
    + apply NoDup_nodup.
    + intros d. rewrite distinctDevices_In, nodup_In. reflexivity.
  - intros Hnd. rewrite distinctDevices_of_NoDup by assumption.
    apply length_map.
Qed.

Lemma deduplicateIssues_one_issue_per_key_witness :
  exists first ds,
    find (sameKey (Examples.overflowOn "iPad" "#hero")) Examples.sightings
      = Some first /\
    filter (fun o => sameKey (Examples.overflowOn "iPad" "#hero") (issue o))
           (deduplicateIssues Examples.sightings) =
      [ {| issue := first; affected_devices := Some ds |} ] /\
    NoDup ds /\
    (forall d, In d ds <->
       In d (map device (keyGroup (Examples.overflowOn "iPad" "#hero")
                                  Examples.sightings))) /\
    length ds =
      length (nodup string_dec
                (map device (keyGroup (Examples.overflowOn "iPad" "#hero")
                                      Examples.sightings))) /\
    (NoDup (map device (keyGroup (Examples.overflowOn "iPad" "#hero")
                                 Examples.sightings)) ->
     length ds = length (keyGroup (Examples.overflowOn "iPad" "#hero")
                                  Examples.sightings)).
Proof.
  apply (deduplicateIssues_one_issue_per_key
           Examples.sightings (Examples.overflowOn "iPad" "#hero")).
  simpl. right. right. right. right. left. reflexivity.
Defined.

(** Four sightings of one key on three devices give one issue with
    three devices; the other key keeps its own issue. *)
Example deduplicateIssues_sightings :
  map (fun o => (device (issue o), affected_devices o))
      (deduplicateIssues Examples.sightings) =
  [ ("iPhone 14 Pro", Some ["iPhone 14 Pro"; "Desktop 1080p"; "iPad"]);
    ("Desktop 1080p", Some ["Desktop 1080p"]) ].
Proof. reflexivity. Qed.

(** C10.  [deduplicateIssues] keeps the order of first occurrence: the
    output issues are, in this order, the input issues that are the
    first of their key, and each output issue is the first input issue
    with its key, so its [device] is the device of that first
    occurrence. *)
Theorem deduplicateIssues_first_occurrence_order (issues : list Issue) :
  map issue (deduplicateIssues issues) = firstOccurrences issues /\
  Forall (fun o =>
            find (sameKey (issue o)) issues = Some (issue o) /\
            option_map device (find (sameKey (issue o)) issues)
              = Some (device (issue o)))
         (deduplicateIssues issues).
Proof.
  rewrite deduplicateIssues_closed_form. split.
  - rewrite map_map. simpl. apply map_id.
  - apply Forall_forall. intros o Ho.
    apply in_map_iff in Ho. destruct Ho as [j [<- Hj]]. simpl.
    rewrite (firstOccurrences_find _ _ Hj). split; reflexivity.
Qed.

(** What [firstOccurrences] keeps of a list that ends in [x]. *)
Lemma firstOccurrences_last (l : list Issue) (x : Issue) :
  firstOccurrences (l ++ [x]) =
  if existsb (sameKey x) l
  then firstOccurrences l
  else firstOccurrences l ++ [x].
Proof.
  rewrite firstOccurrences_snoc.
  destruct (existsb (sameKey x) l); auto using app_nil_r.
Qed.

(* ================================================================== *)
(** * Loops that may throw                                             *)
(* ================================================================== *)

Lemma forOf_threw {S X} (xs : list X) (body : X -> S -> EvalResult S)
      (message : string) :
  fold_left
    (fun acc x =>
       match acc with
       | Returned s' => body x s'
       | Threw m => Threw m
       end) xs (Threw message) = Threw message.
Proof. induction xs as [|x xs IH]; simpl; auto. Qed.

Lemma forOf_cons {S X} (x : X) (xs : list X) (body : X -> S -> EvalResult S)
      (s : S) :
  forOf (x :: xs) body s =
  match body x s with
  | Returned s' => forOf xs body s'
  | Threw message => Threw message
  end.
Proof.
  unfold forOf. simpl. destruct (body x s); auto using forOf_threw.
Qed.

Lemma forOf_app {S X} (xs ys : list X) (body : X -> S -> EvalResult S) (s : S) :
  forOf (xs ++ ys) body s =
  match forOf xs body s with
  | Returned s' => forOf ys body s'
  | Threw message => Threw message
  end.
Proof.
  revert s. induction xs as [|x xs IH]; intros s; simpl.
  - reflexivity.
  - rewrite !forOf_cons. destruct (body x s); auto.
Qed.

Lemma forOf_ext {S X} (xs : list X) (body1 body2 : X -> S -> EvalResult S) :
  (forall x s, body1 x s = body2 x s) ->
  forall s, forOf xs body1 s = forOf xs body2 s.
Proof.
  intros Hext. induction xs as [|x xs IH]; intros s; auto.
  rewrite !forOf_cons, Hext. destruct (body2 x s); auto.
Qed.

Lemma forOf_map {S X Y} (f : X -> Y) (xs : list X)
      (body : Y -> S -> EvalResult S) (s : S) :
  forOf (map f xs) body s = forOf xs (fun x => body (f x)) s.
Proof.
  revert s. induction xs as [|x xs IH]; intros s; auto.
  simpl. rewrite !forOf_cons. destruct (body (f x) s); auto.
Qed.

Lemma forOf_flat_map {S X Y} (f : X -> list Y) (xs : list X)
      (body : Y -> S -> EvalResult S) (s : S) :
  forOf (flat_map f xs) body s = forOf xs (fun x => forOf (f x) body) s.
Proof.
  revert s. induction xs as [|x xs IH]; intros s; auto.
  simpl. rewrite forOf_app, forOf_cons. destruct (forOf (f x) body s); auto.
Qed.

(** A property of the state that every iteration keeps holds at the
    end of the loop. *)
Lemma forOf_preserves {S X} (P : S -> Prop) (xs : list X)
      (body : X -> S -> EvalResult S) :
  (forall x s s', P s -> body x s = Returned s' -> P s') ->
  forall s s', P s -> forOf xs body s = Returned s' -> P s'.
Proof.
  intros Hstep. induction xs as [|x xs IH]; intros s s' Hs Hrun.
  - unfold forOf in Hrun. simpl in Hrun. inversion Hrun. subst. exact Hs.
  - rewrite forOf_cons in Hrun.
    destruct (body x s) as [|s1] eqn:E; [discriminate|].
    apply (IH s1 s'); [exact (Hstep x s s1 Hs E) | exact Hrun].
Qed.

(** The three nested loops of [checkPage] visit the matrix in order. *)
Lemma loops_visit_matrix {S} (colorSchemes browsers : list string)
      (devices : list Device)
      (body : string -> string -> Device -> S -> EvalResult S) (s : S) :
  forOf colorSchemes
    (fun colorScheme =>
       forOf browsers (fun browserType => forOf devices (body colorScheme browserType)))
    s =
  forOf (matrix colorSchemes browsers devices)
        (fun t => body (fst (fst t)) (snd (fst t)) (snd t)) s.
Proof.
  unfold matrix. rewrite forOf_flat_map.
  apply forOf_ext. intros colorScheme s'.
  rewrite forOf_flat_map.
  apply forOf_ext. intros browserType s''.
  now rewrite forOf_map.
Qed.

(* ================================================================== *)
(** * The detector                                                     *)
(* ================================================================== *)

Lemma insertSorted_In {A} (cmp : A -> A -> Z) (x y : A) (l : list A) :
  In y (insertSorted cmp x l) <-> y = x \/ In y l.
Proof.
  induction l as [|a l IH]; simpl.
  - intuition.
  - destruct (cmp x a <=? 0)%Z; simpl; [intuition|].
    rewrite IH. intuition.
Qed.

Lemma sort_In {A} (cmp : A -> A -> Z) (y : A) (l : list A) :
  In y (sort cmp l) <-> In y l.
Proof.
  induction l as [|a l IH]; simpl; [tauto|].
  rewrite insertSorted_In, IH. intuition.
Qed.

Lemma insertSorted_length {A} (cmp : A -> A -> Z) (x : A) (l : list A) :
  length (insertSorted cmp x l) = S (length l).
Proof.
  induction l as [|a l IH]; simpl; auto.
  destruct (cmp x a <=? 0)%Z; simpl; auto.
Qed.

Lemma sort_length {A} (cmp : A -> A -> Z) (l : list A) :
  length (sort cmp l) = length l.
Proof.
  induction l as [|a l IH]; simpl; auto.
  now rewrite insertSorted_length, IH.
Qed.

Lemma detectIssues_verdict `{Engine} (page : Page) (dev : Device) :
  Forall verdictConsistent (detectIssues page dev).
Proof.
  apply Forall_forall. intros i Hi.
  unfold detectIssues, prioritizeIssues in Hi. apply sort_In in Hi.
  destruct (Device.is_mobile dev || Device.has_touch dev);
    repeat rewrite in_app_iff in Hi;
    repeat match type of Hi with _ \/ _ => destruct Hi as [Hi|Hi] end;
    unfold checkHorizontalScroll, checkOverflow, checkTouchTargets,
      checkContrast, checkFontSize, checkImageAlt, checkOverlap, push in Hi;
    repeat match type of Hi with
           | context [hasHorizontalScroll page] =>
               destruct (hasHorizontalScroll page) as [|[|]]
           | context [overflowingElement page] =>
               destruct (overflowingElement page)
           | context [match ?x with _ => _ end] => destruct x
           end;
    simpl in Hi;
    try contradiction;
    try (destruct Hi as [<-|[]]; reflexivity);
    apply in_map_iff in Hi; destruct Hi as [e [<- _]]; reflexivity.
Qed.

(* ================================================================== *)
(** * checkPage                                                        *)
(* ================================================================== *)

Lemma countIf_snoc {A} (p : A -> bool) (l : list A) (x : A) :
  countIf p (l ++ [x]) = countIf p l + (if p x then 1 else 0).
Proof.
  unfold countIf. rewrite filter_app, length_app. simpl.
  destruct (p x); reflexivity.
Qed.

Lemma countIf_split {A} (p : A -> bool) (l : list A) :
  countIf (fun x => negb (p x)) l + countIf p l = length l.
Proof.
  unfold countIf. induction l as [|a l IH]; simpl; auto.
  destruct (p a); simpl; lia.
Qed.

Lemma tagDarkMode_verdict (l : list Issue) :
  Forall verdictConsistent l -> Forall verdictConsistent (map tagDarkMode l).
Proof.
  intros Hl. apply Forall_forall. intros i Hi.
  apply in_map_iff in Hi. destruct Hi as [j [<- Hj]].
  exact (proj1 (Forall_forall _ _) Hl j Hj).
Qed.

Lemma runChecks_status (screenshot : nat) (metadata : Metadata) (dev : Device) :
  run_status (runChecks screenshot metadata dev) <> StatusError.
Proof.
  unfold runChecks, checkLayout. simpl.
  destruct (Nat.eqb (width (meta_viewport metadata))
                    (width (Device.viewport dev))); simpl; discriminate.
Qed.

Section CheckPageLoop.
Context `{Engine}.
Variables (world : World) (dir address : string).

(** The check record the [try] block pushes when nothing throws. *)
Lemma analyseTuple_step (colorScheme browserType : string) (dev : Device)
      (run : TupleRun) (cap : Capture) (st : LoopState) :
  let st' := analyseTuple dir address colorScheme browserType dev run cap st in
  exists c extra,
    checks (results st') = checks (results st) ++ [c] /\
    Check.colorScheme c = colorScheme /\
    Check.browser c = browserType /\
    Check.device_id c = Device.id dev /\
    Check.device c = deviceLabel colorScheme dev /\
    Check.status c <> StatusError /\
    Check.error c = None /\
    allIssues st' = allIssues st ++ extra /\
    Forall verdictConsistent extra /\
    visited st' = visited st /\
    Summary.total (summary (results st'))
      = S (Summary.total (summary (results st))) /\
    Summary.passed (summary (results st'))
    + Summary.failed (summary (results st'))
    + Summary.warnings (summary (results st'))
      = S (Summary.passed (summary (results st))
           + Summary.failed (summary (results st))
           + Summary.warnings (summary (results st))) /\
    Summary.failed (summary (results st))
      <= Summary.failed (summary (results st')).
Proof.
  simpl. eexists. eexists. repeat split.
  - apply runChecks_status.
  - destruct (String.eqb colorScheme "dark").
    + apply tagDarkMode_verdict, detectIssues_verdict.
    + apply detectIssues_verdict.
  - destruct (existsb _ _); simpl; [lia|].
    destruct (existsb _ _); simpl; lia.
  - destruct (existsb _ _); simpl; [lia|].
    destruct (existsb _ _); simpl; lia.
Qed.

(** One iteration of the innermost loop that does not leave
    [checkPage]. *)
Lemma processTuple_step (colorScheme browserType : string) (dev : Device)
      (st st' : LoopState) :
  processTuple world dir address colorScheme browserType dev st = Returned st' ->
  visited st' = S (visited st) /\
  exists c extra,
    checks (results st') = checks (results st) ++ [c] /\
    recorded world (visited st) (colorScheme, browserType, dev) c /\
    allIssues st' = allIssues st ++ extra /\
    Forall verdictConsistent extra /\
    Summary.total (summary (results st'))
      = (if isError c then 0 else 1) + Summary.total (summary (results st)) /\
    Summary.passed (summary (results st'))
    + Summary.failed (summary (results st'))
    + Summary.warnings (summary (results st'))
      = S (Summary.passed (summary (results st))
           + Summary.failed (summary (results st))
           + Summary.warnings (summary (results st))) /\
    (if isError c then 1 else 0) + Summary.failed (summary (results st))
      <= Summary.failed (summary (results st')).
Proof.
  unfold processTuple, recorded, tupleThrows, isError.
  set (st1 := {| results := results st; allIssues := allIssues st;
                 visited := S (visited st) |}).
  assert (forall message,
    let st2 := catchError colorScheme browserType dev message st1 in
    visited st2 = S (visited st) /\
    exists c extra,
      checks (results st2) = checks (results st) ++ [c] /\
      (Check.colorScheme c = colorScheme /\
       Check.browser c = browserType /\
       Check.device_id c = Device.id dev /\
       Check.device c = deviceLabel colorScheme dev /\
       Check.status c = StatusError /\ Check.error c = Some message) /\
      allIssues st2 = allIssues st ++ extra /\
      Forall verdictConsistent extra /\
      Summary.total (summary (results st2))
        = (if Status_eqb (Check.status c) StatusError then 0 else 1)
          + Summary.total (summary (results st)) /\
      Summary.passed (summary (results st2))
      + Summary.failed (summary (results st2))
      + Summary.warnings (summary (results st2))
        = S (Summary.passed (summary (results st))
             + Summary.failed (summary (results st))
             + Summary.warnings (summary (results st))) /\
      (if Status_eqb (Check.status c) StatusError then 1 else 0)
      + Summary.failed (summary (results st))
        <= Summary.failed (summary (results st2))) as Hcatch.
  { intros message. simpl. split; [reflexivity|].
    eexists. exists []. simpl. rewrite app_nil_r.
    repeat split; auto; lia. }
  destruct (capture (world (visited st))) as [m|cap].
  - intros Hrun. inversion Hrun; subst. apply Hcatch.
  - destruct (close (world (visited st))); [discriminate|].
    intros Hrun. inversion Hrun; subst. clear Hrun.
    destruct (saveScreenshot (world (visited st))) as [m|?];
      [apply Hcatch|].
    destruct (detectorException (world (visited st))) as [m|];
      [apply Hcatch|].
    destruct (analyseTuple_step colorScheme browserType dev
                (world (visited st)) cap st1)
      as [c [extra (Hc & H1 & H2 & H3 & H4 & H5 & H6 & H7 & H8 & H9 & H10 & H11 & H12)]].
    split; [exact H9|].
    exists c, extra. repeat split; auto.
    + rewrite H10.
      destruct (Check.status c); simpl; auto. congruence.
    + destruct (Check.status c); simpl; auto; try lia. congruence.
Qed.

(** An iteration returns whenever closing the browser does. *)
Lemma processTuple_returns (colorScheme browserType : string) (dev : Device)
      (st : LoopState) :
  close (world (visited st)) = Returned tt ->
  exists st', processTuple world dir address colorScheme browserType dev st
              = Returned st'.
Proof.
  intros Hclose. unfold processTuple. rewrite Hclose.
  destruct (capture (world (visited st))); eexists; reflexivity.
Qed.

Lemma loop_counts (ts : list (string * string * Device)) (st st' : LoopState) :
  summaryCounts (results st) ->
  forOf ts (tupleBody world dir address) st = Returned st' ->
  summaryCounts (results st').
Proof.
  apply (forOf_preserves (fun s => summaryCounts (results s))).
  clear st st'. intros [[cs b] d] st st' Hinv Hrun.
  apply processTuple_step in Hrun.
  destruct Hrun as [_ [c [extra (Hc & _ & _ & _ & Ht & Hsum & Hf)]]].
  unfold summaryCounts in *. rewrite Hc, !countIf_snoc.
  destruct Hinv as (I1 & I2 & I3).
  destruct (isError c); simpl in *; lia.
Qed.

Lemma loop_verdicts (ts : list (string * string * Device)) (st st' : LoopState) :
  Forall verdictConsistent (allIssues st) ->
  forOf ts (tupleBody world dir address) st = Returned st' ->
  Forall verdictConsistent (allIssues st').
Proof.
  apply (forOf_preserves (fun s => Forall verdictConsistent (allIssues s))).
  clear st st'. intros [[cs b] d] st st' Hinv Hrun.
  apply processTuple_step in Hrun.
  destruct Hrun as [_ [c [extra (_ & _ & Hall & Hextra & _)]]].
  rewrite Hall. apply Forall_app. split; assumption.
Qed.

Lemma loop_records (ts : list (string * string * Device)) (st : LoopState) :
  (forall n, close (world n) = Returned tt) ->
  exists st' cs,
    forOf ts (tupleBody world dir address) st = Returned st' /\
    checks (results st') = checks (results st) ++ cs /\
    Forall2 (fun nt c => recorded world (fst nt) (snd nt) c)
            (combine (seq (visited st) (length ts)) ts) cs.
Proof.
  intros Hclose. revert st.
  induction ts as [|[[colorScheme browserType] dev] ts IH]; intros st.
  - exists st, []. rewrite app_nil_r. repeat split. constructor.
  - destruct (processTuple_returns colorScheme browserType dev st
                (Hclose (visited st))) as [st1 Hst1].
    destruct (processTuple_step _ _ _ _ Hst1)
      as [Hvisit [c [extra (Hc & Hrec & _)]]].
    destruct (IH st1) as [st' [cs (Hrun & Hcs & Hall)]].
    exists st', (c :: cs). rewrite forOf_cons.
    unfold tupleBody at 1. simpl. rewrite Hst1.
    split; [exact Hrun|]. split.
    + rewrite Hcs, Hc, <- app_assoc. reflexivity.
    + constructor; [exact Hrec|]. now rewrite <- Hvisit.
Qed.
End CheckPageLoop.

Lemma checkPage_returned `{Engine} (this : VisualQAAgent) (world : World)
      (address profileName : string) (checkDarkMode : bool) (res : CheckResult) :
  checkPage this world address profileName checkDarkMode = Returned res ->
  exists devs browserTypes st,
    getDevicesForProfile (agent_devices this) profileName
      = Returned (devs, browserTypes) /\
    forOf (matrix (if checkDarkMode then ["light"; "dark"] else ["light"])
                  browserTypes devs)
          (tupleBody world (reportsPath this) address)
          {| results := newResults address profileName;
             allIssues := [];
             visited := 0 |} = Returned st /\
    res = finishResults (results st) (allIssues st).
Proof.
  unfold checkPage.
  destruct (getDevicesForProfile (agent_devices this) profileName)
    as [|[devs browserTypes]]; [discriminate|].
  rewrite loops_visit_matrix. fold (tupleBody world (reportsPath this) address).
  match goal with
  | |- context [forOf ?m ?body ?s] => destruct (forOf m body s) as [|st] eqn:Hrun
  end; [discriminate|].
  intros Hres. inversion Hres; subst.
  exists devs, browserTypes, st. repeat split. exact Hrun.
Qed.

Lemma newResults_counts (address profileName : string) :
  summaryCounts (newResults address profileName).
Proof. unfold summaryCounts, countIf. simpl. repeat split; lia. Qed.

Lemma deduplicateIssues_incl (l : list Issue) (o : DedupedIssue) :
  In o (deduplicateIssues l) -> In (issue o) l.
Proof.
  rewrite deduplicateIssues_closed_form. intros Ho.
  apply in_map_iff in Ho. destruct Ho as [j [<- Hj]]. simpl.
  unfold firstOccurrences in Hj. eapply firstBy_incl; eauto.
Qed.

(** C2.  In every result of [checkPage], [summary.blocks_release] is
    true exactly when some issue of the de-duplicated list has
    [blocks_release = true]; and when no issue of that list is
    critical it is false, whatever the number of warnings. *)
Theorem checkPage_blocks_release `{Engine} (this : VisualQAAgent)
        (world : World) (address profileName : string) (checkDarkMode : bool)
        (res : CheckResult) :
  checkPage this world address profileName checkDarkMode = Returned res ->
  (Summary.blocks_release (summary res) = true <->
   exists i, In i (issues res) /\ blocks_release (issue i) = true) /\
  ((forall i, In i (issues res) -> severity (issue i) <> Critical) ->
   Summary.blocks_release (summary res) = false).
Proof.
  intros Hres. apply checkPage_returned in Hres.
  destruct Hres as [devs [browserTypes [st (_ & Hrun & ->)]]].
  unfold finishResults. simpl. split.
  - apply existsb_exists.
  - intros Hnone.
    destruct (existsb (fun i => blocks_release (issue i))
                      (deduplicateIssues (allIssues st))) eqn:E; auto.
    apply existsb_exists in E. destruct E as [o [Ho Hblocks]].
    exfalso. apply (Hnone o Ho).
    assert (Forall verdictConsistent (allIssues st)) as Hall.
    { eapply loop_verdicts; [|exact Hrun]. constructor. }
    pose proof (proj1 (Forall_forall _ _) Hall _ (deduplicateIssues_incl _ _ Ho))
      as Hv.
    unfold verdictConsistent in Hv. rewrite Hblocks in Hv.
    destruct (severity (issue o)); simpl in Hv; congruence.
Qed.

Lemma checkPage_blocks_release_witness :
  (Summary.blocks_release (summary Examples.report) = true <->
   exists i, In i (issues Examples.report) /\ blocks_release (issue i) = true) /\
  ((forall i, In i (issues Examples.report) -> severity (issue i) <> Critical) ->
   Summary.blocks_release (summary Examples.report) = false).
Proof.
  apply (@checkPage_blocks_release Examples.engine Examples.agent Examples.world
           "https://example.org" "standard" true Examples.report).
  vm_compute. reflexivity.
Defined.

(** C3, as amended.  Whenever the profile resolves and no
    [browser.close()] of the [finally] block rejects, [checkPage]
    returns a result whose check records are, in matrix order, exactly
    one per tuple (colorScheme, browser, device); the record of a tuple
    whose processing threw (navigation timeout, screenshot, detector)
    has status ['error'] and carries the message, and the tuples after
    it are processed all the same. *)
Theorem checkPage_one_record_per_tuple `{Engine} (this : VisualQAAgent)
        (world : World) (address profileName : string) (checkDarkMode : bool)
        (devs : list Device) (browserTypes : list string) :
  getDevicesForProfile (agent_devices this) profileName
    = Returned (devs, browserTypes) ->
  (forall n, close (world n) = Returned tt) ->
  let tuples :=
    matrix (if checkDarkMode then ["light"; "dark"] else ["light"])
           browserTypes devs in
  exists res,
    checkPage this world address profileName checkDarkMode = Returned res /\
    length (checks res) = length tuples /\
    Forall2 (fun nt c => recorded world (fst nt) (snd nt) c)
            (combine (seq 0 (length tuples)) tuples) (checks res).
Proof.
  intros Hprofile Hclose tuples.
  destruct (loop_records world (reportsPath this) address tuples
              {| results := newResults address profileName;
                 allIssues := [];
                 visited := 0 |} Hclose)
    as [st [cs (Hrun & Hcs & Hall)]].
  simpl in Hcs, Hall.
  exists (finishResults (results st) (allIssues st)).
  split; [|split].
  - unfold checkPage. rewrite Hprofile, loops_visit_matrix.
    fold (tupleBody world (reportsPath this) address).
    fold tuples. now rewrite Hrun.
  - simpl. rewrite Hcs.
    apply Forall2_length in Hall.
    rewrite length_combine, length_seq, Nat.min_id in Hall. now symmetry.
  - simpl. now rewrite Hcs.
Qed.

Lemma checkPage_one_record_per_tuple_witness :
  exists res,
    @checkPage Examples.engine Examples.agent Examples.world
               "https://example.org" "standard" true
      = Returned res /\
    length (checks res) = 4 /\
    Forall2 (fun nt c => recorded Examples.world (fst nt) (snd nt) c)
            [ (0, ("light", "chromium", Examples.iphone));
              (1, ("light", "chromium", Examples.desktop));
              (2, ("dark", "chromium", Examples.iphone));
              (3, ("dark", "chromium", Examples.desktop)) ]
            (checks res).
Proof.
  apply (@checkPage_one_record_per_tuple Examples.engine Examples.agent
           Examples.world "https://example.org" "standard" true
           [Examples.iphone; Examples.desktop] ["chromium"]).
  - reflexivity.
  - intros [|[|n]]; reflexivity.
Defined.

(** C3, as the claim states it, fails where [browser.close()] rejects.
    The call stands in the [finally] block, outside the [catch]: in the
    world of [ClosingExamples] the profile resolves to a matrix of two
    tuples, the first page is captured and checked without a failure,
    its browser does not close, and [checkPage] throws.  No result is
    returned, so none with one record per tuple. *)
Lemma checkPage_close_rejects_no_result :
  getDevicesForProfile (agent_devices Examples.agent) "standard"
    = Returned ([Examples.iphone; Examples.desktop], ["chromium"]) /\
  length (matrix ["light"] ["chromium"] [Examples.iphone; Examples.desktop]) = 2 /\
  @checkPage Examples.engine Examples.agent ClosingExamples.world
             "https://example.org" "standard" false
    = Threw "browser.close: Connection closed" /\
  ~ (exists res,
       @checkPage Examples.engine Examples.agent ClosingExamples.world
                  "https://example.org" "standard" false
         = Returned res /\
       length (checks res)
         = length (matrix ["light"] ["chromium"]
                          [Examples.iphone; Examples.desktop]) /\
       Forall2 (fun nt c => recorded ClosingExamples.world (fst nt) (snd nt) c)
               [ (0, ("light", "chromium", Examples.iphone));
                 (1, ("light", "chromium", Examples.desktop)) ]
               (checks res)).
Proof.
  assert (@checkPage Examples.engine Examples.agent ClosingExamples.world
                     "https://example.org" "standard" false
          = Threw "browser.close: Connection closed") as Hthrows
    by (vm_compute; reflexivity).
  repeat split; try reflexivity; try exact Hthrows.
  intros [res [Hres _]]. rewrite Hthrows in Hres. discriminate.
Qed.

(** The second tuple of the example times out; its record says so and
    the two dark-mode tuples after it are still there. *)
Example checkPage_example_records :
  map (fun c => (Check.device c, Check.status c, Check.error c))
      (checks Examples.report) =
  [ ("iPhone 14 Pro", StatusPassed, None);
    ("Desktop 1080p", StatusError, Some "page.goto: Timeout 30000ms exceeded.");
    ("iPhone 14 Pro (Dark)", StatusPassed, None);
    ("Desktop 1080p (Dark)", StatusPassed, None) ].
Proof. reflexivity. Qed.



(** Four tuples, one of them in error: [total] is 3 while the three
    counters add up to 4. *)
Example checkPage_example_summary :
  summary Examples.report =
  {| Summary.total := 3;
     Summary.passed := 2;
     Summary.failed := 2;
     Summary.warnings := 0;
     Summary.blocks_release := true |}.
Proof. reflexivity. Qed.

(* ================================================================== *)
(** * checkContrast                                                    *)
(* ================================================================== *)

Section Contrast.
Context `{Engine}.
Local Open Scope float_scope.
Local Set Warnings "-inexact-float".

Lemma contrastVisit_flagged (results : list (Element * float)) (el : TextElement) :
  map fst (contrastVisit results el) =
  map fst results ++ (if lowContrast el then [described el] else []).
Proof.
  unfold contrastVisit, lowContrast, contrastRatioOf, push.
  destruct (parseColor (style_color el)) as [color|];
    [|now rewrite app_nil_r].
  destruct (parseColor (style_backgroundColor el)) as [bgColor|];
    [|now rewrite app_nil_r].
  destruct (0 <? r bgColor + g bgColor + b bgColor);
    [|now rewrite app_nil_r].
  rewrite (andb_comm (1 <? _)).
  destruct (_ && _); [|now rewrite app_nil_r].
  now rewrite map_app.
Qed.

Lemma contrastVisit_fold (els : list TextElement)
      (results : list (Element * float)) :
  map fst (fold_left contrastVisit els results) =
  map fst results ++ map described (filter lowContrast els).
Proof.
  revert results. induction els as [|el els IH]; intros results; simpl.
  - now rewrite app_nil_r.
  - rewrite IH, contrastVisit_flagged, <- app_assoc.
    destruct (lowContrast el); reflexivity.
Qed.

Lemma lowContrastScript_flagged (els : list TextElement) :
  map fst (lowContrastScript els) =
  map described (firstn 5 (filter lowContrast els)).
Proof.
  unfold lowContrastScript, slice0.
  rewrite <- firstn_map, contrastVisit_fold.
  change (map fst (@nil (Element * float)) ++ ?x) with x.
  apply firstn_map.
Qed.

(** C5.  When the script of [checkContrast] runs over the text elements
    [els], an element is flagged exactly when both colours parse, the
    background has [r + g + b > 0] and the contrast ratio
    [(Lmax + 0.05) / (Lmin + 0.05)] of the two relative luminances
    [0.2126 R + 0.7152 G + 0.0722 B] satisfies [1 < ratio < 4.5]; a
    ratio of exactly 4.5 does not flag; the findings reported are those
    of the flagged elements in document order, cut after five, so that
    every flagged element is reported when there are at most five. *)
Theorem checkContrast_reports (dev : Device) (page : Page)
        (els : list TextElement) :
  textElements page = Returned els ->
  checkContrast dev page =
    map (fun el => contrastIssue dev (described el))
        (firstn 5 (filter lowContrast els)) /\
  length (checkContrast dev page) <= 5 /\
  (length (filter lowContrast els) <= 5 ->
   checkContrast dev page =
     map (fun el => contrastIssue dev (described el)) (filter lowContrast els)) /\
  (forall el,
     lowContrast el = true <->
     exists ratio, contrastRatioOf el = Some ratio /\
                   (1 <? ratio) = true /\ (ratio <? 4.5) = true) /\
  (forall el, contrastRatioOf el = Some 4.5 -> lowContrast el = false) /\
  (forall l1 l2,
     getContrastRatio l1 l2 = (Math_max l1 l2 + 0.05) / (Math_min l1 l2 + 0.05)) /\
  (forall red green blue,
     getLuminance red green blue =
     0.2126 * linearize red + 0.7152 * linearize green + 0.0722 * linearize blue).
Proof.
  intros Hels.
  assert (checkContrast dev page =
          map (fun el => contrastIssue dev (described el))
              (firstn 5 (filter lowContrast els))) as Hreport.
  { unfold checkContrast. rewrite Hels.
    rewrite <- (map_map fst (contrastIssue dev)), lowContrastScript_flagged.
    now rewrite map_map. }
  split; [exact Hreport|]. split; [|split; [|split; [|split; [|split]]]].
  - rewrite Hreport, length_map. apply firstn_le_length.
  - intros Hfew. rewrite Hreport. now rewrite firstn_all2.
  - intros el. unfold lowContrast.
    destruct (contrastRatioOf el) as [ratio|].
    + rewrite andb_true_iff. split.
      * intros [H1 H2]. exists ratio. auto.
      * intros [ratio' (Heq & H1 & H2)]. inversion Heq; subst. auto.
    + split; [discriminate|]. intros [ratio' (Heq & _)]. discriminate.
  - intros el Hratio. unfold lowContrast. rewrite Hratio. reflexivity.
  - reflexivity.
  - reflexivity.
Qed.
End Contrast.

Lemma checkContrast_reports_witness :
  @checkContrast Examples.engine Examples.iphone Examples.textPage =
    map (fun el => contrastIssue Examples.iphone (described el))
        (firstn 5 (filter (@lowContrast Examples.engine) Examples.paragraphs)) /\
  length (@checkContrast Examples.engine Examples.iphone Examples.textPage) <= 5.
Proof.
  destruct (@checkContrast_reports Examples.engine Examples.iphone
              Examples.textPage Examples.paragraphs) as (H1 & H2 & _).
  - reflexivity.
  - split; [exact H1 | exact H2].
Defined.

(** Of seven paragraphs one stands on a background whose channels add
    up to zero and six have a ratio of about 1.05: the first five of
    the six are reported. *)
Example checkContrast_example :
  map fix_target
      (@checkContrast Examples.engine Examples.iphone Examples.textPage)
  = ["#p1"; "#p3"; "#p4"; "#p5"; "#p6"].
Proof. vm_compute. reflexivity. Qed.

(* ================================================================== *)
(** * Issue ids                                                        *)
(* ================================================================== *)

Lemma string_length_append (s t : string) :
  String.length (s ++ t) = String.length s + String.length t.
Proof. induction s as [|c s IH]; simpl; auto. Qed.

Lemma string_append_cancel_r (s1 s2 t : string) :
  (s1 ++ t)%string = (s2 ++ t)%string -> s1 = s2.
Proof.
  revert s2. induction s1 as [|c s1 IH]; intros [|c2 s2] Heq; simpl in Heq.
  - reflexivity.
  - apply (f_equal String.length) in Heq. simpl in Heq.
    rewrite string_length_append in Heq. lia.
  - apply (f_equal String.length) in Heq. simpl in Heq.
    rewrite string_length_append in Heq. lia.
  - inversion Heq; subst. f_equal. now apply IH.
Qed.

(** The ids of [checkTouchTargets], [checkContrast] and [checkFontSize]
    contain the selector: on one device, different selectors give
    different ids. *)
Lemma selector_ids_distinct (dev : Device) (a b : Element) :
  selector a <> selector b ->
  id (touchTargetIssue dev a) <> id (touchTargetIssue dev b) /\
  id (contrastIssue dev a) <> id (contrastIssue dev b) /\
  id (fontSizeIssue dev a) <> id (fontSizeIssue dev b).
Proof.
  intros Hne. simpl. repeat split; intros Heq; apply Hne;
    inversion Heq as [Htail];
    apply (string_append_cancel_r _ _ ("-" ++ Device.id dev)%string);
    exact Htail.
Qed.

(** The id of [checkImageAlt] is made of the check and the device id
    only, whatever the image. *)
Lemma imageAltIssue_id (dev : Device) (a b : Element) :
  id (imageAltIssue dev a) = id (imageAltIssue dev b).
Proof. reflexivity. Qed.

(** C6 (the code differs).  On a page with two images without [alt],
    [#hero] and [#logo], [detectIssues] gives two issues of the same
    check on the same device with different target selectors and the
    same id. *)
Theorem detectIssues_image_ids_collide :
  map (fun i => (id i, fix_target i))
      (filter (fun i => Severity_eqb (severity i) Critical)
              (@detectIssues Examples.engine Examples.galleryPage Examples.iphone))
  = [ ("img-alt-iphone_14_pro", "#hero");
      ("img-alt-iphone_14_pro", "#logo") ].
Proof. vm_compute. reflexivity. Qed.

(* ================================================================== *)
(** * getDevicesForProfile                                             *)
(* ================================================================== *)

(** A profile name that is not in [test_profiles] is an error. *)
Lemma getDevicesForProfile_unknown_profile (cfg : DevicesConfig)
      (profileName : string) :
  lookup profileName (test_profiles cfg) = None ->
  exists message, getDevicesForProfile cfg profileName = Threw message.
Proof.
  intros Hnone. unfold getDevicesForProfile. rewrite Hnone. eexists. reflexivity.
Qed.

(** An id that no category has leaves the device list as it was. *)
Lemma pushFirstMatch_unknown (devicesList : list Device) (deviceId : string)
      (categories : list (Dict DeviceSpec)) :
  findDeviceById categories deviceId = None ->
  pushFirstMatch devicesList deviceId categories = devicesList.
Proof.
  induction categories as [|category rest IH]; simpl; auto.
  destruct (lookup deviceId category); [discriminate | exact IH].
Qed.

(** C7 (the code differs).  The profile ["with_unknown_id"] lists the
    ids [iphone_14_pro] and [pixel_99]; no category has [pixel_99].
    [getDevicesForProfile] returns, without an error, the device list
    that leaves the id out: the same list as for the profile that lists
    [iphone_14_pro] alone.  The single-device lookup finds nothing for
    that id, and an unknown profile name is an error. *)
Theorem getDevicesForProfile_omits_unknown_id :
  getDevicesForProfile Examples.config "with_unknown_id"
    = Returned ([Examples.iphone], ["chromium"]) /\
  getDevicesForProfile Examples.config "with_unknown_id"
    = getDevicesForProfile Examples.config "mobile_only" /\
  findDeviceById (values (device_profiles Examples.config)) "pixel_99" = None /\
  getDevicesForProfile Examples.config "no_such_profile"
    = Threw ("Профиль " ++ dquote ++ "no_such_profile" ++ dquote ++ " не найден").
Proof. repeat split. Qed.

(* ================================================================== *)
(** * PixelComparator.compare                                          *)
(* ================================================================== *)

(** C4.  For two images that load and whose widths or heights differ,
    [compare] returns the size-mismatch outcome with the two pairs of
    dimensions: an object without [match], [diffPixels] or
    [diffPercent].  The outcome does not depend on the pixel matcher,
    and no file is written. *)
Theorem compare_size_mismatch `{PixelMatch} (this : PixelComparator)
        (fs : FileSystem) (image1Path image2Path : string)
        (outputDiffPath : option string) (img1 img2 : Png.t) :
  loadPNG fs image1Path = Some img1 ->
  loadPNG fs image2Path = Some img2 ->
  Png.width img1 <> Png.width img2 \/ Png.height img1 <> Png.height img2 ->
  compare this fs image1Path image2Path outputDiffPath =
  Returned
    (SizeMismatch
       {| Dimensions.width := Png.width img1;
          Dimensions.height := Png.height img1 |}
       {| Dimensions.width := Png.width img2;
          Dimensions.height := Png.height img2 |}
       ("Размеры изображений различаются: "
        ++ showNat (Png.width img1) ++ "x" ++ showNat (Png.height img1)
        ++ " vs "
        ++ showNat (Png.width img2) ++ "x" ++ showNat (Png.height img2)),
     []).
Proof.
  intros H1 H2 Hsize. unfold compare. rewrite H1, H2.
  assert (negb (Nat.eqb (Png.width img1) (Png.width img2))
          || negb (Nat.eqb (Png.height img1) (Png.height img2)) = true) as ->.
  { apply orb_true_iff. rewrite !negb_true_iff, !Nat.eqb_neq. exact Hsize. }
  reflexivity.
Qed.

Lemma compare_size_mismatch_witness :
  @compare Examples.matcher Examples.comparator Examples.files
           "baseline/a.png" "current/a.png" (Some "diff/a.png") =
  Returned
    (SizeMismatch
       {| Dimensions.width := 2; Dimensions.height := 1 |}
       {| Dimensions.width := 1; Dimensions.height := 2 |}
       "Размеры изображений различаются: 2x1 vs 1x2",
     []).
Proof.
  apply (@compare_size_mismatch Examples.matcher Examples.comparator
           Examples.files "baseline/a.png" "current/a.png" (Some "diff/a.png")
           Examples.small Examples.tall).
  - reflexivity.
  - reflexivity.
  - left. simpl. lia.
Defined.

Lemma toFixed4_zero (totalPixels : nat) :
  (toFixed4 (inject_Z (Z.of_nat 0) / inject_Z (Z.of_nat totalPixels) * 100)
   == 0)%Q.
Proof.
  unfold toFixed4.
  assert ((inject_Z (Z.of_nat 0) / inject_Z (Z.of_nat totalPixels) * 100
           * 10000 + (1 # 2) == 1 # 2)%Q) as E.
  { simpl. unfold Qdiv. ring. }
  rewrite E. reflexivity.
Qed.

(** C8.  For an image that loads (it has at least one pixel) and a
    pixel matcher that finds no difference between a buffer and itself,
    [compare(A, A)] gives [match = true], [diffPixels = 0] and
    [diffPercent = 0]; [diffImagePath] is null and no diff file is
    written, whether or not an output path was given. *)
Theorem compare_identical `{PixelMatch} (this : PixelComparator)
        (fs : FileSystem) (imagePath : string)
        (outputDiffPath : option string) (img : Png.t) :
  loadPNG fs imagePath = Some img ->
  0 < Png.width img * Png.height img ->
  (forall data w h options, fst (pixelmatch data data w h options) = 0) ->
  exists percent,
    compare this fs imagePath imagePath outputDiffPath =
    Returned
      (Compared true 0 (Png.width img * Png.height img) (Some percent)
                {| Dimensions.width := Png.width img;
                   Dimensions.height := Png.height img |}
                None,
       []) /\
    (percent == 0)%Q.
Proof.
  intros Hload Hpixels Hsame.
  exists (toFixed4 (inject_Z (Z.of_nat 0)
                    / inject_Z (Z.of_nat (Png.width img * Png.height img))
                    * 100)).
  split; [|apply toFixed4_zero].
  unfold compare. rewrite Hload, !Nat.eqb_refl. simpl.
  pose proof (Hsame (Png.data img) (Png.width img) (Png.height img) this) as H0.
  destruct (pixelmatch (Png.data img) (Png.data img) (Png.width img)
                       (Png.height img) this) as [diffPixels diffData].
  simpl in H0. subst diffPixels.
  unfold percentOf.
  destruct (Nat.eqb (Png.width img * Png.height img) 0) eqn:E.
  { apply Nat.eqb_eq in E. lia. }
  simpl. destruct outputDiffPath as [path|]; [|reflexivity].
  now rewrite andb_false_r.
Qed.

Lemma countDiff_identical (data : list N) :
  fst (Examples.countDiff data data) = 0.
Proof.
  remember (length data) as n eqn:Hn. revert data Hn.
  induction n as [n IH] using lt_wf_ind.
  intros [|r1 [|g1 [|b1 [|a1 rest]]]] Hn; simpl; auto.
  rewrite !N.eqb_refl. simpl.
  pose proof (IH (length rest)) as IHrest.
  destruct (Examples.countDiff rest rest) as [k out] eqn:E. simpl.
  change k with (fst (k, out)). rewrite <- E.
  apply (IHrest); [subst n; simpl; lia | reflexivity].
Qed.

Lemma compare_identical_witness :
  exists percent,
    @compare Examples.matcher Examples.comparator Examples.files
             "baseline/a.png" "baseline/a.png" (Some "diff/a.png") =
    Returned
      (Compared true 0 2 (Some percent)
                {| Dimensions.width := 2; Dimensions.height := 1 |} None,
       []) /\
    (percent == 0)%Q.
Proof.
  apply (@compare_identical Examples.matcher Examples.comparator Examples.files
           "baseline/a.png" (Some "diff/a.png") Examples.small).
  - reflexivity.
  - simpl. lia.
  - intros data w h options. apply countDiff_identical.
Defined.

(** Two different images of one size do differ, and then the diff is
    written: the matcher of the examples is not the constant zero. *)
Example compare_example_different :
  let fs := {| loadPNG := fun filePath =>
                 if String.eqb filePath "a.png" then Some Examples.small
                 else Some {| Png.width := 2; Png.height := 1;
                              Png.data := Examples.redPixel ++ Examples.redPixel |};
               savePNG := fun _ _ => Returned tt |} in
  match @compare Examples.matcher Examples.comparator fs
                 "a.png" "b.png" (Some "diff.png") with
  | Returned (Compared matched diffPixels _ _ _ path, written) =>
      matched = false /\ diffPixels = 1 /\ path = Some "diff.png"
      /\ map fst written = ["diff.png"]
  | _ => False
  end.
Proof. vm_compute. repeat split. Qed.

(* ================================================================== *)
(** * prioritizeIssues                                                 *)
(* ================================================================== *)

Section StableSort.
Context {A : Type} (cmp : A -> A -> Z) (key : A -> nat).
Hypothesis cmp_key : forall x y, (cmp x y <=? 0)%Z = Nat.leb (key x) (key y).

Lemma insertSorted_Permutation (x : A) (l : list A) :
  Permutation (insertSorted cmp x l) (x :: l).
Proof.
  induction l as [|y l IH]; simpl; auto.
  destruct (cmp x y <=? 0)%Z; auto.
  rewrite IH. apply perm_swap.
Qed.

Lemma sort_Permutation (l : list A) : Permutation (sort cmp l) l.
Proof.
  induction l as [|x l IH]; simpl; auto.
  rewrite insertSorted_Permutation. now constructor.
Qed.

Lemma insertSorted_sorted (x : A) (l : list A) :
  StronglySorted (fun a b => key a <= key b) l ->
  StronglySorted (fun a b => key a <= key b) (insertSorted cmp x l).
Proof.
  induction l as [|y l IH]; simpl; intros Hs.
  - constructor; constructor.
  - inversion Hs as [|? ? Hl Hy]; subst.
    rewrite cmp_key. destruct (Nat.leb (key x) (key y)) eqn:E.
    + apply Nat.leb_le in E. constructor; [exact Hs|].
      constructor; [exact E|].
      eapply Forall_impl; [|exact Hy]. simpl. intros a Ha. lia.
    + apply Nat.leb_gt in E. constructor; [now apply IH|].
      apply Forall_forall. intros a Ha.
      apply (Permutation_in _ (insertSorted_Permutation x l)) in Ha.
      destruct Ha as [<-|Ha]; [lia|].
      exact (proj1 (Forall_forall _ _) Hy a Ha).
Qed.

Lemma sort_sorted (l : list A) :
  StronglySorted (fun a b => key a <= key b) (sort cmp l).
Proof.
  induction l as [|x l IH]; simpl; [constructor|].
  now apply insertSorted_sorted.
Qed.

Lemma insertSorted_class (k : nat) (x : A) (l : list A) :
  filter (fun a => Nat.eqb (key a) k) (insertSorted cmp x l) =
  filter (fun a => Nat.eqb (key a) k) (x :: l).
Proof.
  induction l as [|y l IH]; simpl; auto.
  rewrite cmp_key. destruct (Nat.leb (key x) (key y)) eqn:E; simpl; auto.
  apply Nat.leb_gt in E. rewrite IH. simpl.
  destruct (Nat.eqb (key x) k) eqn:Ex, (Nat.eqb (key y) k) eqn:Ey; auto.
  apply Nat.eqb_eq in Ex, Ey. lia.
Qed.

Lemma sort_class (k : nat) (l : list A) :
  filter (fun a => Nat.eqb (key a) k) (sort cmp l) =
  filter (fun a => Nat.eqb (key a) k) l.
Proof.
  induction l as [|x l IH]; simpl; auto.
  rewrite insertSorted_class. simpl. now rewrite IH.
Qed.
End StableSort.

Lemma compareIssues_priority (a b : Issue) :
  (compareIssues a b <=? 0)%Z = Nat.leb (priority a) (priority b).
Proof.
  unfold compareIssues, priority.
  destruct (severity a), (severity b), (isAccessibility a), (isAccessibility b);
    reflexivity.
Qed.

(** X1.  [prioritizeIssues] only reorders the issues; in its result the
    critical issues come before the warnings and these before the
    infos, within one severity the accessibility issues come first,
    and issues of equal rank keep the order they had. *)
Theorem prioritizeIssues_stable_by_priority (issues : list Issue) :
  Permutation (prioritizeIssues issues) issues /\
  StronglySorted (fun a b => priority a <= priority b)
                 (prioritizeIssues issues) /\
  (forall k,
     filter (fun i => Nat.eqb (priority i) k) (prioritizeIssues issues) =
     filter (fun i => Nat.eqb (priority i) k) issues) /\
  (forall a b,
     priority a <= priority b <->
     (severityOrder (severity a) < severityOrder (severity b))%Z \/
     (severity a = severity b /\
      (isAccessibility a = true \/ isAccessibility b = false))).
Proof.
  unfold prioritizeIssues. split; [|split; [|split]].
  - apply sort_Permutation.
  - apply sort_sorted. apply compareIssues_priority.
  - intros k. apply sort_class. apply compareIssues_priority.
  - intros a b. unfold priority.
    destruct (severity a), (severity b), (isAccessibility a),
      (isAccessibility b); simpl; split; intros Hp;
      try lia; try (now left); try (right; split; auto; fail);
      try (destruct Hp as [Hp|[Hp1 [Hp2|Hp2]]]; try lia; discriminate).
Qed.

(* ================================================================== *)
(** * detectIssues: what a failing script costs, what an issue carries *)
(* ================================================================== *)

(** X2.  Detection is best effort: a script whose [page.evaluate]
    throws contributes what a script that finds nothing contributes,
    so [detectIssues] gives on any page what it gives on the page where
    every throwing script found nothing; it always returns. *)
Theorem detectIssues_failing_script_finds_nothing `{Engine} (page : Page)
        (dev : Device) :
  detectIssues page dev = detectIssues (quiet page) dev /\
  neverThrows (quiet page).
Proof.
  split.
  - unfold detectIssues, checkHorizontalScroll, checkOverflow,
      checkTouchTargets, checkContrast, checkFontSize, checkImageAlt, quiet.
    simpl.
    destruct (hasHorizontalScroll page) as [|[|]],
             (overflowingElement page),
             (overflowingElements page), (smallTargets page),
             (textElements page), (smallTextElements page),
             (imagesWithoutAlt page); reflexivity.
  - unfold neverThrows, quiet. simpl.
    destruct (hasHorizontalScroll page) as [|[|]],
             (overflowingElement page),
             (overflowingElements page), (smallTargets page),
             (textElements page), (smallTextElements page),
             (imagesWithoutAlt page); repeat split; eexists; reflexivity.
Qed.

Lemma detectIssues_carries `{Engine} (page : Page) (dev : Device) :
  Forall (fun i =>
            device i = Device.name dev /\
            colorScheme i = None /\
            severity i <> Info /\
            blocks_release i = Severity_eqb (severity i) Critical /\
            (type i = Layout \/ type i = Accessibility \/ type i = Typography) /\
            (wcag i = Some "2.5.5" ->
             Device.is_mobile dev || Device.has_touch dev = true))
         (detectIssues page dev).
Proof.
  apply Forall_forall. intros i Hi.
  unfold detectIssues, prioritizeIssues in Hi. apply sort_In in Hi.
  destruct (Device.is_mobile dev || Device.has_touch dev) eqn:Etouch;
    repeat rewrite in_app_iff in Hi;
    repeat match type of Hi with _ \/ _ => destruct Hi as [Hi|Hi] end;
    unfold checkHorizontalScroll, checkOverflow, checkTouchTargets,
      checkContrast, checkFontSize, checkImageAlt, checkOverlap, push in Hi;
    repeat match type of Hi with
           | context [hasHorizontalScroll page] =>
               destruct (hasHorizontalScroll page) as [|[|]]
           | context [overflowingElement page] =>
               destruct (overflowingElement page)
           | context [match ?x with _ => _ end] => destruct x
           end;
    simpl in Hi;
    try contradiction;
    try (destruct Hi as [<-|[]]; simpl; repeat split; auto; discriminate);
    apply in_map_iff in Hi; destruct Hi as [e [<- _]];
    simpl; repeat split; auto; discriminate.
Qed.

(* ================================================================== *)
(** * generateSummaryForAgent                                          *)
(* ================================================================== *)

Lemma severity_partition (issues : list DedupedIssue) :
  length issues =
  countIf (fun i => Severity_eqb (severity (issue i)) Critical) issues
  + countIf (fun i => Severity_eqb (severity (issue i)) Warning) issues
  + countIf (fun i => Severity_eqb (severity (issue i)) Info) issues.
Proof.
  unfold countIf. induction issues as [|i issues IH]; simpl; auto.
  destruct (severity (issue i)); simpl; lia.
Qed.

Lemma type_counts_bound (issues : list DedupedIssue) :
  countIf (fun i => IssueType_eqb (type (issue i)) Layout) issues
  + countIf (fun i => IssueType_eqb (type (issue i)) Accessibility) issues
  + countIf (fun i => IssueType_eqb (type (issue i)) Typography) issues
  <= length issues.
Proof.
  unfold countIf. induction issues as [|i issues IH]; simpl; auto.
  destruct (type (issue i)); simpl; lia.
Qed.

Lemma countIf_positive {A} (p : A -> bool) (l : list A) :
  0 < countIf p l <-> exists x, In x l /\ p x = true.
Proof.
  unfold countIf. split.
  - intros Hpos. destruct (filter p l) as [|x rest] eqn:E; [simpl in Hpos; lia|].
    assert (In x (filter p l)) as Hx by (rewrite E; now left).
    apply filter_In in Hx. exists x. exact Hx.
  - intros [x Hx]. apply filter_In in Hx.
    destruct (filter p l); [destruct Hx | simpl; lia].
Qed.

Lemma countIf_zero {A} (p : A -> bool) (l : list A) :
  countIf p l = 0 <-> forall x, In x l -> p x = false.
Proof.
  split.
  - intros Hz x Hx. destruct (p x) eqn:E; auto.
    assert (0 < countIf p l); [|lia].
    apply countIf_positive. exists x. auto.
  - intros Hall. destruct (countIf p l) eqn:E; auto.
    assert (0 < countIf p l) as Hpos by lia.
    apply countIf_positive in Hpos. destruct Hpos as [x [Hx Hp]].
    rewrite (Hall x Hx) in Hp. discriminate.
Qed.

(** X4.  In the summary for the agent the three severity counts add up
    to [total_issues], while the three type counts may fall short of it
    (visual, javascript and network issues are not counted);
    [blocks_release] says that a critical issue exists; and the
    recommendation reads "all checks passed" exactly when every issue
    is an info. *)
Theorem generateSummaryForAgent_counts (issues : list DedupedIssue) :
  let a := generateSummaryForAgent issues in
  let '(critical, warning, info) := by_severity a in
  let '(layout, accessibility, typography) := by_type a in
  total_issues a = length issues /\
  critical + warning + info = total_issues a /\
  layout + accessibility + typography <= total_issues a /\
  (action_blocks_release a = true <->
   exists i, In i issues /\ severity (issue i) = Critical) /\
  (action_required a = "Все проверки пройдены" <->
   forall i, In i issues -> severity (issue i) = Info).
Proof.
  simpl. split; [reflexivity|]. split; [|split; [|split]].
  - symmetry. apply severity_partition.
  - apply type_counts_bound.
  - rewrite Nat.ltb_lt.
    rewrite (countIf_positive
               (fun i => Severity_eqb (severity (issue i)) Critical) issues).
    split; intros [i [Hi Hs]]; exists i; split; auto;
      destruct (severity (issue i)); simpl in *; congruence.
  - fold (countIf (fun i => Severity_eqb (severity (issue i)) Critical) issues).
    fold (countIf (fun i => Severity_eqb (severity (issue i)) Warning) issues).
    destruct (Nat.ltb 0 (countIf (fun i => Severity_eqb (severity (issue i))
                                                        Critical) issues)) eqn:Ec.
    + split; [intros Habs; simpl in Habs; discriminate|].
      intros Hall. apply Nat.ltb_lt, countIf_positive in Ec.
      destruct Ec as [i [Hi Hs]]. rewrite (Hall i Hi) in Hs. discriminate.
    + destruct (Nat.ltb 0 (countIf (fun i => Severity_eqb (severity (issue i))
                                                          Warning) issues)) eqn:Ew.
      * split; [intros Habs; simpl in Habs; discriminate|].
        intros Hall. apply Nat.ltb_lt, countIf_positive in Ew.
        destruct Ew as [i [Hi Hs]]. rewrite (Hall i Hi) in Hs. discriminate.
      * split; [|reflexivity]. intros _ i Hi.
        apply Nat.ltb_ge in Ec, Ew.
        assert (countIf (fun i => Severity_eqb (severity (issue i)) Critical)
                        issues = 0) as Hc by lia.
        assert (countIf (fun i => Severity_eqb (severity (issue i)) Warning)
                        issues = 0) as Hw by lia.
        pose proof (proj1 (countIf_zero _ _) Hc i Hi) as H1.
        pose proof (proj1 (countIf_zero _ _) Hw i Hi) as H2.
        simpl in H1, H2.
        destruct (severity (issue i)); simpl in *; congruence.
Qed.

(* ================================================================== *)
(** * getDevicesForProfile: what a profile resolves to                 *)
(* ================================================================== *)

Lemma pushAll_flat_map (categories : list (Dict DeviceSpec))
      (devicesList : list Device) :
  pushAll devicesList categories =
  devicesList ++
  flat_map (fun category => map (fun e => withId (fst e) (snd e)) category)
           categories.
Proof.
  unfold pushAll. revert devicesList.
  induction categories as [|category rest IH]; intros devicesList; simpl.
  - now rewrite app_nil_r.
  - rewrite IH, app_assoc. f_equal.
    clear IH. revert devicesList.
    induction category as [|e category IHc]; intros devicesList; simpl.
    + now rewrite app_nil_r.
    + rewrite IHc. unfold push. now rewrite <- app_assoc.
Qed.

Lemma pushFirstMatch_found (devicesList : list Device) (deviceId : string)
      (categories : list (Dict DeviceSpec)) :
  pushFirstMatch devicesList deviceId categories =
  devicesList ++ match findDeviceById categories deviceId with
                 | Some d => [d]
                 | None => []
                 end.
Proof.
  induction categories as [|category rest IH]; simpl.
  - now rewrite app_nil_r.
  - destruct (lookup deviceId category); auto.
Qed.

Lemma findDeviceById_id (categories : list (Dict DeviceSpec))
      (deviceId : string) (d : Device) :
  findDeviceById categories deviceId = Some d -> Device.id d = deviceId.
Proof.
  induction categories as [|category rest IH]; simpl; [discriminate|].
  destruct (lookup deviceId category); auto.
  intros Hd. inversion Hd. reflexivity.
Qed.

Lemma resolve_ids (categories : list (Dict DeviceSpec)) (ids : list string)
      (devicesList : list Device) :
  fold_left (fun acc deviceId => pushFirstMatch acc deviceId categories)
            ids devicesList =
  devicesList ++
  flat_map (fun deviceId => match findDeviceById categories deviceId with
                            | Some d => [d]
                            | None => []
                            end) ids.
Proof.
  revert devicesList. induction ids as [|deviceId ids IH];
    intros devicesList; simpl.
  - now rewrite app_nil_r.
  - rewrite IH, pushFirstMatch_found, <- app_assoc. reflexivity.
Qed.

(** X5.  A profile whose device list is the sentinel ['all'] resolves
    to every device of every category, categories in the order of the
    catalogue and devices in the order of their category, each with its
    key as id; there are as many devices as the categories have
    entries. *)
Theorem getDevicesForProfile_all (cfg : DevicesConfig) (profileName : string)
        (p : TestProfile) :
  lookup profileName (test_profiles cfg) = Some p ->
  devices p = AllDevices ->
  exists devs,
    getDevicesForProfile cfg profileName = Returned (devs, browsers p) /\
    devs = flat_map (fun category => map (fun e => withId (fst e) (snd e))
                                         (snd category))
                    (device_profiles cfg) /\
    map Device.id devs =
      flat_map (fun category => map fst (snd category)) (device_profiles cfg) /\
    length devs =
      list_sum (map (fun category => length (snd category))
                    (device_profiles cfg)).
Proof.
  intros Hp Hall. unfold getDevicesForProfile. rewrite Hp, Hall.
  rewrite pushAll_flat_map. simpl. eexists. split; [reflexivity|].
  unfold values.
  induction (device_profiles cfg) as [|[name category] rest IH]; simpl.
  - repeat split.
  - destruct IH as (IH1 & IH2 & IH3).
    rewrite IH1 at 1. rewrite map_app, IH2, length_app, IH3, !length_map, map_map.
    repeat split.
Qed.

Lemma getDevicesForProfile_all_witness :
  exists devs,
    getDevicesForProfile
      {| device_profiles := device_profiles Examples.config;
         test_profiles :=
           [("everything", {| devices := AllDevices;
                              browsers := ["chromium"; "webkit"] |})] |}
      "everything" = Returned (devs, ["chromium"; "webkit"]) /\
    map Device.id devs = ["iphone_14_pro"; "desktop_1080p"].
Proof.
  destruct (@getDevicesForProfile_all
              {| device_profiles := device_profiles Examples.config;
                 test_profiles :=
                   [("everything", {| devices := AllDevices;
                                      browsers := ["chromium"; "webkit"] |})] |}
              "everything"
              {| devices := AllDevices; browsers := ["chromium"; "webkit"] |})
    as [devs (H1 & _ & H3 & _)].
  - reflexivity.
  - reflexivity.
  - exists devs. split; [exact H1 | exact H3].
Defined.

(** X6.  A profile with explicit ids resolves to the devices found for
    its ids, in the order of the ids: each id gives the device of the
    first category that has it, with that id, and an id that no
    category has gives nothing.  So the list is never longer than the
    list of ids, and it answers the ids one for one exactly when every
    id is known. *)
Theorem getDevicesForProfile_ids (cfg : DevicesConfig) (profileName : string)
        (p : TestProfile) (ids : list string) :
  lookup profileName (test_profiles cfg) = Some p ->
  devices p = DeviceIds ids ->
  let categories := values (device_profiles cfg) in
  exists devs,
    getDevicesForProfile cfg profileName = Returned (devs, browsers p) /\
    devs = flat_map (fun deviceId =>
                       match findDeviceById categories deviceId with
                       | Some d => [d]
                       | None => []
                       end) ids /\
    Forall (fun d => In (Device.id d) ids /\
                     findDeviceById categories (Device.id d) = Some d) devs /\
    length devs <= length ids /\
    (map Device.id devs = ids <->
     forall deviceId, In deviceId ids ->
                      findDeviceById categories deviceId <> None).
Proof.
  intros Hp Hids categories. unfold getDevicesForProfile.
  rewrite Hp, Hids, resolve_ids. simpl. fold categories.
  eexists. split; [reflexivity|]. split; [reflexivity|].
  clear Hp Hids. induction ids as [|deviceId ids IH]; simpl.
  - repeat split; auto.
  - destruct IH as (IH1 & IH2 & IH3).
    destruct (findDeviceById categories deviceId) as [d|] eqn:Ed; simpl.
    + pose proof (findDeviceById_id _ _ Ed) as Hid.
      split; [|split; [lia|]].
      * constructor.
        -- rewrite Hid. split; [now left | exact Ed].
        -- eapply Forall_impl; [|exact IH1]. simpl. intros a [Ha1 Ha2]. auto.
      * rewrite Hid. split.
        -- intros Heq. inversion Heq as [Htail]. rewrite Htail.
           intros x [<-|Hx]; [congruence|]. now apply IH3.
        -- intros Hall. f_equal. apply IH3. intros x Hx. apply Hall. now right.
    + split; [|split; [lia|]].
      * eapply Forall_impl; [|exact IH1]. simpl. intros a [Ha1 Ha2]. auto.
      * split.
        -- intros Heq. exfalso.
           apply (f_equal (@length string)) in Heq.
           rewrite length_map in Heq. simpl in Heq. lia.
        -- intros Hall. exfalso. apply (Hall deviceId); auto.
Qed.

Lemma getDevicesForProfile_ids_witness :
  exists devs,
    getDevicesForProfile Examples.config "with_unknown_id"
      = Returned (devs, ["chromium"]) /\
    length devs <= 2.
Proof.
  destruct (@getDevicesForProfile_ids Examples.config "with_unknown_id"
              {| devices := DeviceIds ["iphone_14_pro"; "pixel_99"];
                 browsers := ["chromium"] |}
              ["iphone_14_pro"; "pixel_99"])
    as [devs (H1 & _ & _ & H4 & _)].
  - reflexivity.
  - reflexivity.
  - exists devs. split; [exact H1 | exact H4].
Defined.


(** X3.  Every issue [detectIssues] returns names the device it was
    found on, carries no colour scheme yet, is critical or a warning
    (never an info), blocks the release exactly when it is critical,
    is of type layout, accessibility or typography, and is a
    touch-target issue (WCAG 2.5.5) only on a mobile or touch device. *)
Theorem detectIssues_issue_invariants `{Engine} (page : Page) (dev : Device) :
  Forall (fun i =>
            device i = Device.name dev /\
            colorScheme i = None /\
            severity i <> Info /\
            blocks_release i = Severity_eqb (severity i) Critical /\
            (type i = Layout \/ type i = Accessibility \/ type i = Typography) /\
            (wcag i = Some "2.5.5" ->
             Device.is_mobile dev || Device.has_touch dev = true))
         (detectIssues page dev).
Proof. apply detectIssues_carries. Qed.

Lemma detectIssues_foundOn `{Engine} (page : Page) (dev : Device) :
  Forall (foundOn dev) (detectIssues page dev).
Proof.
  eapply Forall_impl; [|apply detectIssues_carries].
  simpl. intros i (H1 & _ & H3 & H4 & H5 & _). repeat split; auto.
Qed.

(* ================================================================== *)
(** * checkPage: more of what the loops keep                           *)
(* ================================================================== *)

Lemma forOf_preserves_in {S X} (P : S -> Prop) (xs : list X)
      (body : X -> S -> EvalResult S) :
  (forall x s s', In x xs -> P s -> body x s = Returned s' -> P s') ->
  forall s s', P s -> forOf xs body s = Returned s' -> P s'.
Proof.
  induction xs as [|x xs IH]; intros Hstep s s' Hs Hrun.
  - unfold forOf in Hrun. simpl in Hrun. inversion Hrun. subst. exact Hs.
  - rewrite forOf_cons in Hrun.
    destruct (body x s) as [|s1] eqn:E; [discriminate|].
    apply (IH (fun y a a' Hy => Hstep y a a' (or_intror Hy)) s1 s');
      [|exact Hrun].
    exact (Hstep x s s1 (or_introl eq_refl) Hs E).
Qed.

Lemma in_matrix (colorSchemes browserTypes : list string) (devs : list Device)
      (t : string * string * Device) :
  In t (matrix colorSchemes browserTypes devs) ->
  In (fst (fst t)) colorSchemes /\ In (snd (fst t)) browserTypes /\ In (snd t) devs.
Proof.
  unfold matrix. rewrite in_flat_map. intros [cs [Hcs Ht]].
  rewrite in_flat_map in Ht. destruct Ht as [b [Hb Ht]].
  rewrite in_map_iff in Ht. destruct Ht as [d [<- Hd]]. simpl. auto.
Qed.

Lemma matrix_length (colorSchemes browserTypes : list string)
      (devs : list Device) :
  length (matrix colorSchemes browserTypes devs) =
  length colorSchemes * (length browserTypes * length devs).
Proof.
  unfold matrix. induction colorSchemes as [|cs rest IH]; simpl; auto.
  rewrite length_app, IH. f_equal.
  clear IH. induction browserTypes as [|b bs IHb]; simpl; auto.
  now rewrite length_app, IHb, length_map.
Qed.

Lemma tagDarkMode_foundOn (dev : Device) (l : list Issue) :
  Forall (foundOn dev) l -> Forall (foundOn dev) (map tagDarkMode l).
Proof.
  intros Hl. apply Forall_forall. intros i Hi.
  apply in_map_iff in Hi. destruct Hi as [j [<- Hj]].
  exact (proj1 (Forall_forall _ _) Hl j Hj).
Qed.

Lemma severe_when_nonempty (dev : Device) (l : list Issue) :
  Forall (foundOn dev) l -> l <> [] ->
  existsb (fun i => Severity_eqb (severity i) Critical) l = false ->
  existsb (fun i => Severity_eqb (severity i) Warning) l = true.
Proof.
  intros Hall Hne Hcrit. destruct l as [|i l]; [congruence|].
  inversion Hall as [|? ? (_ & Hinfo & _) _]; subst.
  simpl in *. apply orb_false_iff in Hcrit. destruct Hcrit as [Hc _].
  destruct (severity i); simpl in *; congruence.
Qed.

Section CheckPageDetail.
Context `{Engine}.
Variables (world : World) (dir address : string).

(** One iteration of the innermost loop in detail: the record it
    pushes, the issues it adds and what it does to the counters. *)
Lemma processTuple_detail (colorScheme browserType : string) (dev : Device)
      (st st' : LoopState) :
  processTuple world dir address colorScheme browserType dev st = Returned st' ->
  exists c extra,
    checks (results st') = checks (results st) ++ [c] /\
    allIssues st' = allIssues st ++ extra /\
    Forall (foundOn dev) extra /\
    Check.device c = deviceLabel colorScheme dev /\
    Check.colorScheme c = colorScheme /\
    ((Check.status c = StatusPassed /\ Check.error c = None /\
      Check.issues_count c = Some (length extra))
     \/ (Check.status c = StatusError /\ Check.screenshot c = None /\
         Check.issues_count c = None /\ extra = [])) /\
    Summary.failed (summary (results st))
      <= Summary.failed (summary (results st')) /\
    Summary.warnings (summary (results st))
      <= Summary.warnings (summary (results st')) /\
    (existsb isCritical extra = true ->
     Summary.failed (summary (results st))
       < Summary.failed (summary (results st'))) /\
    (extra <> [] ->
     Summary.failed (summary (results st)) + Summary.warnings (summary (results st))
     < Summary.failed (summary (results st'))
       + Summary.warnings (summary (results st'))).
Proof.
  unfold processTuple.
  set (st1 := {| results := results st; allIssues := allIssues st;
                 visited := S (visited st) |}).
  assert (forall message,
    let st2 := catchError colorScheme browserType dev message st1 in
    exists c extra,
      checks (results st2) = checks (results st) ++ [c] /\
      allIssues st2 = allIssues st ++ extra /\
      Forall (foundOn dev) extra /\
      Check.device c = deviceLabel colorScheme dev /\
      Check.colorScheme c = colorScheme /\
      ((Check.status c = StatusPassed /\ Check.error c = None /\
        Check.issues_count c = Some (length extra))
       \/ (Check.status c = StatusError /\ Check.screenshot c = None /\
           Check.issues_count c = None /\ extra = [])) /\
      Summary.failed (summary (results st))
        <= Summary.failed (summary (results st2)) /\
      Summary.warnings (summary (results st))
        <= Summary.warnings (summary (results st2)) /\
      (existsb isCritical extra = true ->
       Summary.failed (summary (results st))
         < Summary.failed (summary (results st2))) /\
      (extra <> [] ->
       Summary.failed (summary (results st))
       + Summary.warnings (summary (results st))
       < Summary.failed (summary (results st2))
         + Summary.warnings (summary (results st2)))) as Hcatch.
  { intros message. simpl. eexists. exists []. simpl. rewrite app_nil_r.
    repeat split; auto; try lia; try discriminate. }
  destruct (capture (world (visited st))) as [m|cap].
  - intros Hrun. inversion Hrun; subst. apply Hcatch.
  - destruct (close (world (visited st))); [discriminate|].
    intros Hrun. inversion Hrun; subst. clear Hrun.
    destruct (saveScreenshot (world (visited st))) as [m|?]; [apply Hcatch|].
    destruct (detectorException (world (visited st))) as [m|]; [apply Hcatch|].
    unfold analyseTuple. simpl.
    set (detected := if String.eqb colorScheme "dark"
                     then map tagDarkMode (detectIssues (page cap) dev)
                     else detectIssues (page cap) dev).
    assert (Forall (foundOn dev) detected) as Hfound.
    { unfold detected. destruct (String.eqb colorScheme "dark").
      - apply tagDarkMode_foundOn, detectIssues_foundOn.
      - apply detectIssues_foundOn. }
    eexists. exists detected. simpl.
    split; [reflexivity|]. split; [reflexivity|]. split; [exact Hfound|].
    split; [reflexivity|]. split; [reflexivity|].
    unfold runChecks, checkLayout. simpl. rewrite Nat.eqb_refl. simpl.
    split; [left; repeat split|].
    fold (existsb isCritical detected).
    destruct (existsb (fun i => Severity_eqb (severity i) Critical) detected)
      eqn:Ecrit; simpl.
    + repeat split; intros; lia.
    + destruct (existsb (fun i => Severity_eqb (severity i) Warning) detected)
        eqn:Ewarn; simpl;
        repeat split; try lia; intros Hx;
        first [ unfold isCritical in Hx; congruence
              | pose proof (@severe_when_nonempty dev detected Hfound Hx Ecrit);
                congruence
              | lia ].
Qed.

Lemma processTuple_throws (colorScheme browserType : string) (dev : Device)
      (st : LoopState) :
  (exists message,
     processTuple world dir address colorScheme browserType dev st
     = Threw message) <->
  closeFails (world (visited st)) = true.
Proof.
  unfold processTuple, closeFails.
  destruct (capture (world (visited st))), (close (world (visited st)));
    split; intros Hx; try discriminate; eauto;
    destruct Hx; discriminate.
Qed.

Lemma loop_throws (ts : list (string * string * Device)) (st : LoopState) :
  (exists message,
     forOf ts (tupleBody world dir address) st = Threw message) <->
  exists k, k < length ts /\ closeFails (world (visited st + k)) = true.
Proof.
  revert st. induction ts as [|[[cs b] d] ts IH]; intros st.
  - split.
    + intros [m Hm]. discriminate.
    + intros [k [Hk _]]. simpl in Hk. lia.
  - rewrite forOf_cons. unfold tupleBody at 1. simpl.
    destruct (processTuple world dir address cs b d st) as [m|st1] eqn:E.
    + split; [|eauto]. intros _. exists 0. split; [lia|].
      rewrite Nat.add_0_r.
      apply (proj1 (processTuple_throws cs b d st)). eauto.
    + assert (closeFails (world (visited st)) = false) as Hok.
      { destruct (closeFails (world (visited st))) eqn:Ec; auto.
        destruct (proj2 (processTuple_throws cs b d st) Ec) as [m Hm].
        rewrite Hm in E. discriminate. }
      destruct (@processTuple_step _ world dir address cs b d st st1 E)
        as [Hvisit _].
      rewrite IH, Hvisit. split.
      * intros [k [Hk Hc]]. exists (S k). split; [lia|].
        now rewrite Nat.add_succ_r.
      * intros [[|k] [Hk Hc]].
        -- rewrite Nat.add_0_r in Hc. congruence.
        -- exists k. split; [lia|]. now rewrite Nat.add_succ_r in Hc.
Qed.

End CheckPageDetail.

Lemma list_sum_snoc (l : list nat) (n : nat) :
  list_sum (l ++ [n]) = list_sum l + n.
Proof. rewrite list_sum_app. simpl. lia. Qed.

Lemma processTuple_facts `{Engine} (world : World) (dir address : string)
      (devs : list Device) (t : string * string * Device) (st st' : LoopState) :
  In (snd t) devs ->
  loopFacts devs st ->
  tupleBody world dir address t st = Returned st' ->
  loopFacts devs st'.
Proof.
  destruct t as [[cs b] d]. simpl. intros Hd (F1 & F2 & F3 & F4 & F5 & F6) Hrun.
  unfold tupleBody in Hrun. simpl in Hrun.
  apply processTuple_detail in Hrun.
  destruct Hrun as [c [extra (Hc & Hall & Hfound & Hlabel & Hscheme & Hshape
                               & Hf & Hw & Hcrit & Hne)]].
  unfold loopFacts. rewrite Hc, Hall.
  split; [|split; [|split; [|split; [|split]]]].
  - apply Forall_app. split; [exact F1|]. constructor; [|constructor].
    destruct Hshape as [(S1 & S2 & S3)|(S1 & S2 & S3 & _)];
      [left | right]; repeat split; auto. rewrite S3. discriminate.
  - apply Forall_app. split; [exact F2|]. constructor; [|constructor].
    exists d. split; [exact Hd|]. now rewrite Hscheme.
  - rewrite map_app, list_sum_app, length_app, F3. simpl. f_equal.
    unfold issuesCounted.
    destruct Hshape as [(_ & _ & S3)|(_ & _ & S3 & ->)]; rewrite S3; simpl; lia.
  - apply Forall_app. split; [exact F4|].
    eapply Forall_impl; [|exact Hfound]. simpl. intros i Hi. exists d. auto.
  - rewrite existsb_app. intros Hor. apply orb_true_iff in Hor.
    destruct Hor as [Hold|Hnew]; [specialize (F5 Hold); lia|].
    specialize (Hcrit Hnew). lia.
  - intros Hnonempty.
    destruct extra as [|i extra].
    + rewrite app_nil_r in Hnonempty. specialize (F6 Hnonempty). lia.
    + assert (i :: extra <> []) as Hx by discriminate.
      specialize (Hne Hx). lia.
Qed.

Lemma loop_length `{Engine} (world : World) (dir address : string)
      (ts : list (string * string * Device)) (st st' : LoopState) :
  forOf ts (tupleBody world dir address) st = Returned st' ->
  length (checks (results st')) = length (checks (results st)) + length ts.
Proof.
  revert st. induction ts as [|[[cs b] d] ts IH]; intros st Hrun.
  - unfold forOf in Hrun. simpl in Hrun. inversion Hrun. simpl. lia.
  - rewrite forOf_cons in Hrun.
    destruct (tupleBody world dir address (cs, b, d) st) as [|st1] eqn:E;
      [discriminate|].
    unfold tupleBody in E. simpl in E. apply processTuple_detail in E.
    destruct E as [c [extra (Hc & _)]].
    rewrite (IH st1 Hrun), Hc, length_app. simpl. lia.
Qed.

(** What is known of every result of [checkPage]. *)
Lemma checkPage_facts `{Engine} (this : VisualQAAgent) (world : World)
      (address profileName : string) (checkDarkMode : bool) (res : CheckResult) :
  checkPage this world address profileName checkDarkMode = Returned res ->
  exists devs browserTypes st,
    getDevicesForProfile (agent_devices this) profileName
      = Returned (devs, browserTypes) /\
    res = finishResults (results st) (allIssues st) /\
    loopFacts devs st /\
    summaryCounts (results st) /\
    length (checks (results st)) =
      (if checkDarkMode then 2 else 1) * (length browserTypes * length devs).
Proof.
  intros Hres. apply checkPage_returned in Hres.
  destruct Hres as [devs [browserTypes [st (Hprofile & Hrun & ->)]]].
  exists devs, browserTypes, st.
  split; [exact Hprofile|]. split; [reflexivity|]. split; [|split].
  - revert Hrun.
    apply (forOf_preserves_in (loopFacts devs)).
    + intros t s s' Ht Hs Hbody.
      apply in_matrix in Ht. destruct Ht as (_ & _ & Hd).
      eapply processTuple_facts; eauto.
    + unfold loopFacts. simpl. repeat split; auto; try discriminate.
      congruence.
  - eapply loop_counts; [|exact Hrun]. apply newResults_counts.
  - apply loop_length in Hrun. rewrite Hrun, matrix_length. simpl.
    destruct checkDarkMode; reflexivity.
Qed.

Lemma firstBy_length {A} (same : A -> A -> bool) (earlier l : list A) :
  length (firstBy same earlier l) <= length l.
Proof.
  revert earlier. induction l as [|x l IH]; intros earlier; simpl; auto.
  destruct (existsb (same x) earlier); simpl;
    specialize (IH (earlier ++ [x])); lia.
Qed.

Lemma deduplicateIssues_affected (l : list Issue) (o : DedupedIssue) :
  In o (deduplicateIssues l) ->
  exists ds,
    affected_devices o = Some ds /\
    In (device (issue o)) ds /\
    NoDup ds /\
    (forall d, In d ds -> exists j, In j l /\ device j = d).
Proof.
  rewrite deduplicateIssues_closed_form. intros Ho.
  apply in_map_iff in Ho. destruct Ho as [j [<- Hj]].
  unfold canonical. simpl. eexists. split; [reflexivity|].
  assert (In j l) as Hjl by (eapply firstBy_incl; exact Hj).
  split; [|split].
  - apply distinctDevices_In, in_map. unfold keyGroup.
    apply filter_In. split; [exact Hjl | apply sameKey_refl].
  - apply distinctDevices_NoDup.
  - intros d Hd. apply distinctDevices_In, in_map_iff in Hd.
    destruct Hd as [i [Hi Hin]]. unfold keyGroup in Hin.
    apply filter_In in Hin. exists i. tauto.
Qed.

Lemma existsb_count {A} (p : A -> bool) (l : list A) :
  Nat.ltb 0 (length (filter p l)) = existsb p l.
Proof.
  induction l as [|x l IH]; simpl; auto.
  destruct (p x); simpl; auto.
Qed.

Lemma existsb_agree {A} (p q : A -> bool) (l : list A) :
  (forall x, In x l -> p x = q x) -> existsb p l = existsb q l.
Proof.
  induction l as [|x l IH]; simpl; auto.
  intros Hall. rewrite (Hall x (or_introl eq_refl)), IH; auto.
Qed.

(* ================================================================== *)
(** * checkPage: when it fails, what its records and counters say      *)
(* ================================================================== *)

(** X7.  [checkPage] throws in two cases only: the profile name is not
    in [test_profiles], or for some tuple of the matrix the page was
    captured and closing its browser threw.  Whatever else goes wrong
    in a tuple ends up in its check record. *)
Theorem checkPage_throws_only `{Engine} (this : VisualQAAgent) (world : World)
        (address profileName : string) (checkDarkMode : bool) :
  (exists message,
     checkPage this world address profileName checkDarkMode = Threw message) <->
  lookup profileName (test_profiles (agent_devices this)) = None \/
  exists devs browserTypes,
    getDevicesForProfile (agent_devices this) profileName
      = Returned (devs, browserTypes) /\
    exists k,
      k < length (matrix (if checkDarkMode then ["light"; "dark"] else ["light"])
                         browserTypes devs) /\
      closeFails (world k) = true.
Proof.
  unfold checkPage.
  destruct (getDevicesForProfile (agent_devices this) profileName)
    as [m|[devs browserTypes]] eqn:Hprofile.
  - split; [|eauto]. intros _. left.
    unfold getDevicesForProfile in Hprofile.
    destruct (lookup profileName (test_profiles (agent_devices this)));
      [discriminate | reflexivity].
  - rewrite loops_visit_matrix.
    fold (tupleBody world (reportsPath this) address).
    pose proof (loop_throws world (reportsPath this) address
                  (matrix (if checkDarkMode then ["light"; "dark"] else ["light"])
                          browserTypes devs)
                  {| results := newResults address profileName;
                     allIssues := []; visited := 0 |}) as Hloop.
    simpl in Hloop.
    match goal with
    | |- context [forOf ?m ?body ?s] => destruct (forOf m body s) as [m0|st]
    end.
    + split; [|eauto]. intros _. right. exists devs, browserTypes.
      split; [reflexivity|]. apply Hloop. eauto.
    + split.
      * intros [m Hm]. discriminate.
      * intros [Hnone|[devs' [browserTypes' [Heq Hk]]]].
        -- unfold getDevicesForProfile in Hprofile. rewrite Hnone in Hprofile.
           discriminate.
        -- inversion Heq; subst. apply Hloop in Hk.
           destruct Hk as [m Hm]. discriminate.
Qed.

(** X8.  In a result of [checkPage] a check record has the status
    ['passed'] or the status ['error'], never ['failed'] or
    ['warning']: the status computed from the detected issues is
    overwritten by the one of [runChecks], which sees the device's own
    viewport.  A record in error has no screenshot and no issue count. *)
Theorem checkPage_record_status `{Engine} (this : VisualQAAgent)
        (world : World) (address profileName : string) (checkDarkMode : bool)
        (res : CheckResult) :
  checkPage this world address profileName checkDarkMode = Returned res ->
  Forall (fun c =>
            (Check.status c = StatusPassed /\ Check.error c = None /\
             Check.issues_count c <> None)
            \/ (Check.status c = StatusError /\ Check.screenshot c = None /\
                Check.issues_count c = None))
         (checks res).
Proof.
  intros Hres. apply checkPage_facts in Hres.
  destruct Hres as [devs [browserTypes [st (_ & -> & (F1 & _) & _)]]].
  exact F1.
Qed.

Lemma checkPage_record_status_witness :
  Forall (fun c =>
            (Check.status c = StatusPassed /\ Check.error c = None /\
             Check.issues_count c <> None)
            \/ (Check.status c = StatusError /\ Check.screenshot c = None /\
                Check.issues_count c = None))
         (checks Examples.report).
Proof.
  apply (@checkPage_record_status Examples.engine Examples.agent Examples.world
           "https://example.org" "standard" true Examples.report).
  vm_compute. reflexivity.
Defined.

(** X9.  The number of check records is the size of the matrix, twice
    the number of (browser, device) pairs when dark mode is checked;
    and the de-duplicated list never has more issues than the records
    count together. *)
Theorem checkPage_record_count `{Engine} (this : VisualQAAgent)
        (world : World) (address profileName : string) (checkDarkMode : bool)
        (res : CheckResult) (devs : list Device) (browserTypes : list string) :
  checkPage this world address profileName checkDarkMode = Returned res ->
  getDevicesForProfile (agent_devices this) profileName
    = Returned (devs, browserTypes) ->
  length (checks res) =
    (if checkDarkMode then 2 else 1) * (length browserTypes * length devs) /\
  length (issues res) <= list_sum (map issuesCounted (checks res)).
Proof.
  intros Hres Hprofile. apply checkPage_facts in Hres.
  destruct Hres as [devs' [browserTypes' [st (Hp & -> & (_ & _ & F3 & _) & _ & Hlen)]]].
  rewrite Hprofile in Hp. inversion Hp; subst. simpl.
  split; [exact Hlen|].
  rewrite F3, deduplicateIssues_closed_form, length_map.
  apply firstBy_length.
Qed.

Lemma checkPage_record_count_witness :
  length (checks Examples.report) = 2 * (1 * 2) /\
  length (issues Examples.report)
    <= list_sum (map issuesCounted (checks Examples.report)).
Proof.
  apply (@checkPage_record_count Examples.engine Examples.agent Examples.world
           "https://example.org" "standard" true Examples.report
           [Examples.iphone; Examples.desktop] ["chromium"]).
  - vm_compute. reflexivity.
  - reflexivity.
Defined.

(** X10.  The two verdicts of a result agree: [action_summary] is
    present and its [blocks_release] (a critical issue exists) equals
    [summary.blocks_release] (an issue with [blocks_release] exists). *)
Theorem checkPage_verdicts_agree `{Engine} (this : VisualQAAgent)
        (world : World) (address profileName : string) (checkDarkMode : bool)
        (res : CheckResult) :
  checkPage this world address profileName checkDarkMode = Returned res ->
  exists a,
    action_summary res = Some a /\
    action_blocks_release a = Summary.blocks_release (summary res) /\
    total_issues a = length (issues res).
Proof.
  intros Hres. apply checkPage_facts in Hres.
  destruct Hres as [devs [browserTypes [st (_ & -> & (_ & _ & _ & F4 & _) & _)]]].
  eexists. split; [reflexivity|]. simpl. split; [|reflexivity].
  rewrite existsb_count. apply existsb_agree. intros o Ho.
  apply deduplicateIssues_incl in Ho.
  destruct (proj1 (Forall_forall _ _) F4 _ Ho) as [d (_ & _ & _ & Hb & _)].
  now rewrite Hb.
Qed.

Lemma checkPage_verdicts_agree_witness :
  exists a,
    action_summary Examples.report = Some a /\
    action_blocks_release a = Summary.blocks_release (summary Examples.report) /\
    total_issues a = length (issues Examples.report).
Proof.
  apply (@checkPage_verdicts_agree Examples.engine Examples.agent Examples.world
           "https://example.org" "standard" true Examples.report).
  vm_compute. reflexivity.
Defined.

(** X11.  Every issue of a result has a non-empty [affected_devices]
    list without repetition that contains the issue's own device and
    only names of devices of the resolved profile: the plain names,
    also for what was found in dark mode. *)
Theorem checkPage_affected_devices `{Engine} (this : VisualQAAgent)
        (world : World) (address profileName : string) (checkDarkMode : bool)
        (res : CheckResult) (devs : list Device) (browserTypes : list string) :
  checkPage this world address profileName checkDarkMode = Returned res ->
  getDevicesForProfile (agent_devices this) profileName
    = Returned (devs, browserTypes) ->
  Forall (fun o =>
            exists ds,
              affected_devices o = Some ds /\
              In (device (issue o)) ds /\
              NoDup ds /\
              incl ds (map Device.name devs))
         (issues res).
Proof.
  intros Hres Hprofile. apply checkPage_facts in Hres.
  destruct Hres as [devs' [browserTypes' [st (Hp & -> & (_ & _ & _ & F4 & _) & _)]]].
  rewrite Hprofile in Hp. inversion Hp; subst. simpl.
  apply Forall_forall. intros o Ho.
  destruct (deduplicateIssues_affected _ _ Ho) as [ds (H1 & H2 & H3 & H4)].
  exists ds. repeat split; auto.
  intros d Hd. destruct (H4 d Hd) as [j [Hj <-]].
  destruct (proj1 (Forall_forall _ _) F4 _ Hj) as [dv (Hdv & Hname & _)].
  rewrite Hname. now apply in_map.
Qed.

Lemma checkPage_affected_devices_witness :
  Forall (fun o =>
            exists ds,
              affected_devices o = Some ds /\
              In (device (issue o)) ds /\
              NoDup ds /\
              incl ds (map Device.name [Examples.iphone; Examples.desktop]))
         (issues Examples.report).
Proof.
  apply (@checkPage_affected_devices Examples.engine Examples.agent
           Examples.world "https://example.org" "standard" true Examples.report
           [Examples.iphone; Examples.desktop] ["chromium"]).
  - vm_compute. reflexivity.
  - reflexivity.
Defined.

Section CheckPageCounters.
Context `{Engine}.
Variable world : World.
Variables dir address : string.

Lemma processTuple_counters (colorScheme browserType : string) (dev : Device)
      (st st' : LoopState) :
  processTuple world dir address colorScheme browserType dev st = Returned st' ->
  exists c,
    checks (results st') = checks (results st) ++ [c] /\
    Summary.passed (summary (results st'))
      = Summary.passed (summary (results st))
        + (if cleanRecord c then 1 else 0) /\
    Summary.failed (summary (results st'))
    + Summary.warnings (summary (results st'))
      = Summary.failed (summary (results st))
        + Summary.warnings (summary (results st))
        + (if cleanRecord c then 0 else 1).
Proof.
  unfold processTuple.
  set (st1 := {| results := results st; allIssues := allIssues st;
                 visited := S (visited st) |}).
  assert (forall message,
    let st2 := catchError colorScheme browserType dev message st1 in
    exists c,
      checks (results st2) = checks (results st) ++ [c] /\
      Summary.passed (summary (results st2))
        = Summary.passed (summary (results st))
          + (if cleanRecord c then 1 else 0) /\
      Summary.failed (summary (results st2))
      + Summary.warnings (summary (results st2))
        = Summary.failed (summary (results st))
          + Summary.warnings (summary (results st))
          + (if cleanRecord c then 0 else 1)) as Hcatch.
  { intros message. simpl. eexists. split; [reflexivity|].
    unfold cleanRecord. simpl. lia. }
  destruct (capture (world (visited st))) as [m|cap].
  - intros Hrun. inversion Hrun; subst. apply Hcatch.
  - destruct (close (world (visited st))); [discriminate|].
    intros Hrun. inversion Hrun; subst. clear Hrun.
    destruct (saveScreenshot (world (visited st))) as [m|?]; [apply Hcatch|].
    destruct (detectorException (world (visited st))) as [m|]; [apply Hcatch|].
    unfold analyseTuple. simpl.
    set (detected := if String.eqb colorScheme "dark"
                     then map tagDarkMode (detectIssues (page cap) dev)
                     else detectIssues (page cap) dev).
    assert (Forall (foundOn dev) detected) as Hfound.
    { unfold detected. destruct (String.eqb colorScheme "dark").
      - apply tagDarkMode_foundOn, detectIssues_foundOn.
      - apply detectIssues_foundOn. }
    clearbody detected.
    eexists. split; [reflexivity|]. unfold cleanRecord. simpl.
    destruct detected as [|i rest].
    + simpl. lia.
    + assert (i :: rest <> []) as Hne by discriminate.
      pose proof (@severe_when_nonempty dev (i :: rest) Hfound Hne) as Hsev.
      destruct (existsb (fun i => Severity_eqb (severity i) Critical) (i :: rest)).
      * simpl. lia.
      * rewrite (Hsev eq_refl). simpl. lia.
Qed.

Lemma loop_counters (ts : list (string * string * Device)) (st st' : LoopState) :
  forOf ts (tupleBody world dir address) st = Returned st' ->
  Summary.passed (summary (results st)) = countIf cleanRecord (checks (results st)) ->
  Summary.failed (summary (results st)) + Summary.warnings (summary (results st))
    = countIf (fun c => negb (cleanRecord c)) (checks (results st)) ->
  Summary.passed (summary (results st')) = countIf cleanRecord (checks (results st'))
  /\ Summary.failed (summary (results st')) + Summary.warnings (summary (results st'))
     = countIf (fun c => negb (cleanRecord c)) (checks (results st')).
Proof.
  intros Hrun Hp Hf.
  revert Hrun.
  apply (forOf_preserves
           (fun s =>
              Summary.passed (summary (results s))
                = countIf cleanRecord (checks (results s))
              /\ Summary.failed (summary (results s))
                 + Summary.warnings (summary (results s))
                 = countIf (fun c => negb (cleanRecord c)) (checks (results s)))).
  - intros [[cs b] d] s s' [Hs1 Hs2] Hbody.
    unfold tupleBody in Hbody. simpl in Hbody.
    apply processTuple_counters in Hbody.
    destruct Hbody as [c (Hc & Hpass & Hfail)].
    rewrite Hc, !countIf_snoc, Hpass, Hfail, Hs1, Hs2.
    destruct (cleanRecord c); simpl; lia.
  - split; assumption.
Qed.

End CheckPageCounters.

Lemma countIf_zero_all {A} (p : A -> bool) (l : list A) :
  countIf p l = 0 <-> Forall (fun x => p x = false) l.
Proof.
  unfold countIf. induction l as [|x l IH]; simpl.
  - split; auto.
  - destruct (p x) eqn:E; simpl.
    + split; [discriminate|]. intros Hall. inversion Hall; congruence.
    + rewrite IH. split; [intros; constructor; auto|].
      intros Hall. inversion Hall; auto.
Qed.

Lemma checkPage_counter_facts `{Engine} (this : VisualQAAgent) (world : World)
      (address profileName : string) (checkDarkMode : bool) (res : CheckResult) :
  checkPage this world address profileName checkDarkMode = Returned res ->
  exists devs st,
    res = finishResults (results st) (allIssues st) /\
    loopFacts devs st /\
    summaryCounts (results st) /\
    Summary.passed (summary (results st))
      = countIf cleanRecord (checks (results st)) /\
    Summary.failed (summary (results st)) + Summary.warnings (summary (results st))
      = countIf (fun c => negb (cleanRecord c)) (checks (results st)).
Proof.
  intros Hres. apply checkPage_returned in Hres.
  destruct Hres as [devs [browserTypes [st (Hprofile & Hrun & ->)]]].
  exists devs, st.
  split; [reflexivity|]. split; [|split].
  - revert Hrun.
    apply (forOf_preserves_in (loopFacts devs)).
    + intros t s s' Ht Hs Hbody.
      apply in_matrix in Ht. destruct Ht as (_ & _ & Hd).
      eapply processTuple_facts; eauto.
    + unfold loopFacts. simpl. repeat split; auto; try discriminate.
      congruence.
  - eapply loop_counts; [|exact Hrun]. apply newResults_counts.
  - apply loop_counters in Hrun; [exact Hrun|reflexivity|reflexivity].
Qed.

(** X12.  The counters of a result are read off its records:
    [summary.passed] is the number of records that count zero issues,
    [failed] and [warnings] together the number of the others (the
    records in error among them).  So the machine status of the
    [visual_qa_check] tool is ['passed'] exactly when every record
    counts zero issues, then the list of issues is empty, and a result
    that blocks the release or has a record in error gives the exit
    code 1 of the CLI. *)
Theorem checkPage_counters_read_off_records `{Engine} (this : VisualQAAgent)
        (world : World) (address profileName : string) (checkDarkMode : bool)
        (res : CheckResult) :
  checkPage this world address profileName checkDarkMode = Returned res ->
  Summary.passed (summary res) = countIf cleanRecord (checks res) /\
  Summary.failed (summary res) + Summary.warnings (summary res)
    = countIf (fun c => negb (cleanRecord c)) (checks res) /\
  (machineStatus (summary res) = "passed" <->
   Forall (fun c => Check.issues_count c = Some 0) (checks res)) /\
  (machineStatus (summary res) = "passed" -> issues res = []) /\
  (Summary.blocks_release (summary res) = true -> exitCode (summary res) = 1) /\
  (Exists (fun c => Check.status c = StatusError) (checks res) ->
   exitCode (summary res) = 1).
Proof.
  intros Hres. apply checkPage_counter_facts in Hres.
  destruct Hres as [devs [st (-> & Hfacts & Hcounts & Hp & Hf)]].
  destruct Hfacts as (F1 & _ & F3 & F4 & F5 & F6).
  destruct Hcounts as (_ & _ & Herr).
  simpl.
  assert (existsb (fun i => blocks_release (issue i))
                  (deduplicateIssues (allIssues st)) = true ->
          0 < Summary.failed (summary (results st))) as Hblocked.
  { intros Hb. apply F5. apply existsb_exists in Hb.
    destruct Hb as [o [Ho Hb]]. apply deduplicateIssues_incl in Ho.
    apply existsb_exists. exists (issue o). split; [exact Ho|].
    destruct (proj1 (Forall_forall _ _) F4 _ Ho) as [d (_ & _ & _ & Hbl & _)].
    unfold isCritical. now rewrite <- Hbl. }
  split; [exact Hp|]. split; [exact Hf|].
  split; [|split; [|split]].
  - unfold machineStatus. simpl.
    destruct (existsb (fun i => blocks_release (issue i))
                      (deduplicateIssues (allIssues st))) eqn:Eb.
    + specialize (Hblocked eq_refl). split; [discriminate|].
      intros Hall.
      assert (countIf (fun c => negb (cleanRecord c)) (checks (results st)) = 0)
        as Hz.
      { apply countIf_zero_all. eapply Forall_impl; [|exact Hall].
        simpl. intros c Hc. unfold cleanRecord. now rewrite Hc. }
      lia.
    + destruct (Nat.ltb 0 (Summary.failed (summary (results st)))) eqn:Efail.
      * apply Nat.ltb_lt in Efail. split; [discriminate|].
        intros Hall.
        assert (countIf (fun c => negb (cleanRecord c)) (checks (results st)) = 0)
          as Hz.
        { apply countIf_zero_all. eapply Forall_impl; [|exact Hall].
          simpl. intros c Hc. unfold cleanRecord. now rewrite Hc. }
        lia.
      * apply Nat.ltb_ge in Efail.
        destruct (Nat.ltb 0 (Summary.warnings (summary (results st)))) eqn:Ewarn.
        -- apply Nat.ltb_lt in Ewarn. split; [discriminate|].
           intros Hall.
           assert (countIf (fun c => negb (cleanRecord c)) (checks (results st)) = 0)
             as Hz.
           { apply countIf_zero_all. eapply Forall_impl; [|exact Hall].
             simpl. intros c Hc. unfold cleanRecord. now rewrite Hc. }
           lia.
        -- apply Nat.ltb_ge in Ewarn. split; [|reflexivity]. intros _.
           assert (countIf (fun c => negb (cleanRecord c)) (checks (results st)) = 0)
             as Hz by lia.
           apply countIf_zero_all in Hz.
           eapply Forall_impl; [|exact Hz]. simpl. intros c Hc.
           unfold cleanRecord in Hc.
           destruct (Check.issues_count c) as [[|n]|]; try discriminate.
           reflexivity.
  - unfold machineStatus. simpl.
    destruct (existsb (fun i => blocks_release (issue i))
                      (deduplicateIssues (allIssues st))); [discriminate|].
    destruct (Nat.ltb 0 (Summary.failed (summary (results st)))) eqn:Efail;
      [discriminate|].
    destruct (Nat.ltb 0 (Summary.warnings (summary (results st)))) eqn:Ewarn;
      [discriminate|].
    intros _. apply Nat.ltb_ge in Efail, Ewarn.
    destruct (allIssues st) as [|i rest] eqn:Eall; [reflexivity|].
    assert (i :: rest <> []) as Hne by discriminate.
    specialize (F6 Hne). lia.
  - intros Hb. specialize (Hblocked Hb). unfold exitCode. simpl.
    destruct (Nat.ltb_spec 0 (Summary.failed (summary (results st)))); auto; lia.
  - intros Hex. unfold exitCode. simpl.
    assert (0 < countIf isError (checks (results st))).
    { apply Exists_exists in Hex. destruct Hex as [c [Hc Hs]].
      unfold countIf.
      assert (In c (filter isError (checks (results st)))) as Hin.
      { apply filter_In. split; [exact Hc|]. unfold isError. now rewrite Hs. }
      destruct (filter isError (checks (results st))); [destruct Hin|simpl; lia]. }
    destruct (Nat.ltb_spec 0 (Summary.failed (summary (results st)))); auto; lia.
Qed.

Lemma checkPage_counters_read_off_records_witness :
  Summary.passed (summary Examples.report)
    = countIf cleanRecord (checks Examples.report) /\
  Summary.failed (summary Examples.report)
  + Summary.warnings (summary Examples.report)
    = countIf (fun c => negb (cleanRecord c)) (checks Examples.report) /\
  (machineStatus (summary Examples.report) = "passed" <->
   Forall (fun c => Check.issues_count c = Some 0) (checks Examples.report)) /\
  (machineStatus (summary Examples.report) = "passed" ->
   issues Examples.report = []) /\
  (Summary.blocks_release (summary Examples.report) = true ->
   exitCode (summary Examples.report) = 1) /\
  (Exists (fun c => Check.status c = StatusError) (checks Examples.report) ->
   exitCode (summary Examples.report) = 1).
Proof.
  apply (@checkPage_counters_read_off_records Examples.engine Examples.agent
           Examples.world "https://example.org" "standard" true Examples.report).
  vm_compute. reflexivity.
Defined.

Lemma filter_none {A} (p : A -> bool) (l : list A) :
  (forall x, In x l -> p x = false) -> filter p l = [].
Proof.
  induction l as [|x l IH]; simpl; auto.
  intros Hall. rewrite (Hall x (or_introl eq_refl)). apply IH.
  intros y Hy. apply Hall. now right.
Qed.

Lemma includes_In (x : string) (xs : list string) :
  includes x xs = true <-> In x xs.
Proof.
  unfold includes. rewrite existsb_exists. split.
  - intros [y [Hy Heq]]. apply String.eqb_eq in Heq. now subst.
  - intros Hx. exists x. split; [exact Hx | apply String.eqb_refl].
Qed.

(** X13.  The HTML report attaches no issue to the record of a
    dark-mode check: the record is labelled with the device name
    followed by [" (Dark)"], while the issues carry the plain device
    name, also in [affected_devices].  This holds whenever no device of
    the profile is itself named like another one followed by
    [" (Dark)"]. *)
Theorem generate_dark_records_show_no_issue `{Engine} (this : VisualQAAgent)
        (world : World) (address profileName : string) (checkDarkMode : bool)
        (res : CheckResult) (devs : list Device) (browserTypes : list string) :
  checkPage this world address profileName checkDarkMode = Returned res ->
  getDevicesForProfile (agent_devices this) profileName
    = Returned (devs, browserTypes) ->
  (forall d d', In d devs -> In d' devs ->
                Device.name d <> (Device.name d' ++ " (Dark)")%string) ->
  forall check,
    In check (checks res) ->
    Check.colorScheme check = "dark" ->
    detectedIssuesOf res check = [].
Proof.
  intros Hres Hprofile Hnames check Hcheck Hdark.
  apply checkPage_facts in Hres.
  destruct Hres as [devs' [browserTypes' [st (Hp & -> & (_ & F2 & _ & F4 & _) & _)]]].
  rewrite Hprofile in Hp. inversion Hp; subst. simpl in Hcheck.
  destruct (proj1 (Forall_forall _ _) F2 _ Hcheck) as [d' [Hd' Hlabel]].
  rewrite Hdark in Hlabel. unfold deviceLabel in Hlabel. simpl in Hlabel.
  unfold detectedIssuesOf. simpl. apply filter_none. intros o Ho.
  destruct (deduplicateIssues_affected _ _ Ho) as [ds (H1 & _ & _ & H4)].
  rewrite H1. apply orb_false_iff. split.
  - destruct (includes (Check.device check) ds) eqn:E; [|reflexivity].
    apply includes_In in E. destruct (H4 _ E) as [j [Hj Hdev]].
    destruct (proj1 (Forall_forall _ _) F4 _ Hj) as [d [Hd [Hname _]]].
    exfalso. apply (Hnames d d' Hd Hd'). congruence.
  - apply String.eqb_neq. intros Heq.
    apply deduplicateIssues_incl in Ho.
    destruct (proj1 (Forall_forall _ _) F4 _ Ho) as [d [Hd [Hname _]]].
    apply (Hnames d d' Hd Hd'). congruence.
Qed.

Lemma generate_dark_records_show_no_issue_witness :
  Forall (fun check =>
            Check.colorScheme check = "dark" ->
            detectedIssuesOf Examples.report check = [])
         (checks Examples.report).
Proof.
  apply Forall_forall. intros check Hin Hdark. revert check Hin Hdark.
  apply (@generate_dark_records_show_no_issue Examples.engine Examples.agent
           Examples.world "https://example.org" "standard" true Examples.report
           [Examples.iphone; Examples.desktop] ["chromium"]).
  - vm_compute. reflexivity.
  - reflexivity.
  - intros d d' [<-|[<-|[]]] [<-|[<-|[]]]; vm_compute; discriminate.
Defined.

Section NothingCaptured.
Context `{Engine}.
Variable world : World.
Variables dir address : string.
Hypothesis unreachable : forall k, exists message, capture (world k) = Threw message.

Lemma loop_nothing_captured (ts : list (string * string * Device))
      (st : LoopState) :
  exists st' added,
    forOf ts (tupleBody world dir address) st = Returned st' /\
    checks (results st') = checks (results st) ++ added /\
    length added = length ts /\
    Forall (fun c => Check.status c = StatusError /\ Check.error c <> None) added /\
    allIssues st' = allIssues st /\
    Summary.total (summary (results st')) = Summary.total (summary (results st)) /\
    Summary.passed (summary (results st')) = Summary.passed (summary (results st)) /\
    Summary.warnings (summary (results st'))
      = Summary.warnings (summary (results st)) /\
    Summary.failed (summary (results st'))
      = Summary.failed (summary (results st)) + length ts.
Proof.
  revert st. induction ts as [|[[cs b] d] ts IH]; intros st.
  - exists st, []. unfold forOf. simpl. rewrite app_nil_r.
    repeat split; auto.
  - rewrite forOf_cons. unfold tupleBody at 1. simpl. unfold processTuple.
    destruct (unreachable (visited st)) as [m ->].
    match goal with
    | |- context [forOf ts _ ?s] => destruct (IH s) as [st' [added IH']]
    end.
    destruct IH' as (Hrun & Hchecks & Hlen & Hall & Hissues & Ht & Hp & Hw & Hf).
    exists st'. eexists (_ :: added).
    split; [exact Hrun|].
    split; [rewrite Hchecks; simpl; unfold push; rewrite <- app_assoc; reflexivity|].
    split; [simpl; now rewrite Hlen|].
    split; [constructor; [simpl; split; [reflexivity|discriminate]|exact Hall]|].
    simpl in *. repeat split; try assumption. lia.
Qed.

End NothingCaptured.

(** X14.  When no page of the matrix can be captured, [checkPage] does
    not throw: it returns a result with one record in error per tuple,
    [total], [passed] and [warnings] 0, [failed] the number of tuples,
    no issue, and a release that is not blocked. *)
Theorem checkPage_nothing_captured `{Engine} (this : VisualQAAgent)
        (world : World) (address profileName : string) (checkDarkMode : bool)
        (devs : list Device) (browserTypes : list string) :
  (forall k, exists message, capture (world k) = Threw message) ->
  getDevicesForProfile (agent_devices this) profileName
    = Returned (devs, browserTypes) ->
  exists res,
    checkPage this world address profileName checkDarkMode = Returned res /\
    length (checks res)
      = (if checkDarkMode then 2 else 1) * (length browserTypes * length devs) /\
    Forall (fun c => Check.status c = StatusError /\ Check.error c <> None)
           (checks res) /\
    Summary.total (summary res) = 0 /\
    Summary.passed (summary res) = 0 /\
    Summary.warnings (summary res) = 0 /\
    Summary.failed (summary res) = length (checks res) /\
    issues res = [] /\
    Summary.blocks_release (summary res) = false.
Proof.
  intros Hworld Hprofile. unfold checkPage. rewrite Hprofile.
  rewrite loops_visit_matrix.
  fold (tupleBody world (reportsPath this) address).
  destruct (loop_nothing_captured world (reportsPath this) address Hworld
              (matrix (if checkDarkMode then ["light"; "dark"] else ["light"])
                      browserTypes devs)
              {| results := newResults address profileName;
                 allIssues := []; visited := 0 |})
    as [st [added (Hrun & Hchecks & Hlen & Hall & Hissues & Ht & Hp & Hw & Hf)]].
  rewrite Hrun. eexists. split; [reflexivity|].
  simpl in *. rewrite Hchecks, Hissues, Ht, Hp, Hw, Hf, Hlen, matrix_length.
  repeat split; auto.
  destruct checkDarkMode; simpl; lia.
Qed.

Lemma checkPage_nothing_captured_witness :
  exists res,
    @checkPage Examples.engine Examples.agent
               (fun _ => Examples.timedOut) "https://example.org" "standard" true
      = Returned res /\
    length (checks res) = 2 * (1 * 2) /\
    Forall (fun c => Check.status c = StatusError /\ Check.error c <> None)
           (checks res) /\
    Summary.total (summary res) = 0 /\
    Summary.passed (summary res) = 0 /\
    Summary.warnings (summary res) = 0 /\
    Summary.failed (summary res) = length (checks res) /\
    issues res = [] /\
    Summary.blocks_release (summary res) = false.
Proof.
  apply (@checkPage_nothing_captured Examples.engine Examples.agent
           (fun _ => Examples.timedOut) "https://example.org" "standard" true
           [Examples.iphone; Examples.desktop] ["chromium"]).
  - intros k. eexists. reflexivity.
  - reflexivity.
Defined.

(* ================================================================== *)
(** * urlToSlug                                                        *)
(* ================================================================== *)

Lemma substring_0_length (n : nat) (s : string) :
  String.length (substring 0 n s) <= n.
Proof.
  revert s. induction n as [|n IH]; intros [|c s]; simpl; try lia.
  specialize (IH s). lia.
Qed.

Lemma substring_0_Forall (P : ascii -> Prop) (n : nat) (s : string) :
  Forall P (list_ascii_of_string s) ->
  Forall P (list_ascii_of_string (substring 0 n s)).
Proof.
  revert s. induction n as [|n IH]; intros [|c s] Hall; simpl; auto.
  inversion Hall; subst. constructor; auto.
Qed.

Lemma substring_0_all (n : nat) (s : string) :
  String.length s <= n -> substring 0 n s = s.
Proof.
  revert s. induction n as [|n IH]; intros [|c s] Hlen; simpl in *;
    try reflexivity; try lia.
  rewrite IH; [reflexivity | lia].
Qed.

Lemma replaceNonAlnum_safe (s : string) :
  Forall (fun c => isSlugChar c = true)
         (list_ascii_of_string (replaceNonAlnum s)).
Proof.
  induction s as [|c s IH]; simpl; [constructor|].
  destruct (isAlnum c) eqn:Ealnum.
  - simpl. constructor; [|exact IH]. unfold isSlugChar. now rewrite Ealnum.
  - destruct (Nat.ltb (nat_of_ascii c) 128); [simpl; constructor; auto|].
    destruct (Nat.ltb (nat_of_ascii c) 192); [exact IH|].
    destruct (Nat.ltb (nat_of_ascii c) 240); simpl; repeat constructor; auto.
Qed.

Lemma replaceNonAlnum_fixed (s : string) :
  Forall (fun c => isSlugChar c = true) (list_ascii_of_string s) ->
  replaceNonAlnum s = s.
Proof.
  induction s as [|c s IH]; simpl; [reflexivity|].
  intros Hall. inversion Hall as [|? ? Hc Hrest]; subst.
  rewrite (IH Hrest). unfold isSlugChar in Hc.
  destruct (isAlnum c); [reflexivity|]. simpl in Hc.
  apply Ascii.eqb_eq in Hc. subst c. reflexivity.
Qed.

Ltac split_char s :=
  destruct s as [|[[] [] [] [] [] [] [] []] s]; try (left; reflexivity).

Lemma stripScheme_cases (s : string) :
  stripScheme s = s
  \/ (exists r, s = ("http://" ++ r)%string)
  \/ (exists r, s = ("https://" ++ r)%string).
Proof.
  do 8 (split_char s;
        try (right; left; exists s; reflexivity);
        try (right; right; exists s; reflexivity)).
Qed.

Lemma stripScheme_fixed (s : string) :
  Forall (fun c => isSlugChar c = true) (list_ascii_of_string s) ->
  stripScheme s = s.
Proof.
  intros Hall.
  destruct (stripScheme_cases s) as [Hsame|[[r ->]|[r ->]]]; [exact Hsame| |];
    exfalso; simpl in Hall;
    repeat match goal with
           | H : Forall _ (_ :: _) |- _ => inversion H; clear H; subst
           end;
    match goal with
    | H : isSlugChar ":" = true |- _ => vm_compute in H; discriminate
    end.
Qed.

(** X15.  A slug is a safe file name: at most 100 characters, each of
    them a letter, a digit or an underscore.  Making a slug of a slug
    changes nothing, and the [http] and the [https] address of a page
    have the same slug, so they share one baseline directory. *)
Theorem urlToSlug_safe (url : string) :
  String.length (urlToSlug url) <= 100 /\
  Forall (fun c => isSlugChar c = true) (list_ascii_of_string (urlToSlug url)) /\
  urlToSlug (urlToSlug url) = urlToSlug url /\
  urlToSlug ("http://" ++ url)%string = urlToSlug ("https://" ++ url)%string.
Proof.
  assert (Forall (fun c => isSlugChar c = true)
                 (list_ascii_of_string (urlToSlug url))) as Hsafe.
  { unfold urlToSlug. apply substring_0_Forall, replaceNonAlnum_safe. }
  split; [apply substring_0_length|]. split; [exact Hsafe|]. split.
  - unfold urlToSlug at 1.
    rewrite (stripScheme_fixed _ Hsafe), (replaceNonAlnum_fixed _ Hsafe).
    apply substring_0_all. apply substring_0_length.
  - reflexivity.
Qed.

(* ================================================================== *)
(** * validateUrl, captureScreenshot, saveBaseline                     *)
(* ================================================================== *)

(** X16.  [validateUrl] returns only [true], and does so exactly for a
    non-empty address that the runtime parses with the protocol
    [http:] or [https:].  An address of another protocol is rejected
    with the message that names the protocol: the [catch] block lets
    that error through; any other failure of the parser is reported
    as an invalid address. *)
Theorem validateUrl_accepts_http_only
        (parseProtocol : string -> EvalResult string) (url : string) :
  (forall b,
     validateUrl parseProtocol url = Returned b <->
     b = true /\ url <> EmptyString /\
     (parseProtocol url = Returned "http:"
      \/ parseProtocol url = Returned "https:")) /\
  (forall protocol,
     url <> EmptyString ->
     parseProtocol url = Returned protocol ->
     protocol <> "http:" -> protocol <> "https:" ->
     validateUrl parseProtocol url =
     Threw ("Недопустимый протокол: " ++ protocol
            ++ ". Разрешены только http и https")) /\
  (forall message,
     url <> EmptyString ->
     parseProtocol url = Threw message ->
     includesString "Недопустимый протокол" message = false ->
     validateUrl parseProtocol url = Threw ("Невалидный URL: " ++ url)).
Proof.
  unfold validateUrl.
  destruct url as [|c url]; simpl.
  - split; [|split]; [|congruence|congruence].
    intros b. split; [discriminate|]. intros (_ & Hne & _). congruence.
  - destruct (parseProtocol (String c url)) as [m|protocol].
    + split; [|split].
      * intros b. split.
        -- destruct (includesString _ m); discriminate.
        -- intros (_ & _ & [Hp|Hp]); discriminate.
      * intros protocol _ Hp. discriminate.
      * intros message _ Hm Hinc. inversion Hm; subst. now rewrite Hinc.
    + destruct (String.eqb protocol "http:") eqn:Ehttp; simpl.
      * apply String.eqb_eq in Ehttp. subst protocol.
        split; [|split].
        -- intros b. split.
           ++ intros Hb. inversion Hb. repeat split; auto. discriminate.
           ++ intros (-> & _). reflexivity.
        -- intros protocol _ Hp Hn. inversion Hp. congruence.
        -- intros message _ Hm. discriminate.
      * destruct (String.eqb protocol "https:") eqn:Ehttps; simpl.
        -- apply String.eqb_eq in Ehttps. subst protocol.
           split; [|split].
           ++ intros b. split.
              ** intros Hb. inversion Hb. repeat split; auto. discriminate.
              ** intros (-> & _). reflexivity.
           ++ intros protocol _ Hp _ Hn. inversion Hp. congruence.
           ++ intros message _ Hm. discriminate.
        -- apply String.eqb_neq in Ehttp, Ehttps.
           split; [|split].
           ++ intros b. split; [discriminate|].
              intros (_ & _ & [Hp|Hp]); inversion Hp; congruence.
           ++ intros p _ Hp _ _. inversion Hp; subst. reflexivity.
           ++ intros message _ Hm. discriminate.
Qed.

(** X17.  The browser of [captureScreenshot].  No call is made on the
    browser library when the address is rejected.  [browser.close()]
    is called exactly when the browser, its context and its page were
    opened and [keepOpen] is false, then once and as the last call,
    whatever the [try] block did.  So a browser that was launched
    stays open when [newContext] or [newPage] throws, and when
    [keepOpen] is true also if the navigation throws.  A result that
    is returned comes after all seven calls and carries the browser
    exactly when [keepOpen] is true. *)
Theorem captureScreenshot_browser_lifetime
        (parseProtocol : string -> EvalResult string)
        (session : BrowserSession) (url : string) (device : Device)
        (browserType : string) (keepOpen : bool) :
  let outcome :=
    fst (captureScreenshot parseProtocol session url device browserType keepOpen) in
  let calls :=
    snd (captureScreenshot parseProtocol session url device browserType keepOpen) in
  (calls = [] <-> exists message, validateUrl parseProtocol url = Threw message) /\
  (In CallClose calls <->
   (exists b, validateUrl parseProtocol url = Returned b) /\
   on_launch session = Returned tt /\
   on_newContext session = Returned tt /\
   on_newPage session = Returned tt /\
   keepOpen = false) /\
  (In CallClose calls ->
   exists before, calls = before ++ [CallClose] /\ ~ In CallClose before) /\
  (forall r,
     outcome = Returned r ->
     result_browser r = keepOpen /\
     (result_page r = None <-> keepOpen = false) /\
     calls = [CallLaunch; CallNewContext; CallNewPage; CallGoto;
              CallWaitForTimeout; CallScreenshot; CallTitle]
             ++ (if keepOpen then [] else [CallClose])).
Proof.
  unfold captureScreenshot, captureBody.
  destruct (validateUrl parseProtocol url) as [m|b];
    [simpl; repeat split; intros; eauto; try discriminate;
     try contradiction;
     match goal with
     | H : _ /\ _ |- _ => destruct H as [[? ?] _]; discriminate
     end|].
  destruct (on_launch session) as [?|[]],
           (on_newContext session) as [?|[]],
           (on_newPage session) as [?|[]],
           (on_goto session) as [?|[]],
           (on_waitForTimeout session) as [?|[]],
           (on_screenshot session) as [?|?],
           (on_title session) as [?|?],
           keepOpen,
           (on_close session) as [?|[]];
    simpl;
    (split; [split; [discriminate | intros [? ?]; discriminate]|]);
    (split; [split; [intros Hin; repeat (destruct Hin as [Hin|Hin];
                                         try discriminate);
                     try contradiction; repeat split; eauto
                    |intros (_ & ? & ? & ? & ?); try discriminate; auto 12]|]);
    (split; [intros Hin;
             match goal with
             | |- exists before, ?c = _ /\ _ =>
                 exists (removelast c); simpl; split; [try reflexivity|];
                 try (intros Hb; repeat (destruct Hb as [Hb|Hb];
                                         try discriminate); contradiction)
             end;
             repeat (destruct Hin as [Hin|Hin]; try discriminate);
             contradiction
            |]);
    intros r Hr; try discriminate; inversion Hr; subst; simpl;
    repeat split; auto; try discriminate.
Qed.

Lemma forOfKeeping_cons {S X} (x : X) (xs : list X)
      (body : X -> S -> S * option string) (s : S) :
  forOfKeeping (x :: xs) body s =
  match body x s with
  | (s', None) => forOfKeeping xs body s'
  | (s', Some message) => (s', Some message)
  end.
Proof. reflexivity. Qed.

Section SaveBaseline.
Variable world : nat -> BaselineRun.

Lemma baselineTuple_writes (browserType : string) (device : Device)
      (written : list string) (seen : nat) :
  exists added,
    fst (fst (baselineTuple world browserType device (written, seen)))
      = written ++ added /\
    match snd (baselineTuple world browserType device (written, seen)) with
    | None => added = tupleFiles browserType device
    | Some _ => exists rest, rest <> [] /\
                             tupleFiles browserType device = added ++ rest
    end.
Proof.
  unfold baselineTuple, tupleFiles, push.
  destruct (shot (world seen)) as [m|?]; simpl.
  - exists []. rewrite app_nil_r. split; [reflexivity|].
    eexists. split; [|reflexivity]. discriminate.
  - destruct (writePng (world seen)) as [m|?]; simpl.
    + exists []. rewrite app_nil_r. split; [reflexivity|].
      eexists. split; [|reflexivity]. discriminate.
    + destruct (writeMeta (world seen)) as [m|?]; simpl.
      * eexists [_]. split; [reflexivity|].
        eexists [_]. split; [discriminate|reflexivity].
      * eexists [_; _]. rewrite <- app_assoc. split; reflexivity.
Qed.

Lemma devices_loop_writes (browserType : string) (devs : list Device)
      (st : list string * nat) :
  exists added,
    fst (fst (forOfKeeping devs (baselineTuple world browserType) st))
      = fst st ++ added /\
    match snd (forOfKeeping devs (baselineTuple world browserType) st) with
    | None => added = flat_map (tupleFiles browserType) devs
    | Some _ => exists rest, rest <> [] /\
                  flat_map (tupleFiles browserType) devs = added ++ rest
    end.
Proof.
  revert st. induction devs as [|d devs IH]; intros [written seen].
  - exists []. simpl. rewrite app_nil_r. auto.
  - rewrite forOfKeeping_cons.
    destruct (baselineTuple_writes browserType d written seen)
      as [added [Hwritten Hresult]].
    destruct (baselineTuple world browserType d (written, seen))
      as [[written1 seen1] [m|]] eqn:E; simpl in Hwritten, Hresult.
    + exists added. simpl. split; [exact Hwritten|].
      destruct Hresult as [rest [Hne Hrest]].
      exists (rest ++ flat_map (tupleFiles browserType) devs).
      split; [destruct rest; [congruence|discriminate]|].
      rewrite app_assoc, <- Hrest. reflexivity.
    + destruct (IH (written1, seen1)) as [added' [Hwritten' Hresult']].
      exists (added ++ added'). simpl in Hwritten'.
      split; [rewrite Hwritten', Hwritten, app_assoc; reflexivity|].
      destruct (snd (forOfKeeping devs (baselineTuple world browserType)
                                  (written1, seen1))).
      * destruct Hresult' as [rest [Hne Hrest]]. exists rest.
        split; [exact Hne|]. simpl.
        change (tupleFiles browserType d ++ flat_map (tupleFiles browserType) devs
                = (added ++ added') ++ rest).
        rewrite Hrest, Hresult, app_assoc. reflexivity.
      * subst. reflexivity.
Qed.

Lemma browsers_loop_writes (browserTypes : list string) (devs : list Device)
      (st : list string * nat) :
  exists added,
    fst (fst (forOfKeeping browserTypes
                (fun browserType =>
                   forOfKeeping devs (baselineTuple world browserType)) st))
      = fst st ++ added /\
    match snd (forOfKeeping browserTypes
                 (fun browserType =>
                    forOfKeeping devs (baselineTuple world browserType)) st) with
    | None => added = baselineFiles browserTypes devs
    | Some _ => exists rest, rest <> [] /\
                  baselineFiles browserTypes devs = added ++ rest
    end.
Proof.
  revert st. induction browserTypes as [|b browserTypes IH]; intros [written seen].
  - exists []. simpl. rewrite app_nil_r. auto.
  - rewrite forOfKeeping_cons.
    destruct (devices_loop_writes b devs (written, seen))
      as [added [Hwritten Hresult]].
    destruct (forOfKeeping devs (baselineTuple world b) (written, seen))
      as [[written1 seen1] [m|]] eqn:E; simpl in Hwritten, Hresult.
    + exists added. simpl. split; [exact Hwritten|].
      destruct Hresult as [rest [Hne Hrest]].
      exists (rest ++ baselineFiles browserTypes devs).
      split; [destruct rest; [congruence|discriminate]|].
      unfold baselineFiles. simpl.
      change (flat_map (tupleFiles b) devs
              ++ baselineFiles browserTypes devs
              = added ++ rest ++ baselineFiles browserTypes devs).
      rewrite Hrest, app_assoc. reflexivity.
    + destruct (IH (written1, seen1)) as [added' [Hwritten' Hresult']].
      exists (added ++ added'). simpl in Hwritten'.
      split; [rewrite Hwritten', Hwritten, app_assoc; reflexivity|].
      destruct (snd (forOfKeeping browserTypes
                       (fun browserType =>
                          forOfKeeping devs (baselineTuple world browserType))
                       (written1, seen1))).
      * destruct Hresult' as [rest [Hne Hrest]]. exists rest.
        split; [exact Hne|].
        change (flat_map (tupleFiles b) devs ++ baselineFiles browserTypes devs
                = (added ++ added') ++ rest).
        rewrite Hrest, Hresult, app_assoc. reflexivity.
      * subst. reflexivity.
Qed.

End SaveBaseline.

(** X18.  [saveBaseline] is not atomic.  The files it has written are
    always a beginning of the complete baseline (for every browser and
    device the [.png], then the [.json]); when it returns, the
    baseline is complete and the path returned is the directory of the
    address's slug; when it throws after the directory was made, files
    of the complete baseline are missing while those written before
    stay. *)
Theorem saveBaseline_writes_a_prefix (cfg : DevicesConfig)
        (baselinesPath : string) (pathJoin : string -> string -> string)
        (ensureDir : EvalResult unit) (world : nat -> BaselineRun)
        (url profileName : string)
        (devs : list Device) (browserTypes : list string) :
  getDevicesForProfile cfg profileName = Returned (devs, browserTypes) ->
  let written :=
    fst (saveBaseline cfg baselinesPath pathJoin ensureDir world url profileName) in
  let outcome :=
    snd (saveBaseline cfg baselinesPath pathJoin ensureDir world url profileName) in
  (exists rest, baselineFiles browserTypes devs = written ++ rest) /\
  (forall path,
     outcome = Returned path ->
     path = pathJoin baselinesPath (urlToSlug url) /\
     written = baselineFiles browserTypes devs) /\
  (forall message,
     outcome = Threw message ->
     ensureDir = Returned tt ->
     exists rest, rest <> [] /\ baselineFiles browserTypes devs = written ++ rest).
Proof.
  intros Hprofile. unfold saveBaseline. rewrite Hprofile.
  destruct ensureDir as [m|[]]; simpl.
  - split; [eexists; reflexivity|]. split; [discriminate|]. discriminate.
  - destruct (browsers_loop_writes world browserTypes devs ([], 0))
      as [added [Hwritten Hresult]].
    destruct (forOfKeeping browserTypes
                (fun browserType =>
                   forOfKeeping devs (baselineTuple world browserType)) ([], 0))
      as [[written seen] [m|]]; simpl in *; subst written.
    + destruct Hresult as [rest [Hne Hrest]].
      split; [eauto|]. split; [discriminate|]. eauto.
    + subst added. split; [exists []; now rewrite app_nil_r|].
      split; [|discriminate]. intros path Hpath. inversion Hpath. auto.
Qed.

Lemma saveBaseline_writes_a_prefix_witness :
  (exists rest,
     baselineFiles ["chromium"] [Examples.iphone; Examples.desktop]
     = fst (saveBaseline Examples.config "baselines" MoreExamples.join
              (Returned tt) MoreExamples.fullDisk
              "https://example.org" "standard") ++ rest) /\
  (forall path,
     snd (saveBaseline Examples.config "baselines" MoreExamples.join
            (Returned tt) MoreExamples.fullDisk
            "https://example.org" "standard") = Returned path ->
     path = MoreExamples.join "baselines" (urlToSlug "https://example.org") /\
     fst (saveBaseline Examples.config "baselines" MoreExamples.join
            (Returned tt) MoreExamples.fullDisk
            "https://example.org" "standard")
     = baselineFiles ["chromium"] [Examples.iphone; Examples.desktop]) /\
  (forall message,
     snd (saveBaseline Examples.config "baselines" MoreExamples.join
            (Returned tt) MoreExamples.fullDisk
            "https://example.org" "standard") = Threw message ->
     Returned tt = Returned tt ->
     exists rest, rest <> [] /\
       baselineFiles ["chromium"] [Examples.iphone; Examples.desktop]
       = fst (saveBaseline Examples.config "baselines" MoreExamples.join
                (Returned tt) MoreExamples.fullDisk
                "https://example.org" "standard") ++ rest).
Proof.
  apply (@saveBaseline_writes_a_prefix Examples.config "baselines"
           MoreExamples.join (Returned tt) MoreExamples.fullDisk
           "https://example.org" "standard"
           [Examples.iphone; Examples.desktop] ["chromium"]).
  reflexivity.
Defined.

(* ================================================================== *)
(** * PixelComparator: the constructor, compare, analyzeResults        *)
(* ================================================================== *)

Section ConstructorFacts.
Local Open Scope float_scope.
Local Set Warnings "-inexact-float".

(** X19.  The constructor never keeps a [threshold] or an [alpha] that
    is zero or not a number: such an option, like an absent one, is
    replaced by 0.1, so an exact comparison (threshold 0) cannot be
    asked for; any other number is kept.  [includeAA] is kept also when
    it is [false]. *)
Theorem newPixelComparator_defaults (options : ComparatorOptions) :
  let this := newPixelComparator options in
  is_zero (threshold this) = false /\ is_nan (threshold this) = false /\
  is_zero (alpha this) = false /\ is_nan (alpha this) = false /\
  (forall v, opt_threshold options = Some v ->
             threshold this = if is_zero v || is_nan v then 0.1 else v) /\
  (forall v, opt_alpha options = Some v ->
             alpha this = if is_zero v || is_nan v then 0.1 else v) /\
  (forall v, opt_includeAA options = Some v -> includeAA this = v).
Proof.
  assert (forall x, is_zero (number_or x 0.1) = false
                    /\ is_nan (number_or x 0.1) = false) as Hnumber.
  { intros [v|]; simpl; [|split; reflexivity].
    destruct (is_zero v) eqn:Ez; simpl; [split; reflexivity|].
    destruct (is_nan v) eqn:En; simpl; [split; reflexivity|].
    split; assumption. }
  simpl. destruct (Hnumber (opt_threshold options)) as [H1 H2].
  destruct (Hnumber (opt_alpha options)) as [H3 H4].
  repeat split; auto; intros v Hv; rewrite Hv; reflexivity.
Qed.

End ConstructorFacts.

Lemma toFixed4_bounds (x : Q) :
  (0 <= x)%Q -> (x <= 100)%Q -> (0 <= toFixed4 x)%Q /\ (toFixed4 x <= 100)%Q.
Proof.
  intros Hlo Hhi. unfold toFixed4.
  assert (0 <= Qfloor (x * 10000 + (1 # 2))%Q)%Z as Hz.
  { change 0%Z with (Qfloor 0). apply Qfloor_resp_le.
    destruct x as [a b]. unfold Qle in *. simpl in *.
    rewrite ?Pos2Z.inj_mul. lia. }
  assert (Qfloor (x * 10000 + (1 # 2))%Q <= 1000000)%Z as Hm.
  { change 1000000%Z with (Qfloor (100 * 10000 + (1 # 2))%Q).
    apply Qfloor_resp_le.
    destruct x as [a b]. unfold Qle in *. simpl in *.
    rewrite ?Pos2Z.inj_mul. lia. }
  split; unfold Qle; cbn [Qnum Qden]; lia.
Qed.

Lemma percentOf_bounds (diffPixels totalPixels : nat) :
  totalPixels <> 0 -> diffPixels <= totalPixels ->
  exists x, percentOf diffPixels totalPixels = Some x /\
            (0 <= x)%Q /\ (x <= 100)%Q.
Proof.
  intros Hne Hle. unfold percentOf.
  destruct totalPixels as [|n]; [congruence|]. simpl Nat.eqb. cbv iota.
  eexists. split; [reflexivity|].
  change (Z.of_nat (S n)) with (Zpos (Pos.of_succ_nat n)).
  rewrite <- Qmake_Qdiv.
  assert (Z.of_nat diffPixels <= Zpos (Pos.of_succ_nat n))%Z as Hz.
  { rewrite Zpos_P_of_succ_nat. lia. }
  unfold Qle. simpl. lia.
Qed.

(** What [compare] did when it returns the result of a comparison. *)
Lemma compare_compared_inv `{PixelMatch} (this : PixelComparator)
      (fs : FileSystem) (image1Path image2Path : string)
      (outputDiffPath : option string) (match_ : bool)
      (diffPixels totalPixels : nat) (diffPercent : option Q)
      (dimensions : Dimensions.t) (diffImagePath : option string)
      (written : list (string * Png.t)) :
  compare this fs image1Path image2Path outputDiffPath
    = Returned (Compared match_ diffPixels totalPixels diffPercent dimensions
                         diffImagePath, written) ->
  exists img1 img2,
    loadPNG fs image1Path = Some img1 /\
    loadPNG fs image2Path = Some img2 /\
    Png.width img1 = Png.width img2 /\
    Png.height img1 = Png.height img2 /\
    dimensions = {| Dimensions.width := Png.width img1;
                    Dimensions.height := Png.height img1 |} /\
    diffPixels = fst (pixelmatch (Png.data img1) (Png.data img2)
                                 (Png.width img1) (Png.height img1) this) /\
    match_ = Nat.eqb diffPixels 0 /\
    totalPixels = Png.width img1 * Png.height img1 /\
    diffPercent = option_map toFixed4 (percentOf diffPixels totalPixels) /\
    diffImagePath = (if Nat.ltb 0 diffPixels then outputDiffPath else None) /\
    written =
      match outputDiffPath with
      | Some path =>
          if truthy path && Nat.ltb 0 diffPixels
          then [(path,
                 {| Png.width := Png.width img1;
                    Png.height := Png.height img1;
                    Png.data := snd (pixelmatch (Png.data img1) (Png.data img2)
                                       (Png.width img1) (Png.height img1) this) |})]
          else []
      | None => []
      end.
Proof.
  unfold compare.
  destruct (loadPNG fs image1Path) as [img1|]; [|discriminate].
  destruct (loadPNG fs image2Path) as [img2|]; [|discriminate].
  destruct (Nat.eqb (Png.width img1) (Png.width img2)) eqn:Ew; simpl;
    [|discriminate].
  destruct (Nat.eqb (Png.height img1) (Png.height img2)) eqn:Eh; simpl;
    [|discriminate].
  apply Nat.eqb_eq in Ew, Eh.
  destruct (pixelmatch (Png.data img1) (Png.data img2) (Png.width img1)
                       (Png.height img1) this) as [n out] eqn:Ematch.
  intros Hres. exists img1, img2. simpl.
  destruct outputDiffPath as [path|].
  - destruct (truthy path && Nat.ltb 0 n) eqn:Ewrite.
    + destruct (savePNG fs _ path); [discriminate|].
      inversion Hres; subst. rewrite Ewrite, Ematch. repeat split; auto.
    + inversion Hres; subst. rewrite Ewrite, Ematch. repeat split; auto.
  - inversion Hres; subst. rewrite Ematch. repeat split; auto.
Qed.

(** X20.  A comparison that [compare] returns: the images match
    exactly when no pixel differs; a diff image is written exactly
    when a pixel differs and a non-empty diff path was given, then one
    file at that path with the size of the images, and
    [diffImagePath] is the given path when a pixel differs and [null]
    otherwise.  When the matcher reports no more differing pixels than
    the image has, [diffPercent] lies between 0 and 100. *)
Theorem compare_result_consistent `{PixelMatch} (this : PixelComparator)
        (fs : FileSystem) (image1Path image2Path : string)
        (outputDiffPath : option string) (match_ : bool)
        (diffPixels totalPixels : nat) (diffPercent : option Q)
        (dimensions : Dimensions.t) (diffImagePath : option string)
        (written : list (string * Png.t)) :
  compare this fs image1Path image2Path outputDiffPath
    = Returned (Compared match_ diffPixels totalPixels diffPercent dimensions
                         diffImagePath, written) ->
  (match_ = true <-> diffPixels = 0) /\
  totalPixels = Dimensions.width dimensions * Dimensions.height dimensions /\
  (diffImagePath = if Nat.eqb diffPixels 0 then None else outputDiffPath) /\
  (written <> [] <->
   0 < diffPixels /\ exists path, outputDiffPath = Some path /\ path <> EmptyString) /\
  (forall path png,
     In (path, png) written ->
     written = [(path, png)] /\ outputDiffPath = Some path /\
     Png.width png = Dimensions.width dimensions /\
     Png.height png = Dimensions.height dimensions) /\
  (totalPixels <> 0 -> diffPixels <= totalPixels ->
   exists d, diffPercent = Some d /\ (0 <= d)%Q /\ (d <= 100)%Q) /\
  (totalPixels = 0 -> diffPercent = None).
Proof.
  intros Hres. apply compare_compared_inv in Hres.
  destruct Hres as [img1 [img2 (_ & _ & _ & _ & -> & Hn & -> & -> & -> & -> & ->)]].
  clear Hn. simpl.
  split; [apply Nat.eqb_eq|]. split; [reflexivity|].
  split; [destruct diffPixels; reflexivity|].
  split; [|split; [|split]].
  - destruct outputDiffPath as [[|c path]|]; simpl.
    + split; [congruence|]. intros (_ & p & Hp & Hne). congruence.
    + destruct diffPixels; simpl.
      * split; [congruence|]. intros (Hlt & _). lia.
      * split; [|discriminate]. intros _. split; [lia|].
        eexists. split; [reflexivity|discriminate].
    + split; [congruence|]. intros (_ & p & Hp & _). discriminate.
  - intros path png Hin.
    destruct outputDiffPath as [p|]; [|destruct Hin].
    destruct (truthy p && Nat.ltb 0 diffPixels); [|destruct Hin].
    destruct Hin as [Heq|[]]. inversion Heq; subst. simpl. auto.
  - intros Hne Hle.
    destruct (percentOf_bounds Hne Hle) as [x (-> & Hlo & Hhi)].
    simpl. eexists. split; [reflexivity|]. now apply toFixed4_bounds.
  - intros Hz. unfold percentOf. rewrite Hz. reflexivity.
Qed.

Lemma compare_result_consistent_witness :
  (false = true <-> 1 = 0) /\
  2 = 2 * 1 /\
  (Some "diff/a.png" = if Nat.eqb 1 0 then None else Some "diff/a.png") /\
  ([("diff/a.png",
     {| Png.width := 2; Png.height := 1;
        Png.data := [255; 255; 255; 255; 255; 0; 0; 255]%N |})] <> [] <->
   0 < 1 /\ exists path, Some "diff/a.png" = Some path /\ path <> EmptyString) /\
  (forall path png,
     In (path, png)
        [("diff/a.png",
          {| Png.width := 2; Png.height := 1;
             Png.data := [255; 255; 255; 255; 255; 0; 0; 255]%N |})] ->
     [("diff/a.png",
       {| Png.width := 2; Png.height := 1;
          Png.data := [255; 255; 255; 255; 255; 0; 0; 255]%N |})]
       = [(path, png)] /\
     Some "diff/a.png" = Some path /\
     Png.width png = 2 /\ Png.height png = 1) /\
  (2 <> 0 -> 1 <= 2 ->
   exists d, Some (toFixed4 (inject_Z 1 / inject_Z 2 * 100)%Q) = Some d
             /\ (0 <= d)%Q /\ (d <= 100)%Q) /\
  (2 = 0 -> Some (toFixed4 (inject_Z 1 / inject_Z 2 * 100)%Q) = None).
Proof.
  apply (@compare_result_consistent Examples.matcher Examples.comparator
           MoreExamples.pngs "baseline/a.png" "current/a.png"
           (Some "diff/a.png") false 1 2
           (Some (toFixed4 (inject_Z 1 / inject_Z 2 * 100)%Q))
           {| Dimensions.width := 2; Dimensions.height := 1 |}
           (Some "diff/a.png")).
  reflexivity.
Defined.

Lemma Qltb_mono (d1 d2 limit : Q) :
  (d1 <= d2)%Q -> Qltb d2 limit = true -> Qltb d1 limit = true.
Proof.
  unfold Qltb. intros Hle H2.
  apply negb_true_iff in H2. apply negb_true_iff.
  destruct (Qle_bool limit d1) eqn:E; [|reflexivity].
  apply Qle_bool_iff in E.
  assert (Qle_bool limit d2 = true) as Habs
      by (apply Qle_bool_iff; eapply Qle_trans; eauto).
  congruence.
Qed.

(** X21.  The grades of [analyzeResults].  [requiresReview] is set
    exactly for the statuses ['warning'] and ['failed']; the severity
    is ['none'] exactly for ['passed'], ['warning'] for ['warning'] and
    ['critical'] for ['failed'] and ['error'].  Of two comparisons that
    do not match, the one with the larger [diffPercent] never gets the
    better status, whatever the thresholds are; and with a warning
    threshold that is not above the acceptable one no comparison gets
    the status ['warning']. *)
Theorem analyzeResults_grades (showNumber : Q -> string)
        (thresholds : Thresholds) :
  (forall comparison,
     let a := analyzeResults showNumber comparison thresholds in
     (requiresReview a = true <->
      analysis_status a = StatusWarning \/ analysis_status a = StatusFailed) /\
     (analysis_severity a = SeverityNone <-> analysis_status a = StatusPassed) /\
     (analysis_severity a = SeverityWarning <->
      analysis_status a = StatusWarning) /\
     (analysis_severity a = SeverityCritical <->
      analysis_status a = StatusFailed \/ analysis_status a = StatusError)) /\
  (forall n1 t1 d1 dim1 p1 n2 t2 d2 dim2 p2,
     (d1 <= d2)%Q ->
     badness (analysis_status
                (analyzeResults showNumber
                   (Compared false n1 t1 (Some d1) dim1 p1) thresholds))
     <= badness (analysis_status
                   (analyzeResults showNumber
                      (Compared false n2 t2 (Some d2) dim2 p2) thresholds))) /\
  (forall acceptable warning comparison,
     acceptablePercent thresholds = Some acceptable ->
     warningPercent thresholds = Some warning ->
     (warning <= acceptable)%Q ->
     analysis_status (analyzeResults showNumber comparison thresholds)
       <> StatusWarning).
Proof.
  split; [|split].
  - intros comparison. unfold analyzeResults.
    destruct comparison as [e|? ? ?|[] n t [d|] dims p]; simpl;
      repeat match goal with
             | |- context [if ?b then _ else _] => destruct b; simpl
             end;
      repeat split; intros; try discriminate; auto;
      repeat match goal with
             | H : _ \/ _ |- _ => destruct H; try discriminate
             end.
  - intros n1 t1 d1 dim1 p1 n2 t2 d2 dim2 p2 Hle. unfold analyzeResults.
    set (acceptable := match acceptablePercent thresholds with
                       | Some v => v | None => (1 # 10)%Q end).
    set (warning := match warningPercent thresholds with
                    | Some v => v | None => 1%Q end).
    simpl.
    pose proof (@Qltb_mono d1 d2 acceptable Hle) as Hacc.
    pose proof (@Qltb_mono d1 d2 warning Hle) as Hwarn.
    destruct (Qltb d1 acceptable); simpl; [lia|].
    destruct (Qltb d2 acceptable); [specialize (Hacc eq_refl); discriminate|].
    destruct (Qltb d1 warning); simpl.
    + destruct (Qltb d2 warning); simpl; lia.
    + destruct (Qltb d2 warning); [specialize (Hwarn eq_refl); discriminate|].
      simpl. lia.
  - intros acceptable warning comparison Hacc Hwarn Hle.
    unfold analyzeResults. rewrite Hacc, Hwarn.
    destruct comparison as [e|? ? ?|[] n t [d|] dims p]; simpl;
      try discriminate.
    destruct (Qltb d acceptable) eqn:Ea; simpl; [discriminate|].
    destruct (Qltb d warning) eqn:Ew; simpl; [|discriminate].
    exfalso. unfold Qltb in *.
    apply negb_false_iff in Ea. apply negb_true_iff in Ew.
    apply Qle_bool_iff in Ea.
    assert (Qle_bool warning d = true) as Habs
        by (apply Qle_bool_iff; eapply Qle_trans; eauto).
    congruence.
Qed.

(** X22.  [analyzeResults] on what [compare] returned.  The status is
    ['error'] exactly when an image could not be loaded or the sizes
    differ; for differing sizes the message is the general one, the
    sizes that [compare] put into [message] are not shown.  When a
    non-empty diff path was given, every comparison graded
    ['warning'] or ['failed'] has its diff image written, and a
    comparison that wrote none is graded ['passed'] or ['error']. *)
Theorem analyzeResults_of_compare `{PixelMatch} (this : PixelComparator)
        (fs : FileSystem) (image1Path image2Path diffPath : string)
        (comparison : Comparison) (written : list (string * Png.t))
        (showNumber : Q -> string) (thresholds : Thresholds) :
  compare this fs image1Path image2Path (Some diffPath)
    = Returned (comparison, written) ->
  diffPath <> EmptyString ->
  let a := analyzeResults showNumber comparison thresholds in
  (analysis_status a = StatusError <->
   loadPNG fs image1Path = None \/ loadPNG fs image2Path = None
   \/ exists img1 img2,
        loadPNG fs image1Path = Some img1 /\ loadPNG fs image2Path = Some img2 /\
        (Png.width img1 <> Png.width img2 \/ Png.height img1 <> Png.height img2)) /\
  (forall img1 img2,
     loadPNG fs image1Path = Some img1 -> loadPNG fs image2Path = Some img2 ->
     Png.width img1 <> Png.width img2 \/ Png.height img1 <> Png.height img2 ->
     analysis_message a = "Ошибка сравнения") /\
  (loadPNG fs image1Path = None \/ loadPNG fs image2Path = None ->
   analysis_message a = "Не удалось загрузить изображения") /\
  (analysis_status a = StatusWarning \/ analysis_status a = StatusFailed ->
   exists png, written = [(diffPath, png)]) /\
  (written = [] ->
   analysis_status a = StatusPassed \/ analysis_status a = StatusError).
Proof.
  intros Hres Hpath a. subst a.
  destruct comparison as [e|d1 d2 msg|m n t pct dims p].
  - (* an image was not loaded *)
    unfold compare in Hres.
    destruct (loadPNG fs image1Path) as [img1|] eqn:E1;
      [destruct (loadPNG fs image2Path) as [img2|] eqn:E2|].
    + destruct (negb (Nat.eqb (Png.width img1) (Png.width img2))
                || negb (Nat.eqb (Png.height img1) (Png.height img2)));
        [discriminate|].
      destruct (pixelmatch _ _ _ _ _) as [k out].
      destruct (truthy diffPath && Nat.ltb 0 k);
        [destruct (savePNG fs _ diffPath)|]; discriminate.
    + inversion Hres; subst. simpl.
      repeat split; auto; intros; try discriminate.
      destruct H0; discriminate.
    + inversion Hres; subst. simpl.
      repeat split; auto; intros; try discriminate.
      destruct H0; discriminate.
  - (* the sizes differ *)
    unfold compare in Hres.
    destruct (loadPNG fs image1Path) as [img1|] eqn:E1; [|discriminate].
    destruct (loadPNG fs image2Path) as [img2|] eqn:E2; [|discriminate].
    destruct (Nat.eqb (Png.width img1) (Png.width img2)) eqn:Ew;
      destruct (Nat.eqb (Png.height img1) (Png.height img2)) eqn:Eh;
      simpl in Hres;
      try (destruct (pixelmatch _ _ _ _ _) as [k out];
           destruct (truthy diffPath && Nat.ltb 0 k);
           [destruct (savePNG fs _ diffPath)|]; discriminate);
      inversion Hres; subst; simpl;
      apply Nat.eqb_neq in Ew || apply Nat.eqb_neq in Eh;
      (split; [split; [intros _; right; right; exists img1, img2; auto|reflexivity]|]);
      (split; [reflexivity|]);
      (split; [intros [?|?]; discriminate|]);
      (split; [intros [?|?]; discriminate|auto]).
  - (* the images were compared *)
    apply compare_compared_inv in Hres.
    destruct Hres as [img1 [img2 (E1 & E2 & Ew & Eh & _ & _ & -> & _ & _ & _ & ->)]].
    split; [|split; [|split; [|split]]].
    + split.
      * unfold analyzeResults.
        destruct (Nat.eqb n 0); simpl; [discriminate|].
        repeat match goal with
               | |- context [if ?b then _ else _] => destruct b; simpl
               end; discriminate.
      * intros [Hn|[Hn|[i1 [i2 (H1 & H2 & Hne)]]]]; try congruence.
        rewrite E1 in H1. rewrite E2 in H2. inversion H1; inversion H2; subst.
        destruct Hne; congruence.
    + intros i1 i2 H1 H2 Hne.
      rewrite E1 in H1. rewrite E2 in H2. inversion H1; inversion H2; subst.
      destruct Hne; congruence.
    + intros [Hn|Hn]; congruence.
    + destruct diffPath as [|c rest]; [congruence|]. simpl.
      destruct n; simpl.
      * intros [Hs|Hs]; discriminate.
      * intros _. eexists. reflexivity.
    + destruct diffPath as [|c rest]; [congruence|]. simpl.
      destruct n; simpl; [auto|discriminate].
Qed.

Lemma analyzeResults_of_compare_witness :
  (analysis_status
     (analyzeResults MoreExamples.shown MoreExamples.changed
                     MoreExamples.defaults) = StatusError <->
   loadPNG MoreExamples.pngs "baseline/a.png" = None
   \/ loadPNG MoreExamples.pngs "current/a.png" = None
   \/ exists img1 img2,
        loadPNG MoreExamples.pngs "baseline/a.png" = Some img1 /\
        loadPNG MoreExamples.pngs "current/a.png" = Some img2 /\
        (Png.width img1 <> Png.width img2 \/ Png.height img1 <> Png.height img2)) /\
  (forall img1 img2,
     loadPNG MoreExamples.pngs "baseline/a.png" = Some img1 ->
     loadPNG MoreExamples.pngs "current/a.png" = Some img2 ->
     Png.width img1 <> Png.width img2 \/ Png.height img1 <> Png.height img2 ->
     analysis_message
       (analyzeResults MoreExamples.shown MoreExamples.changed
                       MoreExamples.defaults) = "Ошибка сравнения") /\
  (loadPNG MoreExamples.pngs "baseline/a.png" = None
   \/ loadPNG MoreExamples.pngs "current/a.png" = None ->
   analysis_message
     (analyzeResults MoreExamples.shown MoreExamples.changed
                     MoreExamples.defaults)
   = "Не удалось загрузить изображения") /\
  (analysis_status
     (analyzeResults MoreExamples.shown MoreExamples.changed
                     MoreExamples.defaults) = StatusWarning
   \/ analysis_status
        (analyzeResults MoreExamples.shown MoreExamples.changed
                        MoreExamples.defaults) = StatusFailed ->
   exists png, MoreExamples.changedDiff = [("diff/a.png", png)]) /\
  (MoreExamples.changedDiff = [] ->
   analysis_status
     (analyzeResults MoreExamples.shown MoreExamples.changed
                     MoreExamples.defaults) = StatusPassed
   \/ analysis_status
        (analyzeResults MoreExamples.shown MoreExamples.changed
                        MoreExamples.defaults) = StatusError).
Proof.
  apply (@analyzeResults_of_compare Examples.matcher Examples.comparator
           MoreExamples.pngs "baseline/a.png" "current/a.png" "diff/a.png"
           MoreExamples.changed MoreExamples.changedDiff
           MoreExamples.shown MoreExamples.defaults).
  - reflexivity.
  - discriminate.
Defined.

(* ================================================================== *)
(** * compareDirectories                                               *)
(* ================================================================== *)

Section CompareDirectories.
Context `{PixelMatch}.
Variable this : PixelComparator.
Variable dirs : Directories.
Variables baselineDir currentDir outputDir : string.
Hypothesis saves :
  forall png path, exists u, savePNG (images dirs) png path = Returned u.
Hypothesis joined : forall a b, path_join dirs a b <> EmptyString.
Hypothesis opens : forall p, pathExists dirs p = true -> readable dirs p = true.

Lemma diffImages_snoc (cs : list FileComparison) (c : FileComparison) :
  diffImages (cs ++ [c])
  = diffImages cs ++ match file_diffImage c with Some p => [p] | None => [] end.
Proof. unfold diffImages. rewrite flat_map_app. simpl. now rewrite app_nil_r. Qed.

Lemma compareFile_step (f : string) (res : DirectoryResults) :
  directoryCounts res ->
  pathExists dirs (path_join dirs baselineDir f) = true
  \/ pathExists dirs (path_join dirs currentDir f) = true ->
  exists res',
    compareFile this dirs baselineDir currentDir outputDir f res
      = Settles (Returned res') /\
    directoryCounts res' /\
    map file (comparisons res') = map file (comparisons res) ++ [f].
Proof.
  intros (Ht & Hm & Hd & Hmi & Hn & Hsum & Hw) Hsome.
  unfold compareFile.
  set (diffPath := path_join dirs outputDir ("diff_" ++ f)).
  assert (truthy diffPath = true) as Htruthy.
  { pose proof (joined outputDir ("diff_" ++ f)) as Hne. fold diffPath in Hne.
    destruct diffPath; [congruence|reflexivity]. }
  assert (forall c w,
    directoryCounts
      {| comparisons := push (comparisons res) c;
         dir_summary :=
           {| DirSummary.total := S (DirSummary.total (dir_summary res));
              DirSummary.matched :=
                (if hasStatus FileMatched c then 1 else 0)
                + DirSummary.matched (dir_summary res);
              DirSummary.different :=
                (if hasStatus FileDifferent c then 1 else 0)
                + DirSummary.different (dir_summary res);
              DirSummary.missing :=
                (if hasStatus FileMissing c then 1 else 0)
                + DirSummary.missing (dir_summary res);
              DirSummary.new :=
                (if hasStatus FileNew c then 1 else 0)
                + DirSummary.new (dir_summary res) |};
         diffsWritten :=
           diffsWritten res
           ++ match file_diffImage c with Some p => [(p, w)] | None => [] end |})
    as Hstep.
  { intros c w. unfold directoryCounts, push. simpl.
    rewrite !countIf_snoc, length_app, diffImages_snoc, map_app, Hw. simpl.
    repeat split; try lia.
    - unfold hasStatus in *. destruct (file_status c); simpl; lia.
    - destruct (file_diffImage c); reflexivity. }
  destruct (pathExists dirs (path_join dirs baselineDir f)) eqn:Ebaseline;
    destruct (pathExists dirs (path_join dirs currentDir f)) eqn:Ecurrent;
    cbn [negb andb].
  4: { destruct Hsome; discriminate. }
  3: { eexists. split; [reflexivity|]. split.
    - pose proof (Hstep (entry f FileNew) {| Png.width := 0; Png.height := 0;
                                            Png.data := [] |}) as Hs.
      simpl in Hs. rewrite app_nil_r in Hs. exact Hs.
    - simpl. unfold push. rewrite map_app. reflexivity. }
  2: { eexists. split; [reflexivity|]. split.
    - pose proof (Hstep (entry f FileMissing) {| Png.width := 0; Png.height := 0;
                                                Png.data := [] |}) as Hs.
      simpl in Hs. rewrite app_nil_r in Hs. exact Hs.
    - simpl. unfold push. rewrite map_app. reflexivity. }
  rewrite (opens _ Ebaseline), (opens _ Ecurrent). cbn [negb].
  unfold compare.
  destruct (loadPNG (images dirs) (path_join dirs baselineDir f)) as [img1|];
    [destruct (loadPNG (images dirs) (path_join dirs currentDir f)) as [img2|]|].
  - destruct (negb (Nat.eqb (Png.width img1) (Png.width img2))
              || negb (Nat.eqb (Png.height img1) (Png.height img2))).
    + eexists. split; [reflexivity|]. split.
      * match goal with
        | |- directoryCounts {| comparisons := push _ ?c |} =>
            pose proof (Hstep c {| Png.width := 0; Png.height := 0;
                                   Png.data := [] |}) as Hs
        end.
        simpl in Hs. exact Hs.
      * simpl. unfold push. rewrite map_app. reflexivity.
    + destruct (pixelmatch (Png.data img1) (Png.data img2) (Png.width img1)
                           (Png.height img1) this) as [n out].
      rewrite Htruthy. simpl.
      destruct n as [|n]; simpl.
      * eexists. split; [reflexivity|]. split.
        -- match goal with
           | |- directoryCounts {| comparisons := push _ ?c |} =>
               pose proof (Hstep c {| Png.width := 0; Png.height := 0;
                                      Png.data := [] |}) as Hs
           end.
           simpl in Hs. exact Hs.
        -- simpl. unfold push. rewrite map_app. reflexivity.
      * destruct (saves {| Png.width := Png.width img1;
                           Png.height := Png.height img1;
                           Png.data := out |} diffPath) as [u ->].
        eexists. split; [reflexivity|]. split.
        -- match goal with
           | |- directoryCounts {| comparisons := push _ ?c;
                                   diffsWritten := _ ++ [(_, ?w)] |} =>
               pose proof (Hstep c w) as Hs
           end.
           simpl in Hs. exact Hs.
        -- simpl. unfold push. rewrite map_app. reflexivity.
  - eexists. split; [reflexivity|]. split.
    + match goal with
      | |- directoryCounts {| comparisons := push _ ?c |} =>
          pose proof (Hstep c {| Png.width := 0; Png.height := 0;
                                 Png.data := [] |}) as Hs
      end.
      simpl in Hs. exact Hs.
    + simpl. unfold push. rewrite map_app. reflexivity.
  - eexists. split; [reflexivity|]. split.
    + match goal with
      | |- directoryCounts {| comparisons := push _ ?c |} =>
          pose proof (Hstep c {| Png.width := 0; Png.height := 0;
                                 Png.data := [] |}) as Hs
      end.
      simpl in Hs. exact Hs.
    + simpl. unfold push. rewrite map_app. reflexivity.
Qed.

Lemma directory_loop (fs : list string) (res : DirectoryResults) :
  directoryCounts res ->
  (forall f, In f fs ->
             pathExists dirs (path_join dirs baselineDir f) = true
             \/ pathExists dirs (path_join dirs currentDir f) = true) ->
  exists res',
    forOfSettling fs (compareFile this dirs baselineDir currentDir outputDir) res
      = Settles (Returned res') /\
    directoryCounts res' /\
    map file (comparisons res') = map file (comparisons res) ++ fs.
Proof.
  revert res. induction fs as [|f fs IH]; intros res Hres Hsome.
  - exists res. simpl. rewrite app_nil_r. auto.
  - cbn [forOfSettling].
    destruct (compareFile_step f Hres (Hsome f (or_introl eq_refl)))
      as [res1 (-> & Hres1 & Hfiles1)].
    destruct (IH res1 Hres1 (fun g Hg => Hsome g (or_intror Hg)))
      as [res' (Hrun & Hres' & Hfiles')].
    exists res'. split; [exact Hrun|]. split; [exact Hres'|].
    rewrite Hfiles', Hfiles1, <- app_assoc. reflexivity.
Qed.

End CompareDirectories.

(** An entry that exists on both sides and cannot be opened ends the
    process: [compareDirectories] gives no result, not even for the
    entries before it. *)
Lemma compareDirectories_unreadable_entry :
  @compareDirectories Examples.matcher Examples.comparator MoreExamples.locked
                      "baseline" "current" "diffs" = Dies.
Proof. vm_compute. reflexivity. Qed.

(** X23.  Suppose every listed file is still there in at least one of
    the two directories when the loop reaches it, every file that
    exists can be opened for reading, and writing a diff image never
    fails.  Then [compareDirectories] returns, with one entry for each
    distinct [.png] name of the two directories, in the order of the
    listings (baseline first).  Its counters count the entries by
    status; the entries in error (an image the PNG parser rejects, or
    two sizes) are counted in [total] only, so the four other counters
    add up to [total] less the errors.  The diff images written are
    those the ['different'] entries point to. *)
Theorem compareDirectories_summary `{PixelMatch} (this : PixelComparator)
        (dirs : Directories) (baselineDir currentDir outputDir : string) :
  (forall png path, exists u, savePNG (images dirs) png path = Returned u) ->
  (forall a b, path_join dirs a b <> EmptyString) ->
  (forall p, pathExists dirs p = true -> readable dirs p = true) ->
  (forall f, In f (allFiles dirs baselineDir currentDir) ->
             pathExists dirs (path_join dirs baselineDir f) = true
             \/ pathExists dirs (path_join dirs currentDir f) = true) ->
  exists res,
    compareDirectories this dirs baselineDir currentDir outputDir
      = Settles (Returned res) /\
    map file (comparisons res) = allFiles dirs baselineDir currentDir /\
    NoDup (map file (comparisons res)) /\
    (forall f, In f (map file (comparisons res)) <->
               endsWithPng f = true /\
               (In f (getPNGFiles dirs baselineDir)
                \/ In f (getPNGFiles dirs currentDir))) /\
    DirSummary.total (dir_summary res) = length (comparisons res) /\
    DirSummary.matched (dir_summary res)
      = countIf (hasStatus FileMatched) (comparisons res) /\
    DirSummary.different (dir_summary res)
      = countIf (hasStatus FileDifferent) (comparisons res) /\
    DirSummary.missing (dir_summary res)
      = countIf (hasStatus FileMissing) (comparisons res) /\
    DirSummary.new (dir_summary res)
      = countIf (hasStatus FileNew) (comparisons res) /\
    DirSummary.matched (dir_summary res) + DirSummary.different (dir_summary res)
    + DirSummary.missing (dir_summary res) + DirSummary.new (dir_summary res)
    + countIf (hasStatus FileError) (comparisons res)
      = DirSummary.total (dir_summary res) /\
    map fst (diffsWritten res) = diffImages (comparisons res).
Proof.
  intros Hsaves Hjoined Hopens Hsome. unfold compareDirectories.
  match goal with
  | |- context [forOfSettling ?fs ?body ?start] =>
      destruct (@directory_loop _ this dirs baselineDir currentDir outputDir
                  Hsaves Hjoined Hopens fs start)
        as [res (Hrun & Hcounts & Hfiles)]
  end.
  { unfold directoryCounts, countIf. simpl. repeat split; reflexivity. }
  { exact Hsome. }
  exists res. split; [exact Hrun|]. simpl in Hfiles.
  destruct Hcounts as (Ht & Hm & Hd & Hmi & Hn & Hsum & Hw).
  split; [exact Hfiles|]. rewrite Hfiles.
  split; [exact (distinctDevices_NoDup _)|].
  split.
  - intros f. unfold allFiles.
    change (firstBy String.eqb []
              (getPNGFiles dirs baselineDir ++ getPNGFiles dirs currentDir))
      with (distinctDevices
              (getPNGFiles dirs baselineDir ++ getPNGFiles dirs currentDir)).
    rewrite distinctDevices_In, in_app_iff.
    split; [|tauto]. intros Hin. split; [|exact Hin].
    unfold getPNGFiles in Hin.
    destruct Hin as [Hin|Hin];
      [destruct (readdir dirs baselineDir)|destruct (readdir dirs currentDir)];
      try destruct Hin; apply filter_In in Hin; tauto.
  - repeat split; auto; lia.
Qed.

Lemma compareDirectories_summary_witness :
  exists res,
    @compareDirectories Examples.matcher Examples.comparator MoreExamples.dirs
                        "baseline" "current" "diffs" = Settles (Returned res) /\
    map file (comparisons res) = allFiles MoreExamples.dirs "baseline" "current" /\
    NoDup (map file (comparisons res)) /\
    (forall f, In f (map file (comparisons res)) <->
               endsWithPng f = true /\
               (In f (getPNGFiles MoreExamples.dirs "baseline")
                \/ In f (getPNGFiles MoreExamples.dirs "current"))) /\
    DirSummary.total (dir_summary res) = length (comparisons res) /\
    DirSummary.matched (dir_summary res)
      = countIf (hasStatus FileMatched) (comparisons res) /\
    DirSummary.different (dir_summary res)
      = countIf (hasStatus FileDifferent) (comparisons res) /\
    DirSummary.missing (dir_summary res)
      = countIf (hasStatus FileMissing) (comparisons res) /\
    DirSummary.new (dir_summary res)
      = countIf (hasStatus FileNew) (comparisons res) /\
    DirSummary.matched (dir_summary res) + DirSummary.different (dir_summary res)
    + DirSummary.missing (dir_summary res) + DirSummary.new (dir_summary res)
    + countIf (hasStatus FileError) (comparisons res)
      = DirSummary.total (dir_summary res) /\
    map fst (diffsWritten res) = diffImages (comparisons res).
Proof.
  apply (@compareDirectories_summary Examples.matcher Examples.comparator
           MoreExamples.dirs "baseline" "current" "diffs").
  - intros png path. exists tt. reflexivity.
  - intros a b. simpl. destruct a; discriminate.
  - intros p Hp. exact Hp.
  - intros f Hin. vm_compute in Hin.
    destruct Hin as [<-|[<-|[<-|[<-|[]]]]]; vm_compute; auto.
Defined.

(* ================================================================== *)
(** * The batch check                                                  *)
(* ================================================================== *)

Lemma fold_addPage (l : list PageResult) (acc : BatchSummary) :
  let s := fold_left addPage l acc in
  total_checks s
    = total_checks acc
      + list_sum (map (pageCount (fun r => Summary.total (summary r))) l) /\
  batch_passed s
    = batch_passed acc
      + list_sum (map (pageCount (fun r => Summary.passed (summary r))) l) /\
  batch_failed s
    = batch_failed acc
      + list_sum (map (pageCount (fun r => Summary.failed (summary r))) l) /\
  batch_warnings s
    = batch_warnings acc
      + list_sum (map (pageCount (fun r => Summary.warnings (summary r))) l) /\
  batch_total_issues s
    = batch_total_issues acc
      + list_sum (map (pageCount (fun r => length (issues r))) l) /\
  batch_blocks_release s = batch_blocks_release acc || existsb pageBlocks l.
Proof.
  revert acc. induction l as [|p l IH]; intros acc; simpl.
  - repeat split; try lia. now rewrite orb_false_r.
  - destruct (IH (addPage acc p)) as (H1 & H2 & H3 & H4 & H5 & H6).
    simpl in *. rewrite H1, H2, H3, H4, H5, H6.
    destruct p as [u r|u e]; simpl; repeat split; try lia.
    destruct (Summary.blocks_release (summary r)); simpl;
      [now rewrite orb_true_r | reflexivity].
Qed.

Lemma checkEach_nth `{Engine} (this : VisualQAAgent) (worlds : nat -> World)
      (profileName : string) (checkDarkMode : bool) (urls : list string)
      (index i : nat) :
  nth_error (checkEach this worlds profileName checkDarkMode index urls) i
  = option_map (pageOf this (worlds (index + i)) profileName checkDarkMode)
               (nth_error urls i).
Proof.
  revert index i. induction urls as [|u urls IH]; intros index [|i]; simpl;
    try reflexivity.
  - now rewrite Nat.add_0_r.
  - rewrite IH. now rewrite Nat.add_succ_r.
Qed.

Lemma checkEach_urls `{Engine} (this : VisualQAAgent) (worlds : nat -> World)
      (profileName : string) (checkDarkMode : bool) (urls : list string)
      (index : nat) :
  map pageUrl (checkEach this worlds profileName checkDarkMode index urls) = urls.
Proof.
  revert index. induction urls as [|u urls IH]; intros index; simpl;
    [reflexivity|].
  rewrite IH. destruct (checkPage _ _ _ _ _); reflexivity.
Qed.

Lemma checkEach_unknown `{Engine} (this : VisualQAAgent) (worlds : nat -> World)
      (profileName : string) (checkDarkMode : bool) (urls : list string)
      (index : nat) :
  lookup profileName (test_profiles (agent_devices this)) = None ->
  Forall (fun p => isSuccess p = false /\ pageBlocks p = false
                   /\ forall counter, pageCount counter p = 0)
         (checkEach this worlds profileName checkDarkMode index urls).
Proof.
  intros Hnone. revert index.
  induction urls as [|u urls IH]; intros index; simpl; constructor; auto.
  unfold checkPage.
  destruct (getDevicesForProfile_unknown_profile _ _ Hnone) as [m ->].
  simpl. auto.
Qed.

Lemma list_sum_zero (l : list nat) :
  Forall (fun n => n = 0) l -> list_sum l = 0.
Proof. induction 1; simpl; lia. Qed.

(** X24.  The batch check looks at the first ten addresses only and
    answers with one entry per address, in the order given, each the
    outcome of [checkPage] on that address.  A page whose check threw
    is counted in [failed] of the pages and adds nothing to the
    summary: the counters of the summary are the sums over the pages
    that were checked, and the batch blocks the release exactly when
    one of those does.  For a profile that does not exist every page
    is in error and the summary stays at zero. *)
Theorem checkBatch_aggregates `{Engine} (this : VisualQAAgent)
        (worlds : nat -> World) (urls : list string) (profileName : string)
        (checkDarkMode : bool) :
  let a := checkBatch this worlds urls profileName checkDarkMode in
  total_urls a = Nat.min 10 (length urls) /\
  successful a + failedUrls a = total_urls a /\
  map pageUrl (pages a) = firstn 10 urls /\
  (forall i,
     nth_error (pages a) i
     = option_map (pageOf this (worlds i) profileName checkDarkMode)
                  (nth_error (firstn 10 urls) i)) /\
  total_checks (batch_summary a)
    = list_sum (map (pageCount (fun r => Summary.total (summary r))) (pages a)) /\
  batch_passed (batch_summary a)
    = list_sum (map (pageCount (fun r => Summary.passed (summary r))) (pages a)) /\
  batch_failed (batch_summary a)
    = list_sum (map (pageCount (fun r => Summary.failed (summary r))) (pages a)) /\
  batch_warnings (batch_summary a)
    = list_sum (map (pageCount (fun r => Summary.warnings (summary r))) (pages a)) /\
  batch_total_issues (batch_summary a)
    = list_sum (map (pageCount (fun r => length (issues r))) (pages a)) /\
  batch_blocks_release (batch_summary a) = existsb pageBlocks (pages a) /\
  (lookup profileName (test_profiles (agent_devices this)) = None ->
   successful a = 0 /\ failedUrls a = total_urls a /\
   total_checks (batch_summary a) = 0 /\
   batch_failed (batch_summary a) = 0 /\
   batch_blocks_release (batch_summary a) = false).
Proof.
  unfold checkBatch, aggregate, slice0.
  cbn [total_urls successful failedUrls batch_summary pages].
  set (ps := checkEach this worlds profileName checkDarkMode 0 (firstn 10 urls)).
  assert (length ps = Nat.min 10 (length urls)) as Hlen.
  { rewrite <- (length_map pageUrl). unfold ps.
    rewrite checkEach_urls. apply length_firstn. }
  pose proof (countIf_split isSuccess ps) as Hsplit.
  destruct (fold_addPage ps
              {| total_checks := 0; batch_passed := 0; batch_failed := 0;
                 batch_warnings := 0; batch_total_issues := 0;
                 batch_blocks_release := false |})
    as (H1 & H2 & H3 & H4 & H5 & H6).
  cbn [total_checks batch_passed batch_failed batch_warnings batch_total_issues
       batch_blocks_release Nat.add orb] in H1, H2, H3, H4, H5, H6.
  split; [exact Hlen|]. split; [lia|].
  split; [apply checkEach_urls|].
  split; [intros i; unfold ps; apply checkEach_nth|].
  repeat (split; [assumption|]).
  intros Hnone.
  pose proof (@checkEach_unknown _ this worlds profileName checkDarkMode
                (firstn 10 urls) 0 Hnone)
    as Hall.
  fold ps in Hall.
  assert (countIf isSuccess ps = 0) as Hzero.
  { apply countIf_zero_all. eapply Forall_impl; [|exact Hall]. simpl. tauto. }
  split; [exact Hzero|]. split; [lia|].
  split; [|split].
  - rewrite H1. apply list_sum_zero. apply Forall_map.
    eapply Forall_impl; [|exact Hall]. simpl. intros p (_ & _ & Hp). apply Hp.
  - rewrite H3. apply list_sum_zero. apply Forall_map.
    eapply Forall_impl; [|exact Hall]. simpl. intros p (_ & _ & Hp). apply Hp.
  - rewrite H6. apply not_true_is_false. intros Hex.
    apply existsb_exists in Hex. destruct Hex as [p [Hp Hb]].
    destruct (proj1 (Forall_forall _ _) Hall p Hp) as (_ & Hnb & _). congruence.
Qed.

(* ================================================================== *)
(** * pluralize                                                        *)
(* ================================================================== *)

Section Pluralize.
Local Open Scope Z_scope.
Context {A : Type}.
Variables one few many : A.

Lemma rem_nonneg (n : Z) :
  0 <= n -> Z.rem n 10 = n mod 10 /\ Z.rem n 100 = n mod 100.
Proof. intros Hn. split; apply Z.rem_mod_nonneg; lia. Qed.

Lemma mod10_of_mod100 (n : Z) : n mod 10 = (n mod 100) mod 10.
Proof.
  rewrite (Z.div_mod n 100) at 1 by lia.
  replace (100 * (n / 100) + n mod 100)
    with (n mod 100 + (10 * (n / 100)) * 10) by lia.
  now rewrite Z.mod_add.
Qed.

(** X25.  The plural form depends, for a count that is not negative,
    only on its last two digits; the counts that end in 11 to 14 take
    the form for many, like those that end in 0 or in 5 to 9.  A
    negative number always takes the form for many, since the
    remainder of JavaScript keeps the sign of the number. *)
Theorem pluralize_forms :
  (forall n, 0 <= n ->
             pluralize (n + 100) one few many = pluralize n one few many) /\
  (forall n, n < 0 -> pluralize n one few many = many) /\
  (forall n, 0 <= n -> 11 <= n mod 100 <= 14 ->
             pluralize n one few many = many) /\
  (forall n, 0 <= n -> n mod 10 = 0 \/ 5 <= n mod 10 ->
             pluralize n one few many = many) /\
  (forall n, 0 <= n -> n mod 10 = 1 -> n mod 100 <> 11 ->
             pluralize n one few many = one) /\
  (forall n, 0 <= n -> 2 <= n mod 10 <= 4 -> ~ (12 <= n mod 100 <= 14) ->
             pluralize n one few many = few).
Proof.
  repeat split.
  - intros n Hn. unfold pluralize.
    destruct (rem_nonneg Hn) as [-> ->].
    destruct (@rem_nonneg (n + 100) ltac:(lia)) as [-> ->].
    replace ((n + 100) mod 10) with (n mod 10).
    2:{ replace (n + 100) with (n + 10 * 10) by lia. now rewrite Z.mod_add. }
    replace ((n + 100) mod 100) with (n mod 100).
    2:{ replace (n + 100) with (n + 1 * 100) by lia. now rewrite Z.mod_add. }
    reflexivity.
  - intros n Hn. unfold pluralize.
    assert (Z.rem n 10 <= 0) as H10 by (apply Z.rem_nonpos; lia).
    destruct (Z.eqb_spec (Z.rem n 10) 1); [lia|]. simpl.
    destruct (Z.leb_spec 2 (Z.rem n 10)); [lia|]. reflexivity.
  - intros n Hn Hteen. unfold pluralize.
    destruct (rem_nonneg Hn) as [-> ->].
    pose proof (mod10_of_mod100 n) as H10.
    pose proof (Z.mod_pos_bound (n mod 100) 10 ltac:(lia)).
    pose proof (Z.div_mod (n mod 100) 10 ltac:(lia)).
    destruct (Z.eqb_spec (n mod 10) 1), (Z.eqb_spec (n mod 100) 11),
             (Z.leb_spec 2 (n mod 10)), (Z.leb_spec (n mod 10) 4),
             (Z.ltb_spec (n mod 100) 10), (Z.leb_spec 20 (n mod 100));
      simpl; try reflexivity; lia.
  - intros n Hn Hlast. unfold pluralize.
    destruct (rem_nonneg Hn) as [-> ->].
    destruct (Z.eqb_spec (n mod 10) 1), (Z.leb_spec 2 (n mod 10)),
             (Z.leb_spec (n mod 10) 4);
      simpl; try reflexivity; lia.
  - intros n Hn H1 H11. unfold pluralize.
    destruct (rem_nonneg Hn) as [-> ->]. rewrite H1.
    destruct (Z.eqb_spec (n mod 100) 11); [contradiction|]. reflexivity.
  - intros n Hn H24 Hteen. unfold pluralize.
    destruct (rem_nonneg Hn) as [-> ->].
    pose proof (mod10_of_mod100 n) as H10.
    pose proof (Z.mod_pos_bound (n mod 100) 10 ltac:(lia)).
    pose proof (Z.mod_pos_bound n 100 ltac:(lia)).
    pose proof (Z.div_mod (n mod 100) 10 ltac:(lia)).
    destruct (Z.eqb_spec (n mod 10) 1), (Z.eqb_spec (n mod 100) 11),
             (Z.leb_spec 2 (n mod 10)), (Z.leb_spec (n mod 10) 4),
             (Z.ltb_spec (n mod 100) 10), (Z.leb_spec 20 (n mod 100));
      simpl; try reflexivity; try lia.
Qed.

End Pluralize.

(* ================================================================== *)
(** * copyImageRegion and createSideBySide                             *)
(* ================================================================== *)

Section Panels.
Local Open Scope nat_scope.

Lemma length_setNth i v l : length (setNth i v l) = length l.
Proof. revert i. induction l as [|b l IH]; intros [|i]; simpl; auto. Qed.

Lemma nth_setNth i j v l :
  nth j (setNth i v l) 0%N
  = if Nat.eqb i j && Nat.ltb i (length l) then v else nth j l 0%N.
Proof.
  revert i j. induction l as [|b l IH]; intros [|i] [|j]; simpl; auto;
    try (destruct (Nat.eqb i j); reflexivity).
Qed.

Lemma length_writeByte idx v data : length (writeByte idx v data) = length data.
Proof. unfold writeByte. destruct (inBuffer idx data); auto. apply length_setNth. Qed.

Lemma readByte_writeByte i j v data :
  readByte j (writeByte i v data)
  = if (i =? j)%Z && inBuffer i data then (v mod 256)%N else readByte j data.
Proof.
  unfold readByte, writeByte, inBuffer.
  destruct ((0 <=? i)%Z && (i <? Z.of_nat (length data))%Z) eqn:Ei.
  - rewrite length_setNth.
    destruct ((0 <=? j)%Z && (j <? Z.of_nat (length data))%Z) eqn:Ej.
    + rewrite nth_setNth.
      apply andb_true_iff in Ei, Ej. destruct Ei as [Ei1 Ei2], Ej as [Ej1 Ej2].
      apply Z.leb_le in Ei1, Ej1. apply Z.ltb_lt in Ei2, Ej2.
      destruct (Z.eqb_spec i j).
      * subst. rewrite Nat.eqb_refl. simpl.
        destruct (Nat.ltb_spec (Z.to_nat j) (length data)); [reflexivity|lia].
      * destruct (Nat.eqb_spec (Z.to_nat i) (Z.to_nat j)); [lia|reflexivity].
    + destruct (Z.eqb_spec i j); [|rewrite andb_false_l; reflexivity].
      subst. congruence.
  - rewrite andb_false_r. reflexivity.
Qed.

Lemma writeAll_snoc ws w data :
  writeAll (ws ++ [w]) data = writeByte (fst w) (snd w) (writeAll ws data).
Proof. unfold writeAll. rewrite fold_left_app. reflexivity. Qed.

Lemma length_writeAll ws data : length (writeAll ws data) = length data.
Proof.
  induction ws as [|w ws IH] using rev_ind; [reflexivity|].
  rewrite writeAll_snoc, length_writeByte. exact IH.
Qed.

Lemma setNth_bytes i v l :
  (v < 256)%N -> Forall (fun b => (b < 256)%N) l ->
  Forall (fun b => (b < 256)%N) (setNth i v l).
Proof.
  intros Hv Hl. revert i. induction Hl as [|b l Hb Hl IH]; intros [|i]; simpl;
    constructor; auto.
Qed.

Lemma writeByte_bytes idx v data :
  Forall (fun b => (b < 256)%N) data ->
  Forall (fun b => (b < 256)%N) (writeByte idx v data).
Proof.
  intros Hd. unfold writeByte. destruct (inBuffer idx data); [|exact Hd].
  apply setNth_bytes; [|exact Hd]. apply N.mod_lt. discriminate.
Qed.

Lemma writeAll_bytes ws data :
  Forall (fun b => (b < 256)%N) data ->
  Forall (fun b => (b < 256)%N) (writeAll ws data).
Proof.
  intros Hd. induction ws as [|w ws IH] using rev_ind; [exact Hd|].
  rewrite writeAll_snoc. now apply writeByte_bytes.
Qed.

Lemma readByte_byte idx data :
  Forall (fun b => (b < 256)%N) data -> (readByte idx data < 256)%N.
Proof.
  intros Hd. unfold readByte. destruct (inBuffer idx data) eqn:E; [|reflexivity].
  unfold inBuffer in E. apply andb_true_iff in E. destruct E as [E1 E2].
  apply Z.leb_le in E1. apply Z.ltb_lt in E2.
  apply (proj1 (Forall_forall _ _) Hd). apply nth_In. lia.
Qed.

Lemma readByte_writeAll_other ws j data :
  (forall w, In w ws -> fst w <> j) ->
  readByte j (writeAll ws data) = readByte j data.
Proof.
  induction ws as [|w ws IH] using rev_ind; intros Hall; [reflexivity|].
  rewrite writeAll_snoc, readByte_writeByte.
  destruct (Z.eqb_spec (fst w) j) as [Heq|_].
  - exfalso. apply (Hall w); [apply in_app_iff; right; now left | exact Heq].
  - simpl. apply IH. intros w' Hw'. apply Hall. apply in_app_iff. now left.
Qed.

Lemma readByte_writeAll_hit ws j v data :
  inBuffer j data = true ->
  In (j, v) ws ->
  (forall w, In w ws -> fst w = j -> snd w = v) ->
  readByte j (writeAll ws data) = (v mod 256)%N.
Proof.
  intros Hj. induction ws as [|w ws IH] using rev_ind; intros Hin Hall;
    [destruct Hin|].
  rewrite writeAll_snoc, readByte_writeByte.
  assert (inBuffer (fst w) (writeAll ws data) = inBuffer (fst w) data) as Hb.
  { unfold inBuffer. now rewrite length_writeAll. }
  rewrite Hb.
  destruct (Z.eqb_spec (fst w) j) as [Heq|Hne].
  - rewrite Heq, Hj. simpl. f_equal.
    apply Hall; [apply in_app_iff; right; now left|exact Heq].
  - simpl. apply IH.
    + apply in_app_iff in Hin. destruct Hin as [Hin|[Hin|[]]]; [exact Hin|].
      subst w. simpl in Hne. congruence.
    + intros w' Hw'. apply Hall. apply in_app_iff. now left.
Qed.

Lemma writeAll_app ws1 ws2 data :
  writeAll (ws1 ++ ws2) data = writeAll ws2 (writeAll ws1 data).
Proof. unfold writeAll. apply fold_left_app. Qed.

Lemma copyImageRegion_writes src dest destX destY :
  Png.data (copyImageRegion src dest destX destY)
  = writeAll (regionWrites src dest destX destY) (Png.data dest).
Proof.
  unfold copyImageRegion, regionWrites. cbn [Png.data].
  generalize (Png.data dest) as d. generalize (seq 0 (Png.height src)) as ys.
  induction ys as [|y ys IH]; intros d; [reflexivity|].
  cbn [flat_map fold_left]. rewrite writeAll_app, IH. f_equal.
  clear IH. revert d. generalize (seq 0 (Png.width src)) as xs.
  induction xs as [|x xs IH]; intros d; [reflexivity|].
  cbn [flat_map fold_left]. rewrite writeAll_app, IH. reflexivity.
Qed.

Lemma copyImageRegion_wellFormed src dest destX destY :
  wellFormed dest -> wellFormed (copyImageRegion src dest destX destY).
Proof.
  unfold wellFormed. rewrite copyImageRegion_writes, length_writeAll.
  intros [Hlen Hbytes]. split; [exact Hlen|]. now apply writeAll_bytes.
Qed.

Lemma shl2_small (z : Z) :
  (0 <= z)%Z -> (z * 4 < 2147483648)%Z -> shl2 z = (z * 4)%Z.
Proof.
  intros Hlo Hhi. unfold shl2, toInt32.
  rewrite Z.mod_small by lia. lia.
Qed.

Lemma index_unique (W X Y c X' Y' c' : nat) :
  X < W -> X' < W -> c < 4 -> c' < 4 ->
  4 * (W * Y + X) + c = 4 * (W * Y' + X') + c' ->
  X = X' /\ Y = Y' /\ c = c'.
Proof.
  intros HX HX' Hc Hc' Heq.
  assert (c = c') by lia. subst c'.
  assert (W * Y + X = W * Y' + X') as Hrow by lia.
  assert (Y = Y') by nia. subst Y'. lia.
Qed.

Lemma in_regionWrites src dest destX destY (w : Z * N) :
  In w (regionWrites src dest destX destY) <->
  exists y x c,
    y < Png.height src /\ x < Png.width src /\ c < 4 /\
    w = ((shl2 (Z.of_nat (Png.width dest * (destY + y) + (destX + x)))
          + Z.of_nat c)%Z,
         readByte (shl2 (Z.of_nat (Png.width src * y + x)) + Z.of_nat c)
                  (Png.data src)).
Proof.
  unfold regionWrites. rewrite in_flat_map. split.
  - intros [y [Hy Hin]]. apply in_seq in Hy.
    apply in_flat_map in Hin. destruct Hin as [x [Hx Hin]]. apply in_seq in Hx.
    unfold pixelWrites in Hin. simpl in Hin.
    destruct Hin as [<-|[<-|[<-|[<-|[]]]]];
      exists y, x; [exists 0|exists 1|exists 2|exists 3];
      repeat split; try lia; simpl Z.of_nat; rewrite ?Z.add_0_r; reflexivity.
  - intros [y [x [c (Hy & Hx & Hc & ->)]]].
    exists y. split; [apply in_seq; lia|].
    apply in_flat_map. exists x. split; [apply in_seq; lia|].
    unfold pixelWrites. simpl.
    destruct c as [|[|[|[|c]]]]; [| | | |lia]; simpl Z.of_nat;
      rewrite ?Z.add_0_r; auto.
Qed.

Lemma copyImageRegion_pixels (src dest : Png.t) (destX destY : nat) :
  wellFormed src ->
  wellFormed dest ->
  destX + Png.width src <= Png.width dest ->
  destY + Png.height src <= Png.height dest ->
  (Z.of_nat (4 * (Png.width dest * Png.height dest)) < 2147483648)%Z ->
  let dest' := copyImageRegion src dest destX destY in
  Png.width dest' = Png.width dest /\
  Png.height dest' = Png.height dest /\
  wellFormed dest' /\
  forall x y c,
    x < Png.width dest -> y < Png.height dest -> c < 4 ->
    channel dest' x y c =
    if (destX <=? x) && (x <? destX + Png.width src)
       && (destY <=? y) && (y <? destY + Png.height src)
    then channel src (x - destX) (y - destY) c
    else channel dest x y c.
Proof.
  intros [Hsrc Hsrcb] [Hdest Hdestb] HfitX HfitY Hsmall dest'.
  split; [reflexivity|]. split; [reflexivity|].
  split; [apply copyImageRegion_wellFormed; split; assumption|].
  unfold dest'.
  intros X Y c HX HY Hc. unfold channel.
  change (Png.width (copyImageRegion src dest destX destY)) with (Png.width dest).
  rewrite copyImageRegion_writes.
  set (W := Png.width dest) in *. set (H := Png.height dest) in *.
  set (w := Png.width src) in *. set (h := Png.height src) in *.
  assert (forall y x, y < h -> x < w ->
            shl2 (Z.of_nat (W * (destY + y) + (destX + x)))
            = Z.of_nat (4 * (W * (destY + y) + (destX + x)))) as HdestIdx.
  { intros y x Hy Hx. rewrite shl2_small; [lia|lia|].
    assert (W * (destY + y) + (destX + x) < W * H) by nia. lia. }
  assert (forall y x, y < h -> x < w ->
            shl2 (Z.of_nat (w * y + x)) = Z.of_nat (4 * (w * y + x))) as HsrcIdx.
  { intros y x Hy Hx. rewrite shl2_small; [lia|lia|].
    assert (w * y + x < w * h) by nia.
    assert (w * h <= W * H) by nia. lia. }
  assert (inBuffer (Z.of_nat (4 * (W * Y + X) + c)) (Png.data dest) = true) as Hin.
  { unfold inBuffer. rewrite Hdest. fold W H.
    assert (W * Y + X < W * H) by nia.
    apply andb_true_iff. split; [apply Z.leb_le|apply Z.ltb_lt]; lia. }
  destruct ((destX <=? X) && (X <? destX + w) && (destY <=? Y) && (Y <? destY + h))
    eqn:Einside.
  - rewrite !andb_true_iff, !Nat.leb_le, !Nat.ltb_lt in Einside.
    rewrite <- (N.mod_small
                  (readByte (Z.of_nat (4 * (w * (Y - destY) + (X - destX)) + c))
                            (Png.data src)) 256)
      by (apply readByte_byte; exact Hsrcb).
    apply readByte_writeAll_hit; [exact Hin| |].
    + apply in_regionWrites. exists (Y - destY), (X - destX), c.
      fold w h W. repeat split; try lia.
      rewrite HdestIdx, HsrcIdx by lia.
      f_equal; [|f_equal]; try lia.
      replace (destY + (Y - destY)) with Y by lia.
      replace (destX + (X - destX)) with X by lia. lia.
    + intros wr Hwr Hfst. apply in_regionWrites in Hwr.
      destruct Hwr as [y' [x' [c' (Hy' & Hx' & Hc' & ->)]]].
      fold w h W in Hy', Hx', Hfst |- *.
      simpl in *. rewrite HdestIdx in Hfst by assumption.
      rewrite HsrcIdx by assumption.
      assert (4 * (W * (destY + y') + (destX + x')) + c' = 4 * (W * Y + X) + c)
        as Heq by lia.
      apply index_unique in Heq; try lia.
      destruct Heq as (HXe & HYe & Hce). subst c'.
      replace (Y - destY) with y' by lia. replace (X - destX) with x' by lia.
      f_equal. lia.
  - apply readByte_writeAll_other.
    intros wr Hwr Hfst. apply in_regionWrites in Hwr.
    destruct Hwr as [y' [x' [c' (Hy' & Hx' & Hc' & ->)]]].
      fold w h W in Hy', Hx', Hfst |- *.
    simpl in Hfst. rewrite HdestIdx in Hfst by assumption.
    assert (4 * (W * (destY + y') + (destX + x')) + c' = 4 * (W * Y + X) + c)
      as Heq by lia.
    apply index_unique in Heq; try lia.
    destruct Heq as (HXe & HYe & Hce).
    assert ((destX <=? X) && (X <? destX + w) && (destY <=? Y) && (Y <? destY + h)
            = true); [|congruence].
    rewrite !andb_true_iff, !Nat.leb_le, !Nat.ltb_lt. lia.
Qed.

(** X26.  [copyImageRegion] copies a region that fits into the
    destination pixel by pixel: afterwards the pixel at
    [(destX + x, destY + y)] of the destination is the pixel [(x, y)]
    of the source, every pixel outside the region is as it was, and
    the size of the destination is unchanged. *)
Theorem copyImageRegion_copies_region (src dest : Png.t) (destX destY : nat) :
  wellFormed src ->
  wellFormed dest ->
  destX + Png.width src <= Png.width dest ->
  destY + Png.height src <= Png.height dest ->
  (Z.of_nat (4 * (Png.width dest * Png.height dest)) < 2147483648)%Z ->
  let dest' := copyImageRegion src dest destX destY in
  Png.width dest' = Png.width dest /\
  Png.height dest' = Png.height dest /\
  wellFormed dest' /\
  forall x y c,
    x < Png.width dest -> y < Png.height dest -> c < 4 ->
    channel dest' x y c =
    if (destX <=? x) && (x <? destX + Png.width src)
       && (destY <=? y) && (y <? destY + Png.height src)
    then channel src (x - destX) (y - destY) c
    else channel dest x y c.
Proof. apply copyImageRegion_pixels. Qed.

Lemma copyImageRegion_copies_region_witness :
  Png.width (copyImageRegion PanelExamples.bluePixel MoreExamples.twoReds 1 0) = 2 /\
  Png.height (copyImageRegion PanelExamples.bluePixel MoreExamples.twoReds 1 0) = 1 /\
  wellFormed (copyImageRegion PanelExamples.bluePixel MoreExamples.twoReds 1 0) /\
  forall x y c,
    x < 2 -> y < 1 -> c < 4 ->
    channel (copyImageRegion PanelExamples.bluePixel MoreExamples.twoReds 1 0) x y c =
    if (1 <=? x) && (x <? 1 + 1) && (0 <=? y) && (y <? 0 + 1)
    then channel PanelExamples.bluePixel (x - 1) (y - 0) c
    else channel MoreExamples.twoReds x y c.
Proof.
  apply (@copyImageRegion_copies_region PanelExamples.bluePixel
           MoreExamples.twoReds 1 0).
  - split; [reflexivity | repeat constructor].
  - split; [reflexivity | repeat constructor].
  - simpl. lia.
  - simpl. lia.
  - reflexivity.
Defined.

Lemma fillGrey_writes totalWidth height img :
  Png.data (fillGrey totalWidth height img)
  = writeAll (fillWrites totalWidth height) (Png.data img).
Proof.
  unfold fillGrey, fillWrites. cbn [Png.data].
  generalize (Png.data img) as d. generalize (seq 0 height) as ys.
  induction ys as [|y ys IH]; intros d; [reflexivity|].
  cbn [flat_map fold_left]. rewrite writeAll_app, IH. f_equal.
  clear IH. revert d. generalize (seq 0 totalWidth) as xs.
  induction xs as [|x xs IH]; intros d; [reflexivity|].
  cbn [flat_map fold_left]. rewrite writeAll_app, IH. reflexivity.
Qed.

Lemma in_fillWrites totalWidth height (w : Z * N) :
  In w (fillWrites totalWidth height) <->
  exists y x c,
    y < height /\ x < totalWidth /\ c < 4 /\
    w = ((shl2 (Z.of_nat (totalWidth * y + x)) + Z.of_nat c)%Z, greyChannel c).
Proof.
  unfold fillWrites. rewrite in_flat_map. split.
  - intros [y [Hy Hin]]. apply in_seq in Hy.
    apply in_flat_map in Hin. destruct Hin as [x [Hx Hin]]. apply in_seq in Hx.
    unfold greyWrites in Hin. simpl in Hin.
    destruct Hin as [<-|[<-|[<-|[<-|[]]]]];
      exists y, x; [exists 0|exists 1|exists 2|exists 3];
      repeat split; try lia; simpl Z.of_nat; rewrite ?Z.add_0_r; reflexivity.
  - intros [y [x [c (Hy & Hx & Hc & ->)]]].
    exists y. split; [apply in_seq; lia|].
    apply in_flat_map. exists x. split; [apply in_seq; lia|].
    unfold greyWrites. simpl.
    destruct c as [|[|[|[|c]]]]; [| | | |lia]; simpl Z.of_nat;
      rewrite ?Z.add_0_r; auto.
Qed.

Lemma fillGrey_pixels (img : Png.t) :
  wellFormed img ->
  (Z.of_nat (4 * (Png.width img * Png.height img)) < 2147483648)%Z ->
  let filled := fillGrey (Png.width img) (Png.height img) img in
  Png.width filled = Png.width img /\
  Png.height filled = Png.height img /\
  wellFormed filled /\
  forall x y c,
    x < Png.width img -> y < Png.height img -> c < 4 ->
    channel filled x y c = greyChannel c.
Proof.
  intros Hwf Hsmall filled.
  split; [reflexivity|]. split; [reflexivity|].
  split.
  { unfold wellFormed, filled. rewrite fillGrey_writes, length_writeAll.
    split; [apply Hwf|]. apply writeAll_bytes, Hwf. }
  destruct Hwf as [Hwf Hbytes].
  intros X Y c HX HY Hc. unfold channel, filled.
  change (Png.width (fillGrey (Png.width img) (Png.height img) img))
    with (Png.width img).
  rewrite fillGrey_writes.
  set (W := Png.width img) in *. set (H := Png.height img) in *.
  assert (forall y x, y < H -> x < W ->
            shl2 (Z.of_nat (W * y + x)) = Z.of_nat (4 * (W * y + x))) as Hidx.
  { intros y x Hy Hx. rewrite shl2_small; [lia|lia|].
    assert (W * y + x < W * H) by nia. lia. }
  replace (greyChannel c) with (greyChannel c mod 256)%N
    by (destruct c as [|[|[|[|c]]]]; reflexivity).
  apply readByte_writeAll_hit.
  - unfold inBuffer. rewrite Hwf. fold W H.
    assert (W * Y + X < W * H) by nia.
    apply andb_true_iff. split; [apply Z.leb_le|apply Z.ltb_lt]; lia.
  - apply in_fillWrites. exists Y, X, c. repeat split; try assumption.
    rewrite Hidx by assumption. f_equal. lia.
  - intros wr Hwr Hfst. apply in_fillWrites in Hwr.
    destruct Hwr as [y' [x' [c' (Hy' & Hx' & Hc' & ->)]]].
    simpl in *. rewrite Hidx in Hfst by assumption.
    assert (4 * (W * y' + x') + c' = 4 * (W * Y + X) + c) as Heq by lia.
    apply index_unique in Heq; try lia.
    destruct Heq as (_ & _ & ->). reflexivity.
Qed.


(** X27.  The side-by-side image.  When both images are loaded, have
    the same size, and so has the diff image if there is one,
    [createSideBySide] writes one image to the output path and returns
    that path.  The image has two panels, or three with the diff
    image, each as wide as the first image, with gaps of ten pixels:
    its width is [w * panels + 10 * (panels - 1)].  Every pixel of a
    panel is the pixel of its image, every pixel of a gap is grey
    (128, 128, 128, 255). *)
Theorem createSideBySide_panels (newPNG : nat -> nat -> Png.t)
        (fs : FileSystem) (fileExists : string -> bool)
        (writePNG : Png.t -> string -> EvalResult unit)
        (image1Path image2Path : string) (diffPath : option string)
        (outputPath : string) (img1 img2 : Png.t) :
  let diffImg := diffPanel fs fileExists diffPath in
  let panels := match diffImg with Some _ => 3 | None => 2 end in
  let w := Png.width img1 in
  let h := Png.height img1 in
  let W := w * panels + 10 * (panels - 1) in
  loadPNG fs image1Path = Some img1 ->
  loadPNG fs image2Path = Some img2 ->
  wellFormed img1 -> wellFormed img2 ->
  Png.width img2 = w -> Png.height img2 = h ->
  (forall d, diffImg = Some d ->
             wellFormed d /\ Png.width d = w /\ Png.height d = h) ->
  Png.width (newPNG W h) = W /\ Png.height (newPNG W h) = h /\
  wellFormed (newPNG W h) ->
  (Z.of_nat (4 * (W * h)) < 2147483648)%Z ->
  (exists u, forall png, writePNG png outputPath = Returned u) ->
  exists combined,
    createSideBySide newPNG fs fileExists writePNG image1Path image2Path
                     diffPath outputPath
    = (Returned (Some outputPath), [(outputPath, combined)]) /\
    Png.width combined = W /\ Png.height combined = h /\
    wellFormed combined /\
    forall x y c,
      x < W -> y < h -> c < 4 ->
      channel combined x y c =
      if x <? w then channel img1 x y c
      else if (w + 10 <=? x) && (x <? 2 * w + 10)
           then channel img2 (x - (w + 10)) y c
      else match diffImg with
           | Some d => if 2 * w + 20 <=? x
                       then channel d (x - (2 * w + 20)) y c
                       else greyChannel c
           | None => greyChannel c
           end.
Proof.
  intros diffImg panels w h W Hload1 Hload2 Hwf1 Hwf2 Hw2 Hh2 Hdiff
         (HnewW & Hnewh & Hnewwf) Hsmall [u Hwrite].
  unfold createSideBySide. rewrite Hload1, Hload2.
  fold diffImg. fold panels. fold w h. fold W.
  set (blank := newPNG W h) in *.
  assert (fillGrey W h blank
          = fillGrey (Png.width blank) (Png.height blank) blank) as Hfill
      by (now rewrite HnewW, Hnewh).
  rewrite Hfill.
  destruct (@fillGrey_pixels blank Hnewwf) as (Fw & Fh & Fwf & Fpix).
  { rewrite HnewW, Hnewh. exact Hsmall. }
  set (filled := fillGrey (Png.width blank) (Png.height blank) blank) in *.
  rewrite HnewW in Fw, Fpix. rewrite Hnewh in Fh, Fpix.
  assert (2 <= panels <= 3) as Hpanels
      by (unfold panels; destruct diffImg; lia).
  assert (W = w * panels + 10 * (panels - 1)) as HW by reflexivity.
  (* the first panel *)
  destruct (@copyImageRegion_pixels img1 filled 0 0) as (Aw & Ah & _ & Apix);
    try assumption.
  { rewrite Fw. fold w. nia. }
  { rewrite Fh. fold h. lia. }
  { rewrite Fw, Fh. exact Hsmall. }
  pose proof (@copyImageRegion_wellFormed img1 filled 0 0 Fwf) as Awf.
  set (one := copyImageRegion img1 filled 0 0) in *.
  rewrite Fw in Aw, Apix. rewrite Fh in Ah, Apix.
  (* the second panel *)
  destruct (@copyImageRegion_pixels img2 one (w + 10) 0) as (Bw & Bh & _ & Bpix);
    try assumption.
  { rewrite Aw, Hw2. nia. }
  { rewrite Ah, Hh2. lia. }
  { rewrite Aw, Ah. exact Hsmall. }
  pose proof (@copyImageRegion_wellFormed img2 one (w + 10) 0 Awf) as Bwf.
  set (two := copyImageRegion img2 one (w + 10) 0) in *.
  rewrite Aw in Bw, Bpix. rewrite Ah in Bh, Bpix.
  rewrite Hw2, Hh2 in Bpix.
  fold w h in Apix.
  destruct diffImg as [d|] eqn:Ediff.
  - (* the third panel *)
    destruct (Hdiff d eq_refl) as (Hwfd & Hwd & Hhd).
    destruct (@copyImageRegion_pixels d two ((w + 10) * 2) 0)
      as (Cw & Ch & _ & Cpix); try assumption.
    { rewrite Bw, Hwd. unfold panels in HW. lia. }
    { rewrite Bh, Hhd. lia. }
    { rewrite Bw, Bh. exact Hsmall. }
    pose proof (@copyImageRegion_wellFormed d two ((w + 10) * 2) 0 Bwf) as Cwf.
    set (three := copyImageRegion d two ((w + 10) * 2) 0) in *.
    rewrite Bw in Cw, Cpix. rewrite Bh in Ch, Cpix. rewrite Hwd, Hhd in Cpix.
    exists three. rewrite Hwrite.
    split; [reflexivity|]. split; [exact Cw|]. split; [exact Ch|].
    split; [exact Cwf|].
    intros x y c Hx Hy Hc.
    rewrite (Cpix x y c Hx Hy Hc), (Bpix x y c Hx Hy Hc), (Apix x y c Hx Hy Hc),
            (Fpix x y c Hx Hy Hc).
    rewrite !Nat.sub_0_r.
    destruct (Nat.ltb_spec x w), (Nat.leb_spec (w + 10) x),
             (Nat.ltb_spec x (2 * w + 10)), (Nat.leb_spec (2 * w + 20) x),
             (Nat.leb_spec ((w + 10) * 2) x),
             (Nat.ltb_spec x ((w + 10) * 2 + w)),
             (Nat.ltb_spec x (w + 10 + w)),
             (Nat.ltb_spec x (0 + w)), (Nat.ltb_spec y (0 + h));
      simpl; try lia; try reflexivity;
      try (replace (x - (w + 10) * 2) with (x - (2 * w + 20)) by lia; reflexivity).
  - exists two. rewrite Hwrite.
    split; [reflexivity|]. split; [exact Bw|]. split; [exact Bh|].
    split; [exact Bwf|].
    intros x y c Hx Hy Hc.
    rewrite (Bpix x y c Hx Hy Hc), (Apix x y c Hx Hy Hc), (Fpix x y c Hx Hy Hc).
    rewrite !Nat.sub_0_r.
    destruct (Nat.ltb_spec x w), (Nat.leb_spec (w + 10) x),
             (Nat.ltb_spec x (2 * w + 10)),
             (Nat.ltb_spec x (w + 10 + w)),
             (Nat.ltb_spec x (0 + w)), (Nat.ltb_spec y (0 + h));
      simpl; try lia; reflexivity.
Qed.

Lemma createSideBySide_panels_witness :
  exists combined,
    createSideBySide PanelExamples.newPNG PanelExamples.files (fun _ => false)
                     (fun _ _ => Returned tt) "a.png" "b.png" None "out.png"
    = (Returned (Some "out.png"), [("out.png", combined)]) /\
    Png.width combined = 2 * 2 + 10 * (2 - 1) /\ Png.height combined = 1 /\
    wellFormed combined /\
    forall x y c,
      x < 2 * 2 + 10 * (2 - 1) -> y < 1 -> c < 4 ->
      channel combined x y c =
      if x <? 2 then channel Examples.small x y c
      else if (2 + 10 <=? x) && (x <? 2 * 2 + 10)
           then channel MoreExamples.twoReds (x - (2 + 10)) y c
      else greyChannel c.
Proof.
  apply (@createSideBySide_panels PanelExamples.newPNG PanelExamples.files
           (fun _ => false) (fun _ _ => Returned tt) "a.png" "b.png" None
           "out.png" Examples.small MoreExamples.twoReds).
  - reflexivity.
  - reflexivity.
  - split; [reflexivity | repeat constructor].
  - split; [reflexivity | repeat constructor].
  - reflexivity.
  - reflexivity.
  - intros d Hd. discriminate.
  - split; [reflexivity|]. split; [reflexivity|].
    split; [reflexivity | repeat constructor].
  - reflexivity.
  - exists tt. reflexivity.
Defined.

End Panels.

(* ================================================================== *)
(** * captureConsole                                                   *)
(* ================================================================== *)

Section CaptureConsole.
Local Open Scope nat_scope.
Local Arguments Nat.leb : simpl never.
Variable includeNetwork : bool.

Lemma handleEvents_app (events1 events2 : list PageEvent) (st : Collected) :
  handleEvents includeNetwork (events1 ++ events2) st
  = handleEvents includeNetwork events2 (handleEvents includeNetwork events1 st).
Proof. unfold handleEvents. apply fold_left_app. Qed.

Lemma handleEvents_collects (events : list PageEvent) (st : Collected) :
  let st' := handleEvents includeNetwork events st in
  map log_type (consoleLogs st')
    = map log_type (consoleLogs st) ++ map msg_type (consoleMessages events) /\
  map log_text (consoleLogs st')
    = map log_text (consoleLogs st) ++ map msg_text (consoleMessages events) /\
  length (jsErrors st') = length (jsErrors st) + countIf isPageError events /\
  length (networkErrors st')
    = length (networkErrors st)
      + (if includeNetwork then countIf isNetworkFailure events else 0) /\
  length (securityWarnings st')
    = length (securityWarnings st)
      + countIf (fun m => mentionsSecurity (msg_text m)) (consoleMessages events) /\
  existsb isServerError (networkErrors st')
    = existsb isServerError (networkErrors st)
      || (includeNetwork && existsb isServerFailure events).
Proof.
  revert st. induction events as [|e events IH]; intros st.
  - simpl. rewrite !app_nil_r, !Nat.add_0_r, andb_false_r, orb_false_r.
    destruct includeNetwork; repeat split; auto.
  - change (handleEvents includeNetwork (e :: events) st)
      with (handleEvents includeNetwork events (handleEvent includeNetwork st e)).
    destruct (IH (handleEvent includeNetwork st e))
      as (H1 & H2 & H3 & H4 & H5 & H6).
    cbv zeta. rewrite H1, H2, H3, H4, H5, H6. clear IH H1 H2 H3 H4 H5 H6.
    unfold countIf, push.
    destruct e as [msg t1 t2|m stack t|u method err rt t|u status text rt t];
      simpl; unfold push.
    + rewrite !map_app, <- !app_assoc. simpl.
      destruct (mentionsSecurity (msg_text msg)); simpl;
        rewrite ?length_app; simpl;
        destruct includeNetwork; repeat split; auto; lia.
    + rewrite length_app. simpl.
      destruct includeNetwork; repeat split; auto; lia.
    + destruct includeNetwork; simpl; rewrite ?length_app, ?existsb_app; simpl;
        rewrite ?orb_false_r; repeat split; auto; lia.
    + destruct includeNetwork; simpl; [|repeat split; auto].
      destruct (Nat.leb 400 status) eqn:E400; simpl;
        rewrite ?length_app, ?existsb_app; simpl.
      * rewrite orb_false_r, orb_assoc. repeat split; auto; lia.
      * assert (Nat.leb 500 status = false) as ->.
        { apply Nat.leb_gt. apply Nat.leb_gt in E400. lia. }
        repeat split; auto.
Qed.

Lemma classify_partition (logs : list ConsoleLog) :
  length (class_errors (classify logs)) + length (class_warnings (classify logs))
  + length (class_info (classify logs)) + length (class_debug (classify logs))
  + length (class_other (classify logs)) = length logs.
Proof.
  unfold classify. simpl.
  induction logs as [|l logs IH]; [reflexivity|].
  cbn [filter length].
  destruct (String.eqb (log_type l) "error") eqn:E1;
    [apply String.eqb_eq in E1; rewrite ?E1; simpl; lia|].
  destruct (String.eqb (log_type l) "warning") eqn:E2;
    [apply String.eqb_eq in E2; rewrite ?E2; simpl; lia|].
  destruct (String.eqb (log_type l) "info") eqn:E3;
    [apply String.eqb_eq in E3; rewrite ?E3; simpl; lia|].
  destruct (String.eqb (log_type l) "log") eqn:E4;
    [apply String.eqb_eq in E4; rewrite ?E4; simpl; lia|].
  destruct (String.eqb (log_type l) "debug") eqn:E5;
    [apply String.eqb_eq in E5; rewrite ?E5; simpl; lia|].
  unfold includes. cbn [existsb]. rewrite ?E1, ?E2, ?E3, ?E4, ?E5. simpl. lia.
Qed.

Lemma length_filter_type (t : string) (logs : list ConsoleLog)
      (msgs : list ConsoleMessage) :
  map log_type logs = map msg_type msgs ->
  length (filter (fun l => String.eqb (log_type l) t) logs)
  = countIf (hasType t) msgs.
Proof.
  unfold countIf, hasType. revert msgs.
  induction logs as [|l logs IH]; intros [|m msgs] Heq; try discriminate;
    [reflexivity|].
  simpl in Heq. inversion Heq as [[Hhead Htail]]. simpl. rewrite Hhead.
  destruct (String.eqb (msg_type m) t); simpl; rewrite (IH msgs Htail);
    reflexivity.
Qed.

End CaptureConsole.

(** X28.  The summary of [captureConsole] against the events of the
    page.  The classes [errors], [warnings], [info], [debug] and
    [other] split the console messages that had arrived when the logs
    were classified; [total_logs], the page errors, the security
    warnings and the network errors are counted later, after the title
    was read, and [console.all] also holds what arrived while the
    browser was closed.  A console message that mentions security,
    mixed content or an insecure resource counts as a warning whatever
    its type, a second time if its type is ['warning'].
    [has_critical] says that a page error or, when the network is
    watched, a response with a status from 500 on was seen. *)
Theorem captureConsole_summary {M : Type}
        (parseProtocol : string -> EvalResult string)
        (session : ConsoleSession M) (url : string) (includeNetwork : bool)
        (browserType : string) (r : ConsoleResult M) :
  captureConsole parseProtocol session url includeNetwork browserType
    = Returned r ->
  let before := consoleMessages (eventsBefore session) in
  let seen := (eventsBefore session ++ eventsDuringTitle session)%list in
  let s := console_summary r in
  let c := console_classified r in
  map log_text (console_all r)
    = map msg_text (consoleMessages (seen ++ eventsDuringClose session)) /\
  total_logs s = length (consoleMessages seen) /\
  length (class_errors c) + length (class_warnings c) + length (class_info c)
  + length (class_debug c) + length (class_other c) = length before /\
  summary_errors s
    = countIf (hasType "error") before + countIf isPageError seen /\
  summary_warnings s
    = countIf (hasType "warning") before
      + countIf (fun m => mentionsSecurity (msg_text m)) (consoleMessages seen) /\
  network_errors s
    = (if includeNetwork then countIf isNetworkFailure seen else 0) /\
  (has_critical s = true <->
   existsb isPageError seen = true
   \/ (includeNetwork = true /\ existsb isServerFailure seen = true)).
Proof.
  unfold captureConsole.
  destruct (validateUrl parseProtocol url); [discriminate|].
  destruct (console_launch session); [discriminate|].
  destruct (console_newContext session); [discriminate|].
  destruct (console_newPage session); [discriminate|].
  destruct (console_goto session) as [|response];
    [destruct (console_close session); discriminate|].
  destruct (console_waitForTimeout session);
    [destruct (console_close session); discriminate|].
  destruct (console_performance session) as [|metrics];
    [destruct (console_close session); discriminate|].
  destruct (console_deprecations session) as [|deprecations];
    [destruct (console_close session); discriminate|].
  destruct (console_title session) as [|title];
    [destruct (console_close session); discriminate|].
  destruct (console_close session); [discriminate|].
  intros Hr. inversion Hr; subst r; clear Hr. cbn [console_summary
    console_classified console_all total_logs summary_errors summary_warnings
    network_errors has_critical].
  set (empty := {| consoleLogs := []; jsErrors := []; networkErrors := [];
                   securityWarnings := [] |}).
  rewrite <- !handleEvents_app.
  set (b := eventsBefore session).
  set (seen := (b ++ eventsDuringTitle session)%list).
  pose proof (handleEvents_collects includeNetwork b empty)
    as (B1 & _).
  pose proof (handleEvents_collects includeNetwork seen empty)
    as (S1 & _ & S3 & S4 & S5 & S6).
  pose proof (handleEvents_collects includeNetwork
                (seen ++ eventsDuringClose session) empty)
    as (_ & F2 & _).
  cbn [consoleLogs jsErrors networkErrors securityWarnings empty map app length
       existsb Nat.add orb] in B1, S1, S3, S4, S5, S6, F2.
  split; [rewrite app_assoc; exact F2|].
  split; [rewrite <- (length_map log_type), S1; apply length_map|].
  split; [rewrite classify_partition, <- (length_map log_type), B1;
          apply length_map|].
  split; [unfold classify; cbn [class_errors];
          rewrite (length_filter_type "error" _ _ B1), S3; reflexivity|].
  split; [unfold classify; cbn [class_warnings];
          rewrite (length_filter_type "warning" _ _ B1), S5; reflexivity|].
  split; [exact S4|].
  rewrite S6, S3. rewrite orb_true_iff, andb_true_iff.
  unfold countIf.
  split.
  - intros [Hjs|Hnet]; [left|right; exact Hnet].
    apply Nat.ltb_lt in Hjs.
    destruct (filter isPageError seen) as [|e rest] eqn:E; [simpl in Hjs; lia|].
    apply existsb_exists. exists e.
    assert (In e (filter isPageError seen)) as Hin by (rewrite E; now left).
    apply filter_In in Hin. exact Hin.
  - intros [Hjs|Hnet]; [left|right; exact Hnet].
    apply Nat.ltb_lt. apply existsb_exists in Hjs. destruct Hjs as [e [Hin He]].
    assert (In e (filter isPageError seen)) as Hf
        by (apply filter_In; split; assumption).
    destruct (filter isPageError seen); [destruct Hf|simpl; lia].
Qed.

Lemma captureConsole_summary_witness :
  map log_text (console_all ConsoleExamples.result)
    = map msg_text
        (consoleMessages
           ((eventsBefore ConsoleExamples.session
             ++ eventsDuringTitle ConsoleExamples.session)
            ++ eventsDuringClose ConsoleExamples.session)) /\
  total_logs (console_summary ConsoleExamples.result)
    = length (consoleMessages
                (eventsBefore ConsoleExamples.session
                 ++ eventsDuringTitle ConsoleExamples.session)) /\
  length (class_errors (console_classified ConsoleExamples.result))
  + length (class_warnings (console_classified ConsoleExamples.result))
  + length (class_info (console_classified ConsoleExamples.result))
  + length (class_debug (console_classified ConsoleExamples.result))
  + length (class_other (console_classified ConsoleExamples.result))
    = length (consoleMessages (eventsBefore ConsoleExamples.session)) /\
  summary_errors (console_summary ConsoleExamples.result)
    = countIf (hasType "error")
              (consoleMessages (eventsBefore ConsoleExamples.session))
      + countIf isPageError
                (eventsBefore ConsoleExamples.session
                 ++ eventsDuringTitle ConsoleExamples.session) /\
  summary_warnings (console_summary ConsoleExamples.result)
    = countIf (hasType "warning")
              (consoleMessages (eventsBefore ConsoleExamples.session))
      + countIf (fun m => mentionsSecurity (msg_text m))
                (consoleMessages
                   (eventsBefore ConsoleExamples.session
                    ++ eventsDuringTitle ConsoleExamples.session)) /\
  network_errors (console_summary ConsoleExamples.result)
    = (if true
       then countIf isNetworkFailure
                    (eventsBefore ConsoleExamples.session
                     ++ eventsDuringTitle ConsoleExamples.session)
       else 0) /\
  (has_critical (console_summary ConsoleExamples.result) = true <->
   existsb isPageError
           (eventsBefore ConsoleExamples.session
            ++ eventsDuringTitle ConsoleExamples.session) = true
   \/ (true = true /\
       existsb isServerFailure
               (eventsBefore ConsoleExamples.session
                ++ eventsDuringTitle ConsoleExamples.session) = true)).
Proof.
  apply (@captureConsole_summary unit ConsoleExamples.parseProtocol
           ConsoleExamples.session "https://example.org" true "chromium"
           ConsoleExamples.result).
  vm_compute. reflexivity.
Defined.

(* ================================================================== *)
(** * auditClickableElements                                           *)
(* ================================================================== *)

Section AuditFacts.
Context `{ScriptRuntime}.
Local Open Scope nat_scope.
Variable minTouchSize : float.
Variable isMobile : bool.
Variable viewportWidth : float.
Variable contains : nat -> nat -> bool.

Lemma countType_snoc (t : AuditIssueType) (infos : list ElementInfo)
      (i : ElementInfo) :
  countType t (infos ++ [i])
  = countType t infos
    + countIf (fun e => AuditIssueType_eqb (audit_type e) t) (info_issues i).
Proof. unfold countType. rewrite map_app, list_sum_app. simpl. lia. Qed.

Lemma findings_follow (earlier : list Placed) (index : nat) (el : Clickable) :
  let f := findings minTouchSize isMobile viewportWidth contains earlier index el in
  (found_small f = true -> isVisible el = true /\ isMobile = true) /\
  (found_unnamed f = true -> isVisible el = true) /\
  (found_collapsed f = true -> isVisible el = false) /\
  (found_outside f = true -> isVisible el = true) /\
  (forall other, found_crossing f = Some other ->
     isVisible el = true /\
     overlapped contains index (el_rect el) (getSelector el) earlier = Some other).
Proof.
  unfold findings. cbn.
  destruct (isVisible el), isMobile; cbn;
    (split; [intros Hf; try discriminate; auto|]);
    (split; [intros Hf; try discriminate; auto|]);
    (split; [intros Hf; try discriminate; auto|]);
    (split; [intros Hf; try discriminate; auto|]);
    intros crossed Hcrossed; try discriminate;
    destruct (PrimFloat.ltb 0 (rect_width (el_rect el)));
    try discriminate; auto.
Qed.

Lemma visible_is_placed (el : Clickable) :
  isVisible el && PrimFloat.ltb 0 (rect_width (el_rect el)) = isVisible el.
Proof.
  destruct (isVisible el) eqn:Ev; [|reflexivity].
  unfold isVisible in Ev.
  apply andb_true_iff in Ev. destruct Ev as [Ev _].
  apply andb_true_iff in Ev. destruct Ev as [_ Ev]. now rewrite Ev.
Qed.

(** The record of one element. *)
Lemma elementInfoOf_shape (earlier : list Placed) (index : nat) (el : Clickable) :
  let f := findings minTouchSize isMobile viewportWidth contains earlier index el in
  let info := elementInfoOf minTouchSize index el f in
  wellShaped isMobile info /\
  (forall t,
     countIf (fun e => AuditIssueType_eqb (audit_type e) t) (info_issues info)
     = match t with
       | TooSmall => if found_small f then 1 else 0
       | NoLabel => if found_unnamed f then 1 else 0
       | Hidden => if found_collapsed f then 1 else 0
       | OutsideViewport => if found_outside f then 1 else 0
       | Overlapping => match found_crossing f with Some _ => 1 | None => 0 end
       end) /\
  (forall e,
     In e (info_issues info) -> audit_type e = Overlapping ->
     exists other,
       found_crossing f = Some other /\
       audit_message e = ("Пересекается с " ++ placed_selector other)%string).
Proof.
  intros f info.
  destruct (findings_follow earlier index el)
    as (Hsmall & Hunnamed & Hcollapsed & Houtside & Hcrossing).
  fold f in Hsmall, Hunnamed, Hcollapsed, Houtside, Hcrossing.
  unfold info, elementInfoOf, wellShaped, countIf, push.
  cbn [info_issues info_visible].
  destruct (found_small f); [destruct (Hsmall eq_refl) as [Hv Hm]|];
    (destruct (found_unnamed f); [pose proof (Hunnamed eq_refl) as Hv2|]);
    (destruct (found_collapsed f); [pose proof (Hcollapsed eq_refl) as Hv3|]);
    (destruct (found_outside f); [pose proof (Houtside eq_refl) as Hv4|]);
    (destruct (found_crossing f) as [other|];
     [destruct (Hcrossing other eq_refl) as [Hv5 _]|]);
    try congruence; clear Hsmall Hunnamed Hcollapsed Houtside Hcrossing;
    cbn;
    (split; [repeat split;
             try (repeat constructor; cbn; intuition discriminate);
             try (intros; congruence);
             try (intros; intuition discriminate);
             auto
            |]);
    (split; [intros []; reflexivity|]);
    intros e Hin Htype;
    repeat (destruct Hin as [Hin|Hin];
            [subst e; cbn in Htype; try discriminate;
             eexists; split; reflexivity|]);
    try destruct Hin.
Qed.

Lemma combine_seq_snoc {A} (l : list A) (x : A) (k : nat) :
  combine (seq k (length (l ++ [x]))) (l ++ [x])
  = combine (seq k (length l)) l ++ [(k + length l, x)].
Proof.
  revert k. induction l as [|a l IH]; intros k; simpl.
  - now rewrite Nat.add_0_r.
  - rewrite IH. now rewrite Nat.add_succ_r.
Qed.

Lemma placedIn_more (clickables : list Clickable) (el : Clickable) (p : Placed) :
  placedIn clickables p -> placedIn (clickables ++ [el]) p.
Proof.
  intros [other (Hnth & Hrest)]. exists other. split; [|exact Hrest].
  rewrite nth_error_app1; [exact Hnth|].
  apply nth_error_Some. congruence.
Qed.

Lemma crossingExplained_more (clickables : list Clickable) (el : Clickable)
      (i : ElementInfo) :
  crossingExplained contains clickables i ->
  crossingExplained contains (clickables ++ [el]) i.
Proof.
  intros [el0 (Hnth & Hsel & Hvis & Hall)]. exists el0.
  split; [rewrite nth_error_app1; [exact Hnth|];
          apply nth_error_Some; congruence|].
  split; [exact Hsel|]. split; [exact Hvis|].
  intros e Hin Htype.
  destruct (Hall e Hin Htype) as [j [other (Hj & Hother & Hrest)]].
  exists j, other. split; [exact Hj|]. split; [|exact Hrest].
  rewrite nth_error_app1; [exact Hother|].
  apply nth_error_Some. congruence.
Qed.

(** What the loop keeps. *)
Lemma auditScript_invariant (clickables : list Clickable) :
  let st :=
    fold_left (auditElement minTouchSize isMobile viewportWidth contains)
      (combine (seq 0 (length clickables)) clickables)
      {| audit_results :=
           {| audit_total := 0; audit_valid := []; audit_issues := [];
              audit_summary := {| too_small := 0; no_label := 0; hidden := 0;
                                  overlapping := 0; outside_viewport := 0 |} |};
         rects := [] |} in
  auditCounts isMobile (audit_results st) /\
  audit_total (audit_results st) = length clickables /\
  Forall (placedIn clickables) (rects st) /\
  Forall (crossingExplained contains clickables)
         (audit_issues (audit_results st)).
Proof.
  induction clickables as [|el clickables IH] using rev_ind.
  - cbn. unfold auditCounts, countType. cbn. repeat split; auto.
  - cbv zeta in IH |- *.
    rewrite combine_seq_snoc, fold_left_app. cbn [fold_left Nat.add].
    set (st := fold_left _ _ _) in *.
    destruct IH as (Hcounts & Htotal & Hrects & Hissues).
    destruct Hcounts as (C1 & C2 & C3 & C4 & C5 & Cshape & Cvalid & Clen).
    pose proof (elementInfoOf_shape (rects st) (length clickables) el)
      as (Hshape & Hcount & Hcross).
    cbv zeta in Hshape, Hcount, Hcross.
    pose proof (findings_follow (rects st) (length clickables) el)
      as (_ & _ & _ & _ & Hcrossing).
    cbv zeta in Hcrossing.
    unfold auditElement. cbv zeta.
    set (f := findings minTouchSize isMobile viewportWidth contains (rects st)
                       (length clickables) el) in *.
    set (info := elementInfoOf minTouchSize (length clickables) el f) in *.
    cbn [audit_results rects audit_total audit_valid audit_issues audit_summary
         too_small no_label hidden overlapping outside_viewport].
    assert (crossingExplained contains (clickables ++ [el]) info) as Hinfo.
    { exists el. split; [|split; [reflexivity|split; [reflexivity|]]].
      - unfold info. cbn [info_index elementInfoOf].
        rewrite nth_error_app2 by lia. now rewrite Nat.sub_diag.
      - intros e Hin Htype.
        destruct (Hcross e Hin Htype) as [p (Hp & Hmessage)].
        destruct (Hcrossing p Hp) as (Hv & Hfound).
        unfold overlapped in Hfound. apply find_some in Hfound.
        destruct Hfound as [Hpin Hpred].
        apply andb_true_iff in Hpred. destruct Hpred as [Hpred Hnested].
        apply andb_true_iff in Hpred. destruct Hpred as [Hoverlap Hselector].
        apply negb_true_iff in Hnested, Hselector.
        apply orb_false_iff in Hnested. destruct Hnested as [Hn1 Hn2].
        apply String.eqb_neq in Hselector.
        destruct (proj1 (Forall_forall _ _) Hrects p Hpin)
          as [other (Hnth & Hvo & Hrect & Hsel)].
        exists (placed_el p), other.
        unfold info. cbn [info_index elementInfoOf].
        assert (placed_el p < length clickables) as Hlt
            by (apply nth_error_Some; congruence).
        split; [exact Hlt|].
        split; [rewrite nth_error_app1 by exact Hlt; exact Hnth|].
        split; [exact Hv|]. split; [exact Hvo|].
        split; [now rewrite <- Hrect|].
        split; [now rewrite <- Hsel|].
        split; [exact Hn1|]. split; [exact Hn2|].
        now rewrite <- Hsel. }
    split; [|split; [|split]].
    + unfold auditCounts.
      cbn [audit_results audit_total audit_valid audit_issues audit_summary
           too_small no_label hidden overlapping outside_viewport].
      pose proof (Hcount TooSmall) as H1. pose proof (Hcount NoLabel) as H2.
      pose proof (Hcount Hidden) as H3. pose proof (Hcount Overlapping) as H4.
      pose proof (Hcount OutsideViewport) as H5.
      destruct (info_issues info) as [|e0 rest] eqn:Eissues.
      * unfold countIf in H1, H2, H3, H4, H5.
        cbn [filter length] in H1, H2, H3, H4, H5.
        destruct (found_small f); [discriminate|].
        destruct (found_unnamed f); [discriminate|].
        destruct (found_collapsed f); [discriminate|].
        destruct (found_outside f); [discriminate|].
        destruct (found_crossing f); [discriminate|].
        repeat (split; [assumption|]).
        split.
        -- destruct (isVisible el) eqn:Ev; [|exact Cvalid].
           unfold push. apply Forall_app. split; [exact Cvalid|].
           constructor; [|constructor]. split; [exact Ev|exact Eissues].
        -- destruct (isVisible el); unfold push; rewrite ?length_app; simpl; lia.
      * unfold push. rewrite !countType_snoc, Eissues, H1, H2, H3, H4, H5.
        split; [destruct (found_small f); lia|].
        split; [destruct (found_unnamed f); lia|].
        split; [destruct (found_collapsed f); lia|].
        split; [destruct (found_crossing f); lia|].
        split; [destruct (found_outside f); lia|].
        split.
        -- apply Forall_app. split; [exact Cshape|].
           constructor; [|constructor]. split; [|exact Hshape].
           rewrite Eissues. discriminate.
        -- split; [exact Cvalid|]. rewrite length_app. simpl. lia.
    + rewrite length_app. simpl. lia.
    + rewrite visible_is_placed.
      assert (Forall (placedIn (clickables ++ [el])) (rects st)) as Hold.
      { eapply Forall_impl; [|exact Hrects]. intros p. apply placedIn_more. }
      destruct (isVisible el) eqn:Ev; [|exact Hold].
      unfold push. apply Forall_app. split; [exact Hold|].
      constructor; [|constructor].
      exists el. cbn. split; [|auto].
      rewrite nth_error_app2 by lia. now rewrite Nat.sub_diag.
    + assert (Forall (crossingExplained contains (clickables ++ [el]))
                     (audit_issues (audit_results st))) as Hold.
      { eapply Forall_impl; [|exact Hissues].
        intros i. apply crossingExplained_more. }
      destruct (info_issues info); [exact Hold|].
      unfold push. apply Forall_app. split; [exact Hold|].
      constructor; [exact Hinfo|constructor].
Qed.

End AuditFacts.

Lemma countType_absent (t : AuditIssueType) (infos : list ElementInfo) :
  Forall (fun i => ~ In t (map audit_type (info_issues i))) infos ->
  countType t infos = 0.
Proof.
  unfold countType. induction 1 as [|i infos Hi _ IH]; [reflexivity|].
  simpl. rewrite IH, Nat.add_0_r.
  apply countIf_zero_all. apply Forall_forall. intros e He.
  destruct (AuditIssueType_eqb (audit_type e) t) eqn:E; [|reflexivity].
  exfalso. apply Hi. apply in_map_iff. exists e. split; [|exact He].
  destruct (audit_type e), t; try discriminate; reflexivity.
Qed.

(** X29.  The audit of the clickable elements.  When [page.evaluate]
    throws, the audit is the error record.  Otherwise [total] is the
    number of elements matched; the five counters of the summary count
    the issue entries of their type in [issues]; an element of
    [issues] has at least one entry and at most one of each type, an
    invisible one only the entry ['hidden'], a visible one never that
    entry; an element of [valid] is visible and has no entry; [valid]
    and [issues] together hold no more elements than [total] counts
    (an invisible element without an entry is in neither list).  On a
    device that is neither mobile nor touch nothing is too small. *)
Theorem auditClickableElements_counts `{ScriptRuntime}
        (min_size_px : option float) (device : Device)
        (contains : nat -> nat -> bool)
        (evaluated : EvalResult (list Clickable)) :
  match auditClickableElements min_size_px device contains evaluated with
  | AuditFailed message => evaluated = Threw message
  | AuditDone r =>
      exists clickables,
        evaluated = Returned clickables /\
        audit_total r = length clickables /\
        length (audit_valid r) + length (audit_issues r) <= audit_total r /\
        too_small (audit_summary r) = countType TooSmall (audit_issues r) /\
        no_label (audit_summary r) = countType NoLabel (audit_issues r) /\
        hidden (audit_summary r) = countType Hidden (audit_issues r) /\
        overlapping (audit_summary r) = countType Overlapping (audit_issues r) /\
        outside_viewport (audit_summary r)
          = countType OutsideViewport (audit_issues r) /\
        Forall (fun i => info_visible i = true /\ info_issues i = [])
               (audit_valid r) /\
        Forall (fun i =>
                  info_issues i <> [] /\
                  wellShaped (Device.is_mobile device || Device.has_touch device) i)
               (audit_issues r) /\
        (Device.is_mobile device || Device.has_touch device = false ->
         too_small (audit_summary r) = 0)
  end.
Proof.
  unfold auditClickableElements.
  destruct evaluated as [message|clickables]; [reflexivity|].
  exists clickables. split; [reflexivity|].
  unfold auditScript.
  destruct (auditScript_invariant
              (number_or min_size_px 44%float)
              (Device.is_mobile device || Device.has_touch device)
              (floatOfNat (width (Device.viewport device)))
              contains clickables)
    as ((C1 & C2 & C3 & C4 & C5 & Cshape & Cvalid & Clen) & Htotal & _ & _).
  split; [exact Htotal|]. split; [exact Clen|].
  repeat (split; [assumption|]).
  intros Hdesktop. rewrite C1. apply countType_absent.
  eapply Forall_impl; [|exact Cshape].
  intros i (_ & _ & _ & _ & _ & Hnone). exact (Hnone Hdesktop).
Qed.

(** X30.  An overlap is reported on the later of two elements only:
    every ['overlapping'] entry of the audit belongs to a visible
    element and names the selector of a visible element that comes
    before it in the document, has another selector, has a rectangle
    that meets its own, and neither contains it nor is contained in
    it. *)
Theorem auditClickableElements_overlaps `{ScriptRuntime}
        (min_size_px : option float) (device : Device)
        (contains : nat -> nat -> bool) (clickables : list Clickable) :
  exists r,
    auditClickableElements min_size_px device contains (Returned clickables)
      = AuditDone r /\
    Forall (crossingExplained contains clickables) (audit_issues r).
Proof.
  unfold auditClickableElements. eexists. split; [reflexivity|].
  unfold auditScript.
  destruct (auditScript_invariant
              (number_or min_size_px 44%float)
              (Device.is_mobile device || Device.has_touch device)
              (floatOfNat (width (Device.viewport device)))
              contains clickables)
    as (_ & _ & _ & Hissues).
  exact Hissues.
Qed.
